(** * CodeMemory: the semantic memory engine, embedded in Rocq

    A shallow embedding of the retrieval core of the CodeMemory extension:

    - [EmbeddingGenerator]  (src/vectorstore/embeddings.ts)
    - [MemoryVectorStore]   (src/vectorstore/memoryVectorStore.ts)
    - [ChromaVectorStore]   (src/vectorstore/vectorStore.ts, class VectorStore)
    - [ContextManager]      (src/context/contextManager.ts)
    - [ArchitectureAnalyzer] (src/core/architectureAnalyzer.ts, getAllChunks)
    - [CodeIndexer]         (src/indexer/indexer.ts and parser.ts: indexFile,
                             updateDependencies, findFunctionEnd)

    Modelling conventions.

    - A JavaScript [number] that carries a weight, a score or a vector
      component is a real number: arithmetic is exact, [Math.log] is [ln],
      [Math.sqrt] is [sqrt].  Rounding is not modelled.  Counts and array
      indices are [nat]; line numbers and epoch milliseconds are [Z].
    - A JavaScript string is a [string] of code units below 256.
    - A [Map<string, V>] is an association list in insertion order, as
      iteration order is observable (vocabulary indices, ranking ties).
    - Methods mutate [this]; here they take the object and return the new
      one.  [async] methods are awaited one at a time, so a call is a plain
      state transition.
    - Values the environment supplies ([nanoid()], [new Date()], the content
      of a file, the chunks the parser makes of a file) are arguments of the
      operation that consumes them.
    - A [Set<string>] is the list of its elements in insertion order.  A
      regular expression is modelled by the matches it has, as described
      where it is used.
    - A plain object used as a table ([{}], an object literal) is the list
      of its own properties together with what every object inherits from
      [Object.prototype]: a read under an inherited name finds a function,
      not [undefined]. *)

From Stdlib Require Import String Ascii List Bool Arith ZArith Lia.
From Stdlib Require Import Reals Lra Psatz.
From Stdlib Require Import Permutation.
From Stdlib Require DecimalString.
Import ListNotations.

Set Warnings "-abstract-large-number".

(* ================================================================== *)
(** * The JavaScript runtime the sources rely on                      *)
(* ================================================================== *)

Module JS.

(** ** Exceptions *)

Inductive JsError : Type :=
| Error (message : string).

Inductive Outcome (A : Type) : Type :=
| Returned (a : A)
| Thrown (e : JsError).

Arguments Returned {A} a.
Arguments Thrown {A} e.

(** ** Map<string, V> *)

Definition Map (V : Type) : Type := list (string * V).

Section MapOps.
Context {V : Type}.

Fixpoint Map_get (k : string) (m : Map V) : option V :=
  match m with
  | [] => None
  | (k', v) :: m' => if String.eqb k k' then Some v else Map_get k m'
  end.

Definition Map_has (k : string) (m : Map V) : bool :=
  match Map_get k m with Some _ => true | None => false end.

(** [set] on a key already present keeps the key's position. *)
Fixpoint Map_set (k : string) (v : V) (m : Map V) : Map V :=
  match m with
  | [] => [(k, v)]
  | (k', v') :: m' =>
      if String.eqb k k' then (k, v) :: m' else (k', v') :: Map_set k v m'
  end.

Fixpoint Map_delete (k : string) (m : Map V) : Map V :=
  match m with
  | [] => []
  | (k', v') :: m' =>
      if String.eqb k k' then m' else (k', v') :: Map_delete k m'
  end.

Definition Map_size (m : Map V) : nat := length m.

Definition Map_keys (m : Map V) : list string := map fst m.

Definition Map_values (m : Map V) : list V := map snd m.

End MapOps.

(** ** Arrays *)

Section ArrayOps.
Context {A : Type}.

(** [a[i] = v] for [i] inside the array. *)
Fixpoint Array_set (i : nat) (v : A) (a : list A) : list A :=
  match a, i with
  | [], _ => []
  | _ :: a', O => v :: a'
  | x :: a', S i' => x :: Array_set i' v a'
  end.

(** [a.slice(0, k)] for a count [k]. *)
Definition Array_slice0 (k : nat) (a : list A) : list A := firstn k a.

(** [a.sort(compareFn)]: the sort is stable.  [precedes x y] stands for
    [compareFn(x, y) < 0].  An element is moved in front of exactly those
    later elements it must precede. *)
Variable precedes : A -> A -> bool.

Fixpoint sort_insert (x : A) (sorted : list A) : list A :=
  match sorted with
  | [] => [x]
  | y :: rest =>
      if precedes y x then y :: sort_insert x rest else x :: y :: rest
  end.

Fixpoint Array_sort (a : list A) : list A :=
  match a with
  | [] => []
  | x :: a' => sort_insert x (Array_sort a')
  end.

End ArrayOps.

(** ** Strings *)

Definition newline : string := String (ascii_of_nat 10) EmptyString.

Definition code (c : ascii) : nat := nat_of_ascii c.

(** [\w] *)
Definition is_word (c : ascii) : bool :=
  let n := code c in
  ((48 <=? n) && (n <=? 57)) || ((65 <=? n) && (n <=? 90))
  || ((97 <=? n) && (n <=? 122)) || (n =? 95).

(** [\s], for code units below 256. *)
Definition is_space (c : ascii) : bool :=
  let n := code c in
  ((9 <=? n) && (n <=? 13)) || (n =? 32) || (n =? 160).

Definition lower_char (c : ascii) : ascii :=
  let n := code c in
  if ((65 <=? n) && (n <=? 90))
     || ((192 <=? n) && (n <=? 222) && negb (n =? 215))
  then ascii_of_nat (n + 32) else c.

Fixpoint toLowerCase (s : string) : string :=
  match s with
  | EmptyString => EmptyString
  | String c s' => String (lower_char c) (toLowerCase s')
  end.

(** [s.includes(sub)] *)
Fixpoint includes (s sub : string) : bool :=
  if String.prefix sub s then true
  else match s with
       | EmptyString => false
       | String _ s' => includes s' sub
       end.

(** [s.replace(/[^\w\s]/g, ' ')] *)
Fixpoint replace_non_word_non_space (s : string) : string :=
  match s with
  | EmptyString => EmptyString
  | String c s' =>
      String (if is_word c || is_space c then c else " "%char)
             (replace_non_word_non_space s')
  end.

(** [s.split(/\s+/)]: [cur] is the piece being read, [in_sep] tells that
    the previous code unit was white space. *)
Fixpoint split_ws_from (s cur : string) (in_sep : bool) : list string :=
  match s with
  | EmptyString => [cur]
  | String c s' =>
      if is_space c then
        if in_sep then split_ws_from s' cur true
        else cur :: split_ws_from s' EmptyString true
      else split_ws_from s' (cur ++ String c EmptyString)%string false
  end.

Definition split_ws (s : string) : list string :=
  split_ws_from s EmptyString false.

(** [s.match(/lit/g).length] for a literal [lit]: occurrences found left to
    right without overlap; [skip] code units belong to the last match. *)
Fixpoint count_literal_from (lit s : string) (skip : nat) : nat :=
  match s with
  | EmptyString => 0
  | String _ s' =>
      match skip with
      | S k => count_literal_from lit s' k
      | O =>
          if String.prefix lit s
          then S (count_literal_from lit s' (String.length lit - 1))
          else count_literal_from lit s' 0
      end
  end.

Definition count_literal (lit s : string) : nat :=
  count_literal_from lit s 0.

Fixpoint contains_char (c : ascii) (s : string) : bool :=
  match s with
  | EmptyString => false
  | String d s' => Ascii.eqb c d || contains_char c s'
  end.

(** [s.match(/\o[\s\S]*\c/g).length] for delimiters [o] and [c]: the
    greedy match runs from the first [o] that has a [c] after it to the last
    [c], so there is at most one. *)
Fixpoint count_enclosed (o c : ascii) (s : string) : nat :=
  match s with
  | EmptyString => 0
  | String d s' =>
      if Ascii.eqb d o && contains_char c s' then 1
      else count_enclosed o c s'
  end.

(** [path.basename(p)] (POSIX): the last segment, trailing slashes apart. *)
Fixpoint only_slashes (s : string) : bool :=
  match s with
  | EmptyString => true
  | String c s' => Ascii.eqb c "/"%char && only_slashes s'
  end.

Fixpoint basename_from (p cur : string) : string :=
  match p with
  | EmptyString => cur
  | String c p' =>
      if Ascii.eqb c "/"%char then
        if only_slashes p' then cur else basename_from p' EmptyString
      else basename_from p' (cur ++ String c EmptyString)%string
  end.

Definition basename (p : string) : string := basename_from p EmptyString.

(** ** 32-bit integers *)

(** [ToInt32] *)
Definition to_int32 (z : Z) : Z :=
  ((z + 2147483648) mod 4294967296 - 2147483648)%Z.

(** ** Numbers *)

Definition Rltb (x y : R) : bool := if Rlt_dec x y then true else false.

(** ** Dates *)

(** A [Date] held in memory, or the ISO-8601 text [Date.prototype.toJSON]
    renders for the same instant (what [JSON.stringify] writes and
    [JSON.parse] gives back as a string). *)
Inductive DateValue : Type :=
| DateObject (epoch_ms : Z)
| IsoString (epoch_ms : Z).

Definition Date_toJSON (d : DateValue) : DateValue :=
  match d with
  | DateObject ms => IsoString ms
  | IsoString ms => IsoString ms
  end.

(** ** Set<string> *)

(** A [Set] of strings lists its elements in the order of their
    insertion. *)
Definition Set_has (x : string) (s : list string) : bool :=
  existsb (String.eqb x) s.

Definition Set_add (x : string) (s : list string) : list string :=
  if Set_has x s then s else s ++ [x].

(** [new Set(iterable)] *)
Definition Set_from (l : list string) : list string :=
  fold_left (fun s x => Set_add x s) l [].

(** ** Plain objects *)

(** An object literal, and [{}], inherit the properties of
    [Object.prototype]: [obj[key]] finds a function under eleven names
    and the prototype itself under [__proto__], whether or not [obj] has
    a property of its own of that name. *)
Definition Object_prototype : list string :=
  [ "constructor"; "__defineGetter__"; "__defineSetter__";
    "hasOwnProperty"; "__lookupGetter__"; "__lookupSetter__";
    "isPrototypeOf"; "propertyIsEnumerable"; "toString"; "valueOf";
    "__proto__"; "toLocaleString" ]%string.

Definition inherited (key : string) : bool := Set_has key Object_prototype.

(** What [obj[key]] finds in an object whose own properties are [own]:
    the own property, else the inherited function or object, else
    [undefined]. *)
Inductive Property (V : Type) : Type :=
| Own (v : V)
| Inherited
| Undefined.

Arguments Own {V} v.
Arguments Inherited {V}.
Arguments Undefined {V}.

Definition Object_get {V : Type} (key : string) (own : Map V) : Property V :=
  match Map_get key own with
  | Some v => Own v
  | None => if inherited key then Inherited else Undefined
  end.

(** A value a numeric variable may come to hold: a number, or something
    that is not one (a function, an object, or the string [+] makes of one
    of them and a number). *)
Inductive Value : Type :=
| Num (x : R)
| NotNum.

(** [v + x] then stays what it was: a number, or a string. *)
Definition Value_plus (v : Value) (x : R) : Value :=
  match v with
  | Num y => Num (y + x)
  | NotNum => NotNum
  end.

(** A result of type [number]. *)
Inductive JsNumber : Type :=
| Finite (x : R)
| NaN.

(** [Math.min(v, x)]: a function, an object and a string that spells no
    number convert to [NaN]. *)
Definition Math_min (v : Value) (x : R) : JsNumber :=
  match v with
  | Num y => Finite (Rmin y x)
  | NotNum => NaN
  end.

(** ** More on strings *)

(** [s.split(sep)] for a separator of one code unit. *)
Fixpoint split_char_from (sep : ascii) (s cur : string) : list string :=
  match s with
  | EmptyString => [cur]
  | String c s' =>
      if Ascii.eqb c sep then cur :: split_char_from sep s' EmptyString
      else split_char_from sep s' (cur ++ String c EmptyString)%string
  end.

Definition split_char (sep : ascii) (s : string) : list string :=
  split_char_from sep s EmptyString.

(** [replace] with the global pattern of the two quotation marks and the
    empty string: the code units 39 and 34 are dropped. *)
Fixpoint remove_quotes (s : string) : string :=
  match s with
  | EmptyString => EmptyString
  | String c s' =>
      if (code c =? 39) || (code c =? 34) then remove_quotes s'
      else String c (remove_quotes s')
  end.

(** [\d] *)
Definition is_digit (c : ascii) : bool :=
  (48 <=? code c) && (code c <=? 57).

(** The maximal runs of [\w] code units of a string, from left to right;
    [cur] is the run being read (empty between two code units that are
    not [\w]). *)
Fixpoint word_runs_from (s cur : string) : list string :=
  match s with
  | EmptyString => [cur]
  | String c s' =>
      if is_word c then word_runs_from s' (cur ++ String c EmptyString)%string
      else cur :: word_runs_from s' EmptyString
  end.

Definition word_runs (s : string) : list string :=
  word_runs_from s EmptyString.

End JS.

Import JS.

(* ================================================================== *)
(** * Data model (src/types/index.ts)                                 *)
(* ================================================================== *)

Module CodeChunk.

(** [metadata]: every field is optional. *)
Record Metadata : Type := mkMetadata {
  signature : option string;
  docstring : option string;
  dependencies : option (list string);
  complexity : option R;
  lastModified : option DateValue
}.

(** [type] is declared as one of 'function', 'class', 'method', 'module',
    'variable', 'import'; at run time it is a string like any other. *)
Record t : Type := mk {
  id : string;
  filepath : string;
  content : string;
  type : string;
  name : string;
  startLine : Z;
  endLine : Z;
  language : string;
  parentId : option string;
  metadata : Metadata
}.

End CodeChunk.

Module VectorSearchResult.

(** [context] is filled in by the context manager only. *)
Record t : Type := mk {
  chunk : CodeChunk.t;
  score : R
}.

End VectorSearchResult.

(** A string used as a condition: [undefined] and [''] are falsy. *)
Definition truthy (s : option string) : bool :=
  match s with
  | Some v => negb (String.eqb v EmptyString)
  | None => false
  end.

(* ================================================================== *)
(** * EmbeddingGenerator (src/vectorstore/embeddings.ts)              *)
(* ================================================================== *)

Module EmbeddingGenerator.

Local Open Scope R_scope.

Record t : Type := mk {
  vocabulary : Map nat;
  idfScores : Map R;
  documents : list string
}.

Definition dimension : nat := 384.

(** [new EmbeddingGenerator()] *)
Definition new : t := mk [] [] [].

(** [initialize] only logs. *)
Definition initialize (g : t) : t := g.

Fixpoint bigrams (words : list string) : list string :=
  match words with
  | w1 :: ((w2 :: _) as rest) =>
      (w1 ++ "_" ++ w2)%string :: bigrams rest
  | _ => []
  end.

Definition tokenize (text : string) : list string :=
  let words :=
    filter (fun token => (0 <? String.length token)%nat)
           (split_ws (replace_non_word_non_space (toLowerCase text))) in
  words ++ bigrams words.

(** The counting loop of [computeTF]. *)
Definition countTokens (tokens : list string) : Map nat :=
  fold_left
    (fun tf token =>
       Map_set token
         (match Map_get token tf with Some n => n | None => O end + 1)%nat tf)
    tokens [].

Definition computeTF (tokens : list string) : Map R :=
  let totalTokens := List.length tokens in
  map (fun '(token, count) => (token, INR count / INR totalTokens))
      (countTokens tokens).

Definition updateVocabulary (tokens : list string) (vocab : Map nat)
  : Map nat :=
  fold_left
    (fun v token =>
       if Map_has token v then v else Map_set token (Map_size v) v)
    tokens vocab.

Definition documentCount (docs : list string) (token : string) : nat :=
  List.length (filter (fun doc => includes (toLowerCase doc) token) docs).

Definition computeIDF (vocab : Map nat) (docs : list string) : Map R :=
  let N := match List.length docs with O => 1%nat | n => n end in
  fold_left
    (fun idf '(token, _) =>
       let dc := documentCount docs token in
       if (0 <? dc)%nat then Map_set token (ln (INR N / INR dc)) idf
       else idf)
    vocab [].

Definition simpleHash (str : string) : Z :=
  fold_left
    (fun hash c =>
       to_int32 (to_int32 (hash * 32) - hash + Z.of_nat (code c))%Z)
    (list_ascii_of_string str) 0%Z.

(** The keyword groups of [addSemanticFeatures]. *)
Definition features : list (list string * nat) :=
  [ (["function"; "def"; "func"; "method"], 300);
    (["class"; "struct"; "interface"], 301);
    (["import"; "require"; "include"; "from"], 302);
    (["export"; "module.exports"; "public"], 303);
    (["async"; "await"; "promise"; "then"], 304);
    (["return"; "yield"], 305);
    (["if"; "else"; "switch"; "case"], 306);
    (["for"; "while"; "foreach"; "map"], 307);
    (["try"; "catch"; "throw"; "error"], 308);
    (["const"; "let"; "var"; "val"], 309);
    (["new"; "constructor"; "init"], 310);
    (["get"; "set"; "getter"; "setter"], 311);
    (["api"; "endpoint"; "route"; "rest"], 312);
    (["test"; "spec"; "describe"; "it"; "expect"], 313);
    (["database"; "query"; "sql"; "select"], 314) ]%string%nat.

(** The patterns of [structureFeatures]. *)
Inductive Pattern : Type :=
| Enclosed (opening closing : ascii)
| Literal (lit : string).

Definition match_count (p : Pattern) (text : string) : nat :=
  match p with
  | Enclosed o c => count_enclosed o c text
  | Literal lit => count_literal lit text
  end.

Definition structureFeatures : list (Pattern * nat) :=
  [ (Enclosed "{" "}", 320);
    (Enclosed "(" ")", 321);
    (Enclosed "[" "]", 322);
    (Literal "=>", 323);
    (Literal ".", 324);
    (Literal "::", 325);
    (Literal "->", 326) ]%char%string%nat.

Definition addSemanticFeatures (text : string) (vector : list R) : list R :=
  let lowerText := toLowerCase text in
  let vector1 :=
    fold_left
      (fun v '(keywords, index) =>
         let count :=
           List.length (filter (fun kw => includes lowerText kw) keywords) in
         if (0 <? count)%nat && (index <? dimension)%nat
         then Array_set index (INR count / INR (List.length keywords)) v
         else v)
      features vector in
  fold_left
    (fun v '(pattern, index) =>
       let matches := match_count pattern text in
       if (0 <? matches)%nat && (index <? dimension)%nat
       then Array_set index (Rmin (INR matches / 10) 1) v
       else v)
    structureFeatures vector1.

(** The TF-IDF loop of [textToVector] for one entry of [tf]. *)
Definition addToken (g : t) (vector : list R) (entry : string * R)
  : list R :=
  let '(token, tfScore) := entry in
  let idfScore :=
    match Map_get token (idfScores g) with Some s => s | None => 0 end in
  match Map_get token (vocabulary g) with
  | Some index =>
      if (index <? dimension)%nat
      then Array_set index (tfScore * idfScore) vector
      else
        let hashedIndex := Z.rem (simpleHash token) (Z.of_nat dimension) in
        let slot := Z.to_nat (Z.abs hashedIndex) in
        Array_set slot (nth slot vector 0 + tfScore * idfScore) vector
  | None => vector
  end.

Definition sumSquares (vector : list R) : R :=
  fold_left (fun sum val => sum + val * val) vector 0.

Definition magnitude (vector : list R) : R := sqrt (sumSquares vector).

(** The vector before the final normalisation. *)
Definition rawVector (g : t) (text : string) : list R :=
  let tokens := tokenize text in
  let tf := computeTF tokens in
  let vector := repeat 0 dimension in
  addSemanticFeatures text (fold_left (addToken g) tf vector).

Definition textToVector (g : t) (text : string) : list R :=
  let vector := rawVector g text in
  let m := magnitude vector in
  if Rgt_dec m 0 then map (fun val => val / m) vector else vector.

(** The state after the bookkeeping of [generate]: the text is appended
    to the documents, the vocabulary is extended, the IDF table rebuilt. *)
Definition learn (g : t) (text : string) : t :=
  let docs := documents g ++ [text] in
  let vocab := updateVocabulary (tokenize text) (vocabulary g) in
  mk vocab (computeIDF vocab docs) docs.

Definition generate (g : t) (text : string) : list R * t :=
  let g' := learn g text in
  (textToVector g' text, g').

(** The first loop of [generateBatch]: no IDF recompute inside it. *)
Definition absorb (g : t) (text : string) : t :=
  mk (updateVocabulary (tokenize text) (vocabulary g))
     (idfScores g)
     (documents g ++ [text]).

Definition generateBatch (g : t) (texts : list string)
  : list (list R) * t :=
  let g1 := fold_left absorb texts g in
  let g' := mk (vocabulary g1)
               (computeIDF (vocabulary g1) (documents g1))
               (documents g1) in
  (map (textToVector g') texts, g').

End EmbeddingGenerator.

(* ================================================================== *)
(** * The operations both vector stores offer                         *)
(* ================================================================== *)

Module StoreApi.

(** What a histogram holds under a key: a count or, where the key is a
    name every object inherits, the text that [+ 1] made of the inherited
    function. *)
Inductive Cell : Type :=
| Count (n : nat)
| Text.

(** The two histograms are plain objects, made as [{}]; the keys are listed
    in the order of their first assignment (an object lists keys that spell
    an array index before the others, which no statement relies on). *)
Record Stats : Type := mkStats {
  totalChunks : nat;
  chunksByType : Map Cell;
  chunksByLanguage : Map Cell
}.

(** A call of one of the public methods. *)
Inductive Operation : Type :=
| AddChunks (chunks : list CodeChunk.t)
| Search (query : string) (k : nat)
| SearchByCode (codeSnippet : string) (k : nat)
| GetRelatedChunks (chunkId : string) (k : nat)
| GetChunkById (chunkId : string)
| UpdateChunk (chunk : CodeChunk.t)
| DeleteChunks (chunkIds : list string)
| GetStats.

(** What the promise of a call resolves to. *)
Inductive Response : Type :=
| Done
| Results (results : list VectorSearchResult.t)
| Chunk (chunk : option CodeChunk.t)
| Statistics (stats : Stats).

(** [new Error('Vector store not initialized')] *)
Definition NotInitialized : JsError := Error "Vector store not initialized".

End StoreApi.

(* ================================================================== *)
(** * MemoryVectorStore (src/vectorstore/memoryVectorStore.ts)        *)
(* ================================================================== *)

Module MemoryVectorStore.

Import StoreApi.
Local Open Scope R_scope.

Record StoredChunk : Type := mkStored {
  chunk : CodeChunk.t;
  embedding : list R
}.

(** One element of the JSON array in chunks.json. *)
Record Item : Type := mkItem {
  item_id : string;
  item_chunk : CodeChunk.t;
  item_embedding : list R
}.

(** [file] is the content of [persistencePath], when the file exists, as
    [JSON.parse] reads it.  A file that does not parse is not modelled. *)
Record t : Type := mk {
  chunks : Map StoredChunk;
  embeddingGenerator : EmbeddingGenerator.t;
  file : option (list Item)
}.

(** What [JSON.stringify] followed by [JSON.parse] makes of a chunk: an
    absent field stays absent, strings, arrays and finite numbers come back
    as they were, a [Date] comes back as its ISO text. *)
Definition JSON_chunk (c : CodeChunk.t) : CodeChunk.t :=
  let m := CodeChunk.metadata c in
  CodeChunk.mk (CodeChunk.id c) (CodeChunk.filepath c) (CodeChunk.content c)
    (CodeChunk.type c) (CodeChunk.name c) (CodeChunk.startLine c)
    (CodeChunk.endLine c) (CodeChunk.language c) (CodeChunk.parentId c)
    (CodeChunk.mkMetadata (CodeChunk.signature m) (CodeChunk.docstring m)
       (CodeChunk.dependencies m) (CodeChunk.complexity m)
       (option_map Date_toJSON (CodeChunk.lastModified m))).

(** The write is taken to succeed. *)
Definition saveToDisk (s : t) : t :=
  let data :=
    map (fun '(id, stored) =>
           mkItem id (JSON_chunk (chunk stored)) (embedding stored))
        (chunks s) in
  mk (chunks s) (embeddingGenerator s) (Some data).

Definition loadFromDisk (s : t) : t :=
  match file s with
  | Some data =>
      mk (fold_left
            (fun m item =>
               Map_set (item_id item)
                 (mkStored (item_chunk item) (item_embedding item)) m)
            data (chunks s))
         (embeddingGenerator s) (file s)
  | None => s
  end.

(** [new MemoryVectorStore(projectPath)], given the content of
    chunks.json under that path. *)
Definition constructor (onDisk : option (list Item)) : t :=
  loadFromDisk (mk [] EmbeddingGenerator.new onDisk).

Definition initialize (projectName : string) (s : t) : t :=
  mk (chunks s) (EmbeddingGenerator.initialize (embeddingGenerator s))
     (file s).

Definition createChunkText (c : CodeChunk.t) : string :=
  let m := CodeChunk.metadata c in
  let parts :=
    [ ("Type: " ++ CodeChunk.type c)%string;
      ("Name: " ++ CodeChunk.name c)%string;
      ("Language: " ++ CodeChunk.language c)%string;
      ("File: " ++ basename (CodeChunk.filepath c))%string ]
    ++ (if truthy (CodeChunk.signature m)
        then [("Signature: "
               ++ match CodeChunk.signature m with
                  | Some v => v | None => EmptyString end)%string]
        else [])
    ++ (if truthy (CodeChunk.docstring m)
        then [("Documentation: "
               ++ match CodeChunk.docstring m with
                  | Some v => v | None => EmptyString end)%string]
        else [])
    ++ [("Code:" ++ newline ++ CodeChunk.content c)%string] in
  String.concat newline parts.

(** [b] has a component for every index of [a]: every embedding has
    [dimension] components.  The arithmetic is exact: rounding, by which
    the code's doubles may give a vector and itself a quotient next to 1
    (1.0000000000000002, and so a score just below 0), is not modelled. *)
Definition cosineSimilarity (a b : list R) : R :=
  let '(dotProduct, normA, normB) :=
    fold_left
      (fun '(d, na, nb) '(x, y) => (d + x * y, na + x * x, nb + y * y))
      (combine a b) (0, 0, 0) in
  let normA := sqrt normA in
  let normB := sqrt normB in
  if Req_dec_T normA 0 then 0
  else if Req_dec_T normB 0 then 0
  else dotProduct / (normA * normB).

Definition addChunks (cs : list CodeChunk.t) (s : t) : t :=
  let '(embeddings, g) :=
    EmbeddingGenerator.generateBatch (embeddingGenerator s)
      (map createChunkText cs) in
  let chunks' :=
    fold_left
      (fun m '(c, e) => Map_set (CodeChunk.id c) (mkStored c e) m)
      (combine cs embeddings) (chunks s) in
  saveToDisk (mk chunks' g (file s)).

Definition search (query : string) (k : nat) (s : t)
  : list VectorSearchResult.t * t :=
  let '(queryEmbedding, g) :=
    EmbeddingGenerator.generate (embeddingGenerator s) query in
  let results :=
    map (fun '(_, storedChunk) =>
           VectorSearchResult.mk (chunk storedChunk)
             (1 - cosineSimilarity queryEmbedding (embedding storedChunk)))
        (chunks s) in
  let sorted :=
    Array_sort
      (fun a b => Rltb (VectorSearchResult.score a)
                       (VectorSearchResult.score b))
      results in
  (Array_slice0 k sorted, mk (chunks s) g (file s)).

Definition searchByCode (codeSnippet : string) (k : nat) (s : t)
  : list VectorSearchResult.t * t :=
  search ("Code similar to: " ++ codeSnippet)%string k s.

Definition getChunkById (chunkId : string) (s : t) : option CodeChunk.t :=
  option_map chunk (Map_get chunkId (chunks s)).

Definition getRelatedChunks (chunkId : string) (k : nat) (s : t)
  : list VectorSearchResult.t * t :=
  match getChunkById chunkId s with
  | None => ([], s)
  | Some c =>
      let chunkText := createChunkText c in
      let '(results, s') := search chunkText (k + 1) s in
      (Array_slice0 k
         (filter
            (fun r =>
               negb (String.eqb
                       (CodeChunk.id (VectorSearchResult.chunk r)) chunkId))
            results),
       s')
  end.

Definition updateChunk (c : CodeChunk.t) (s : t) : t :=
  let '(e, g) :=
    EmbeddingGenerator.generate (embeddingGenerator s)
      (createChunkText c) in
  saveToDisk (mk (Map_set (CodeChunk.id c) (mkStored c e) (chunks s))
                 g (file s)).

Definition deleteChunks (chunkIds : list string) (s : t) : t :=
  saveToDisk
    (mk (fold_left (fun m id => Map_delete id m) chunkIds (chunks s))
        (embeddingGenerator s) (file s)).

(** [rec[key] = (rec[key] || 0) + 1] on a plain object [rec].  A count
    goes up by one and a key that is new starts at 1.  Under a name that
    [rec] inherits the read finds a function (or, for [__proto__], the
    prototype), which is truthy: [+ 1] makes a string of it, and the
    assignment stores the string as an own property, except under
    [__proto__], where assigning a string does nothing. *)
Definition increment (key : string) (rec : Map Cell) : Map Cell :=
  match Object_get key rec with
  | Own (Count n) => Map_set key (Count (n + 1)) rec
  | Own Text => Map_set key Text rec
  | Inherited =>
      if String.eqb key "__proto__" then rec else Map_set key Text rec
  | Undefined => Map_set key (Count 1) rec
  end.

Definition getStats (s : t) : Stats :=
  fold_left
    (fun stats '(_, storedChunk) =>
       let c := chunk storedChunk in
       mkStats (totalChunks stats)
         (increment (CodeChunk.type c) (chunksByType stats))
         (increment (CodeChunk.language c) (chunksByLanguage stats)))
    (chunks s)
    (mkStats (Map_size (chunks s)) [] []).

Definition clearAll (s : t) : t :=
  mk [] (embeddingGenerator s) None.

(** A call through the public interface.  No method of this class has a
    [throw], and none reads a flag set by [initialize]. *)
Definition call (op : Operation) (s : t) : Outcome (Response * t) :=
  match op with
  | AddChunks cs => Returned (Done, addChunks cs s)
  | Search q k => let '(r, s') := search q k s in Returned (Results r, s')
  | SearchByCode c k =>
      let '(r, s') := searchByCode c k s in Returned (Results r, s')
  | GetRelatedChunks i k =>
      let '(r, s') := getRelatedChunks i k s in Returned (Results r, s')
  | GetChunkById i => Returned (Chunk (getChunkById i s), s)
  | UpdateChunk c => Returned (Done, updateChunk c s)
  | DeleteChunks ids => Returned (Done, deleteChunks ids s)
  | GetStats => Returned (Statistics (getStats s), s)
  end.

End MemoryVectorStore.

(* ================================================================== *)
(** * VectorStore over ChromaDB (src/vectorstore/vectorStore.ts)      *)
(* ================================================================== *)

Module ChromaVectorStore.

Import StoreApi.

Definition bind {A B : Type} (m : Outcome A) (f : A -> Outcome B)
  : Outcome B :=
  match m with
  | Returned a => f a
  | Thrown e => Thrown e
  end.

Notation "x <- m ;; f" := (bind m (fun x => f))
  (at level 61, m at next level, right associativity).

Section Client.

(** The ChromaDB client is an external service: its collections and what
    their methods answer are parameters.  [query] and [get] stand for the
    client call followed by [processSearchResults] or [reconstructChunk]. *)
Variable Collection : Type.
Variable getCollection : string -> Outcome Collection.
Variable createCollection : string -> Outcome Collection.
Variable add : list CodeChunk.t -> Collection -> Outcome Collection.
Variable query :
  string -> nat -> Collection -> Outcome (list VectorSearchResult.t).
Variable get : string -> Collection -> Outcome (option CodeChunk.t).
Variable update : CodeChunk.t -> Collection -> Outcome Collection.
Variable delete : list string -> Collection -> Outcome Collection.
(** [collection.get()]: the ids and, per id, the metadata's type and
    language when there is metadata. *)
Variable getAll :
  Collection -> Outcome (list string * list (option (string * string))).

(** [collection] is [null] until [initialize] has set it. *)
Record t : Type := mk {
  collection : option Collection
}.

(** [new VectorStore(projectPath)] *)
Definition constructor : t := mk None.

Definition sanitizeCollectionName (n : string) : string :=
  toLowerCase
    ((fix go (s : string) : string :=
        match s with
        | EmptyString => EmptyString
        | String c s' => String (if is_word c then c else "_"%char) (go s')
        end) n).

Definition initialize (projectName : string) (s : t) : Outcome t :=
  match getCollection (sanitizeCollectionName projectName) with
  | Returned c => Returned (mk (Some c))
  | Thrown _ =>
      c <- createCollection (sanitizeCollectionName projectName) ;;
      Returned (mk (Some c))
  end.

Definition addChunks (cs : list CodeChunk.t) (s : t) : Outcome t :=
  match collection s with
  | None => Thrown NotInitialized
  | Some c => c' <- add cs c ;; Returned (mk (Some c'))
  end.

Definition search (q : string) (k : nat) (s : t)
  : Outcome (list VectorSearchResult.t) :=
  match collection s with
  | None => Thrown NotInitialized
  | Some c => query q k c
  end.

Definition searchByCode (codeSnippet : string) (k : nat) (s : t)
  : Outcome (list VectorSearchResult.t) :=
  let enhancedQuery := ("Code similar to: " ++ codeSnippet)%string in
  search enhancedQuery k s.

Definition getChunkById (chunkId : string) (s : t)
  : Outcome (option CodeChunk.t) :=
  match collection s with
  | None => Thrown NotInitialized
  | Some c => get chunkId c
  end.

Definition getRelatedChunks (chunkId : string) (k : nat) (s : t)
  : Outcome (list VectorSearchResult.t) :=
  match collection s with
  | None => Thrown NotInitialized
  | Some _ =>
      found <- getChunkById chunkId s ;;
      match found with
      | None => Returned []
      | Some c =>
          results <- search (MemoryVectorStore.createChunkText c) (k + 1) s ;;
          Returned
            (Array_slice0 k
               (filter
                  (fun r =>
                     negb (String.eqb
                             (CodeChunk.id (VectorSearchResult.chunk r))
                             chunkId))
                  results))
      end
  end.

Definition updateChunk (ch : CodeChunk.t) (s : t) : Outcome t :=
  match collection s with
  | None => Thrown NotInitialized
  | Some c => c' <- update ch c ;; Returned (mk (Some c'))
  end.

Definition deleteChunks (chunkIds : list string) (s : t) : Outcome t :=
  match collection s with
  | None => Thrown NotInitialized
  | Some c => c' <- delete chunkIds c ;; Returned (mk (Some c'))
  end.

Definition getStats (s : t) : Outcome Stats :=
  match collection s with
  | None => Thrown NotInitialized
  | Some c =>
      allData <- getAll c ;;
      Returned
        (fold_left
           (fun stats metadata =>
              match metadata with
              | Some (type, language) =>
                  mkStats (totalChunks stats)
                    (MemoryVectorStore.increment type (chunksByType stats))
                    (MemoryVectorStore.increment language
                       (chunksByLanguage stats))
              | None => stats
              end)
           (snd allData)
           (mkStats (List.length (fst allData)) [] []))
  end.

(** A call through the public interface. *)
Definition call (op : Operation) (s : t) : Outcome (Response * t) :=
  match op with
  | AddChunks cs => s' <- addChunks cs s ;; Returned (Done, s')
  | Search q k => r <- search q k s ;; Returned (Results r, s)
  | SearchByCode c k => r <- searchByCode c k s ;; Returned (Results r, s)
  | GetRelatedChunks i k =>
      r <- getRelatedChunks i k s ;; Returned (Results r, s)
  | GetChunkById i => r <- getChunkById i s ;; Returned (Chunk r, s)
  | UpdateChunk c => s' <- updateChunk c s ;; Returned (Done, s')
  | DeleteChunks ids => s' <- deleteChunks ids s ;; Returned (Done, s')
  | GetStats => r <- getStats s ;; Returned (Statistics r, s)
  end.

End Client.

End ChromaVectorStore.

(* ================================================================== *)
(** * ContextManager (src/context/contextManager.ts)                  *)
(* ================================================================== *)

Module ContextManager.

Local Open Scope R_scope.

Record ArchitecturalPattern : Type := mkPattern {
  pattern_name : string;
  pattern_description : string;
  pattern_examples : list string;
  pattern_locations : list string
}.

Record Dependency : Type := mkDependency {
  dependency_name : string;
  dependency_version : string;
  dependency_production : bool;
  dependency_usage : list string
}.

Record ProjectContext : Type := mkProjectContext {
  projectPath : string;
  language : list string;
  frameworks : list string;
  patterns : list ArchitecturalPattern;
  conventions : list string;
  dependencies : list Dependency
}.

Inductive Feedback : Type := helpful | not_helpful.

Module MemoryEntry.

Record t : Type := mk {
  id : string;
  timestamp : DateValue;
  query : string;
  response : string;
  relevantChunks : list string;
  feedback : option Feedback;
  context : option ProjectContext
}.

End MemoryEntry.

(** [memoryFile] is the content of memory.json, when the file exists.  The
    vector store and the semantic-context cache are not touched by the
    methods below. *)
Record t : Type := mk {
  memoryEntries : Map MemoryEntry.t;
  projectContext : option ProjectContext;
  memoryFile : option (list MemoryEntry.t)
}.

Definition maxMemoryEntries : nat := 1000.

(** [JSON.stringify] of an entry, read back: the timestamp is text. *)
Definition JSON_entry (e : MemoryEntry.t) : MemoryEntry.t :=
  MemoryEntry.mk (MemoryEntry.id e) (Date_toJSON (MemoryEntry.timestamp e))
    (MemoryEntry.query e) (MemoryEntry.response e)
    (MemoryEntry.relevantChunks e) (MemoryEntry.feedback e)
    (MemoryEntry.context e).

Definition loadMemoryEntries (m : t) : t :=
  match memoryFile m with
  | Some entries =>
      mk (fold_left (fun es entry => Map_set (MemoryEntry.id entry) entry es)
            entries (memoryEntries m))
         (projectContext m) (memoryFile m)
  | None => m
  end.

(** [new ContextManager(workspacePath, vectorStore)], given the content of
    memory.json and the outcome of the project scan. *)
Definition constructor (onDisk : option (list MemoryEntry.t))
  (scanned : option ProjectContext) : t :=
  let m := loadMemoryEntries (mk [] None onDisk) in
  mk (memoryEntries m) scanned (memoryFile m).

(** The instant a timestamp stands for. *)
Definition epoch (d : DateValue) : Z :=
  match d with
  | DateObject ms => ms
  | IsoString ms => ms
  end.

(** Only a [Date] has a [getTime] method. *)
Definition has_getTime (e : MemoryEntry.t) : bool :=
  match MemoryEntry.timestamp e with
  | DateObject _ => true
  | IsoString _ => false
  end.

(** [compareFn(a, b) < 0] for
    [(a, b) => b.timestamp.getTime() - a.timestamp.getTime()] *)
Definition newer (a b : MemoryEntry.t) : bool :=
  (epoch (MemoryEntry.timestamp b) <? epoch (MemoryEntry.timestamp a))%Z.

(** Sorting two or more values applies [compareFn] to each of them, and
    [getTime] of a timestamp that is text is a [TypeError]. *)
Definition saveMemoryEntries (m : t) : Outcome t :=
  let values := Map_values (memoryEntries m) in
  if (2 <=? List.length values)%nat && negb (forallb has_getTime values)
  then Thrown (Error "timestamp.getTime is not a function")
  else
    let entries :=
      Array_slice0 maxMemoryEntries (Array_sort newer values) in
    Returned (mk (memoryEntries m) (projectContext m)
                 (Some (map JSON_entry entries))).

(** [nanoid()] and [new Date()] are the first two arguments.  The second
    component is the manager after the call, also when the call throws. *)
Definition recordMemoryEntry (freshId : string) (now : Z)
  (query response : string) (relevantChunks : list string)
  (feedback : option Feedback) (m : t) : Outcome MemoryEntry.t * t :=
  let entry :=
    MemoryEntry.mk freshId (DateObject now) query response relevantChunks
      feedback (projectContext m) in
  let m1 :=
    mk (Map_set (MemoryEntry.id entry) entry (memoryEntries m))
       (projectContext m) (memoryFile m) in
  match saveMemoryEntries m1 with
  | Returned m2 => (Returned entry, m2)
  | Thrown e => (Thrown e, m1)
  end.

Definition updateMemoryFeedback (entryId : string) (fb : Feedback) (m : t)
  : Outcome unit * t :=
  match Map_get entryId (memoryEntries m) with
  | Some entry =>
      let entry' :=
        MemoryEntry.mk (MemoryEntry.id entry) (MemoryEntry.timestamp entry)
          (MemoryEntry.query entry) (MemoryEntry.response entry)
          (MemoryEntry.relevantChunks entry) (Some fb)
          (MemoryEntry.context entry) in
      let m1 :=
        mk (Map_set entryId entry' (memoryEntries m))
           (projectContext m) (memoryFile m) in
      match saveMemoryEntries m1 with
      | Returned m2 => (Returned tt, m2)
      | Thrown e => (Thrown e, m1)
      end
  | None => (Returned tt, m)
  end.

(** The own properties of the table of [calculateChunkImportance], an
    object literal. *)
Definition typeWeights : Map R :=
  [ ("class", 0.8); ("function", 0.7); ("method", 0.6);
    ("module", 0.9); ("variable", 0.4); ("import", 0.3) ]%string.

(** [typeWeights[chunk.type] || importance]: each of the six weights is
    truthy, and so is what the table inherits.  The declared type of
    [chunk.type] admits the six keys only; a string that comes from
    elsewhere is looked up as it is. *)
Definition calculateChunkImportance (c : CodeChunk.t) : JsNumber :=
  let importance := Num 0.5 in
  let importance :=
    match Object_get (CodeChunk.type c) typeWeights with
    | Own w => Num w
    | Inherited => NotNum
    | Undefined => importance
    end in
  let importance :=
    if truthy (CodeChunk.docstring (CodeChunk.metadata c))
    then Value_plus importance 0.1 else importance in
  let lines := (CodeChunk.endLine c - CodeChunk.startLine c + 1)%Z in
  let importance :=
    if (50 <? lines)%Z then Value_plus importance 0.1 else importance in
  let importance :=
    if (100 <? lines)%Z then Value_plus importance 0.1 else importance in
  Math_min importance 1.0.

(** [searchPatternIndicators], on the vector store the manager holds:
    five results per indicator, then the first result of each chunk id. *)
Definition collectIndicators (indicators : list string)
  (s : MemoryVectorStore.t)
  : list VectorSearchResult.t * MemoryVectorStore.t :=
  fold_left
    (fun '(results, st) indicator =>
       let '(searchResults, st') := MemoryVectorStore.search indicator 5 st in
       (results ++ searchResults, st'))
    indicators ([], s).

(** [results.filter(r => ...)] with the set [seen]. *)
Fixpoint deduplicate (results : list VectorSearchResult.t)
  (seen : list string) : list VectorSearchResult.t :=
  match results with
  | [] => []
  | r :: rest =>
      let id := CodeChunk.id (VectorSearchResult.chunk r) in
      if Set_has id seen then deduplicate rest seen
      else r :: deduplicate rest (Set_add id seen)
  end.

Definition searchPatternIndicators (indicators : list string)
  (s : MemoryVectorStore.t)
  : list VectorSearchResult.t * MemoryVectorStore.t :=
  let '(results, s') := collectIndicators indicators s in
  (deduplicate results [], s').

(** The score [findRelatedMemories] gives an entry.  A [split] never returns
    an empty array, so neither set is empty. *)
Definition memoryScore (queryWords : list string) (entry : MemoryEntry.t)
  : R :=
  let entryWords :=
    Set_from (split_ws (toLowerCase (MemoryEntry.query entry))) in
  let intersection :=
    Set_from (filter (fun x => Set_has x entryWords) queryWords) in
  INR (List.length intersection)
  / INR (Nat.max (List.length queryWords) (List.length entryWords)).

Definition findRelatedMemories (query : string) (maxResults : nat) (m : t)
  : list MemoryEntry.t :=
  let queryWords := Set_from (split_ws (toLowerCase query)) in
  let scored :=
    map (fun entry => (entry, memoryScore queryWords entry))
        (Map_values (memoryEntries m)) in
  map fst
    (filter (fun item => Rltb 0.2 (snd item))
       (Array_slice0 maxResults
          (Array_sort (fun a b => Rltb (snd b) (snd a)) scored))).

Definition commonWords : list string :=
  [ "var"; "let"; "const"; "function"; "class"; "import"; "export";
    "return"; "if"; "else"; "for"; "while" ]%string.

(** A match of [/\b[a-zA-Z_][a-zA-Z0-9_]{2,}\b/g] is a maximal run of [\w]
    code units that has three or more of them and does not start with a
    digit: the first [\b] puts the start of a match at the start of a run,
    the quantifier is greedy, and the last [\b] holds at the end of the run
    only. *)
Definition is_identifier (w : string) : bool :=
  match w with
  | EmptyString => false
  | String c _ => negb (is_digit c) && (3 <=? String.length w)%nat
  end.

Definition match_identifiers (content : string) : list string :=
  filter is_identifier (word_runs content).

Definition extractKeywords (c : CodeChunk.t) : list string :=
  let keywords := [CodeChunk.name c; CodeChunk.type c; CodeChunk.language c] in
  let matches := match_identifiers (CodeChunk.content c) in
  let uniqueIdentifiers :=
    Array_slice0 10
      (filter (fun word => negb (Set_has (toLowerCase word) commonWords))
              (Set_from matches)) in
  keywords ++ uniqueIdentifiers.

End ContextManager.

(* ================================================================== *)
(** * ArchitectureAnalyzer (src/core/architectureAnalyzer.ts)         *)
(* ================================================================== *)

Module ArchitectureAnalyzer.

(** [getAllChunks]: one search for ['*'] with [k = 10000]. *)
Definition getAllChunks (s : MemoryVectorStore.t)
  : list CodeChunk.t * MemoryVectorStore.t :=
  let '(results, s') := MemoryVectorStore.search "*" 10000 s in
  (map VectorSearchResult.chunk results, s').

End ArchitectureAnalyzer.

(* ================================================================== *)
(** * CodeIndexer (src/indexer/indexer.ts, src/indexer/parser.ts)     *)
(* ================================================================== *)

Module CodeIndexer.

Definition extractImportedName (importPath : string) : string :=
  let parts := split_char "/" importPath in
  let lastPart := last parts EmptyString in
  remove_quotes lastPart.

(** [chunk.metadata.dependencies = dependencies] *)
Definition withDependencies (dependencies : list string) (c : CodeChunk.t)
  : CodeChunk.t :=
  let m := CodeChunk.metadata c in
  CodeChunk.mk (CodeChunk.id c) (CodeChunk.filepath c) (CodeChunk.content c)
    (CodeChunk.type c) (CodeChunk.name c) (CodeChunk.startLine c)
    (CodeChunk.endLine c) (CodeChunk.language c) (CodeChunk.parentId c)
    (CodeChunk.mkMetadata (CodeChunk.signature m) (CodeChunk.docstring m)
       (Some dependencies) (CodeChunk.complexity m)
       (CodeChunk.lastModified m)).

(** The inner loop of [updateDependencies]. *)
Definition dependenciesOf (importChunks : list CodeChunk.t)
  (chunk : CodeChunk.t) : list string :=
  map CodeChunk.name
    (filter
       (fun importChunk =>
          includes (CodeChunk.content chunk)
                   (extractImportedName (CodeChunk.name importChunk)))
       importChunks).

Definition updateDependencies (chunks : list CodeChunk.t)
  (s : MemoryVectorStore.t) : MemoryVectorStore.t :=
  let importChunks :=
    filter (fun chunk => String.eqb (CodeChunk.type chunk) "import") chunks in
  fold_left
    (fun st chunk =>
       if String.eqb (CodeChunk.type chunk) "function"
          || String.eqb (CodeChunk.type chunk) "class"
       then
         let dependencies := dependenciesOf importChunks chunk in
         if (0 <? List.length dependencies)%nat
         then MemoryVectorStore.updateChunk
                (withDependencies dependencies chunk) st
         else st
       else st)
    chunks s.

(** [indexFile], given whether the path is ignored and the chunks
    [parseFile] returns for the file. *)
Definition indexFile (ignored : bool) (parsed : list CodeChunk.t)
  (s : MemoryVectorStore.t) : MemoryVectorStore.t :=
  if ignored then s
  else updateDependencies parsed (MemoryVectorStore.addChunks parsed s).

(** [updateFile] re-indexes the file. *)
Definition updateFile (ignored : bool) (parsed : list CodeChunk.t)
  (s : MemoryVectorStore.t) : MemoryVectorStore.t :=
  indexFile ignored parsed s.

(** The loop of [findFunctionEnd] over the lines from [i] on. *)
Fixpoint scanBraces (lines : list string) (i : nat) (braceCount : Z)
  (started : bool) : option nat :=
  match lines with
  | [] => None
  | line :: rest =>
      let opens := includes line "{" in
      let started' := opens || started in
      let braceCount' :=
        ((if opens then braceCount + Z.of_nat (count_literal "{" line)
          else braceCount)
         - Z.of_nat (count_literal "}" line))%Z in
      if started' && (braceCount' =? 0)%Z then Some i
      else scanBraces rest (S i) braceCount' started'
  end.

Definition findFunctionEnd (lines : list string) (startLine : nat) : Z :=
  match scanBraces (skipn startLine lines) startLine 0%Z false with
  | Some i => Z.of_nat i
  | None => (Z.of_nat (List.length lines) - 1)%Z
  end.

End CodeIndexer.

(* ================================================================== *)
(** * Vocabulary of the statements                                    *)
(* ================================================================== *)

Module Spec.

Import StoreApi.
Local Open Scope R_scope.

(** A vector of [dimension] numbers that has Euclidean norm 1 or is zero
    everywhere. *)
Definition EmbeddingOK (v : list R) : Prop :=
  List.length v = EmbeddingGenerator.dimension
  /\ (EmbeddingGenerator.magnitude v = 1 \/ Forall (fun x => x = 0) v).

(** Every stored embedding is well formed. *)
Definition StoreOK (s : MemoryVectorStore.t) : Prop :=
  Forall (fun sc => EmbeddingOK (MemoryVectorStore.embedding sc))
         (Map_values (MemoryVectorStore.chunks s)).

(** The store after a call; a call that throws leaves it as it was. *)
Definition after (op : Operation) (s : MemoryVectorStore.t)
  : MemoryVectorStore.t :=
  match MemoryVectorStore.call op s with
  | Returned (_, s') => s'
  | Thrown _ => s
  end.

Definition run (ops : list Operation) (s : MemoryVectorStore.t)
  : MemoryVectorStore.t :=
  fold_left (fun st op => after op st) ops s.

(** The sum of the counts of a histogram; a value that is no count adds
    nothing. *)
Definition counted (cell : StoreApi.Cell) : nat :=
  match cell with
  | StoreApi.Count n => n
  | StoreApi.Text => O
  end.

Definition total (histogram : Map StoreApi.Cell) : nat :=
  fold_right Nat.add O (map counted (Map_values histogram)).

(** The number of keys that are not names every object inherits. *)
Definition plainNames (keys : list string) : nat :=
  List.length (filter (fun key => negb (inherited key)) keys).

(** A histogram as [increment] builds them from [{}]: a count under the
    keys that are not inherited names, text under those that are. *)
Definition HistogramOK (histogram : Map StoreApi.Cell) : Prop :=
  forall key cell,
    Map_get key histogram = Some cell ->
    match cell with
    | StoreApi.Count _ => inherited key = false
    | StoreApi.Text => inherited key = true
    end.

(** The types and the languages of the metadata a ChromaDB client
    lists. *)
Definition metadataTypes (metadatas : list (option (string * string)))
  : list string :=
  flat_map (fun metadata =>
              match metadata with
              | Some (type, _) => [type]
              | None => []
              end) metadatas.

Definition metadataLanguages (metadatas : list (option (string * string)))
  : list string :=
  flat_map (fun metadata =>
              match metadata with
              | Some (_, language) => [language]
              | None => []
              end) metadatas.

(** The importance formula in the words of the specification. *)
Definition typeWeight (type : string) : R :=
  if String.eqb type "module" then 0.9
  else if String.eqb type "class" then 0.8
  else if String.eqb type "function" then 0.7
  else if String.eqb type "method" then 0.6
  else if String.eqb type "variable" then 0.4
  else if String.eqb type "import" then 0.3
  else 0.5.

Definition spannedLines (c : CodeChunk.t) : Z :=
  (CodeChunk.endLine c - CodeChunk.startLine c + 1)%Z.

Definition importanceFormula (c : CodeChunk.t) : R :=
  Rmin
    (typeWeight (CodeChunk.type c)
     + (if truthy (CodeChunk.docstring (CodeChunk.metadata c))
        then 0.1 else 0)
     + (if (50 <? spannedLines c)%Z then 0.1 else 0)
     + (if (100 <? spannedLines c)%Z then 0.1 else 0))
    1.

(** One call of [recordMemoryEntry] with what the environment supplies. *)
Record Recording : Type := mkRecording {
  rec_id : string;
  rec_now : Z;
  rec_query : string;
  rec_response : string;
  rec_chunks : list string;
  rec_feedback : option ContextManager.Feedback
}.

Definition record (m : ContextManager.t) (r : Recording) : ContextManager.t :=
  snd (ContextManager.recordMemoryEntry (rec_id r) (rec_now r) (rec_query r)
         (rec_response r) (rec_chunks r) (rec_feedback r) m).

Definition recordAll (rs : list Recording) (m : ContextManager.t)
  : ContextManager.t :=
  fold_left record rs m.

(** What the calls of a run of recordings complete with, one after the
    other. *)
Fixpoint outcomes (rs : list Recording) (m : ContextManager.t)
  : list (Outcome ContextManager.MemoryEntry.t) :=
  match rs with
  | [] => []
  | r :: rest =>
      fst (ContextManager.recordMemoryEntry (rec_id r) (rec_now r)
             (rec_query r) (rec_response r) (rec_chunks r) (rec_feedback r) m)
      :: outcomes rest (record m r)
  end.

(** Newest first: no entry is older than one that follows it. *)
Fixpoint newestFirst (l : list ContextManager.MemoryEntry.t) : Prop :=
  match l with
  | [] => True
  | e :: rest =>
      Forall (fun e' =>
                (ContextManager.epoch (ContextManager.MemoryEntry.timestamp e')
                 <= ContextManager.epoch
                      (ContextManager.MemoryEntry.timestamp e))%Z) rest
      /\ newestFirst rest
  end.

(** Every entry held in memory carries a [Date]. *)
Definition datesInMemory (m : ContextManager.t) : Prop :=
  forallb ContextManager.has_getTime
    (Map_values (ContextManager.memoryEntries m)) = true.

(** Every entry is stored under the id of its chunk, and no key occurs
    twice. *)
Definition StoreKeyed (s : MemoryVectorStore.t) : Prop :=
  NoDup (Map_keys (MemoryVectorStore.chunks s))
  /\ Forall (fun entry =>
               CodeChunk.id (MemoryVectorStore.chunk (snd entry)) = fst entry)
            (MemoryVectorStore.chunks s).

(** Scores in ascending order: no result has a higher score than one that
    follows it. *)
Fixpoint ascending (l : list VectorSearchResult.t) : Prop :=
  match l with
  | [] => True
  | r :: rest =>
      Forall (fun r' => VectorSearchResult.score r
                        <= VectorSearchResult.score r') rest
      /\ ascending rest
  end.

(** [compareFn(a, b) < 0] for [(a, b) => a.score - b.score] *)
Definition byScore (a b : VectorSearchResult.t) : bool :=
  Rltb (VectorSearchResult.score a) (VectorSearchResult.score b).

Definition hasScore (v : R) (r : VectorSearchResult.t) : bool :=
  if Req_dec_T (VectorSearchResult.score r) v then true else false.

(** No component is negative. *)
Definition NonNegative (v : list R) : Prop := Forall (fun x => 0 <= x) v.

Definition StoreNonNegative (s : MemoryVectorStore.t) : Prop :=
  Forall (fun sc => NonNegative (MemoryVectorStore.embedding sc))
         (Map_values (MemoryVectorStore.chunks s)).

(** The tokens are pairwise distinct and carry the indices 0, 1, 2, ... in
    the order of their insertion. *)
Definition VocabularyOK (v : Map nat) : Prop :=
  Map_values v = seq 0 (List.length v) /\ NoDup (Map_keys v).

Definition sumOf (l : list R) : R := fold_right Rplus 0 l.

(** A chunk whose [lastModified], if any, is not a [Date] object. *)
Definition plain (c : CodeChunk.t) : Prop :=
  match CodeChunk.lastModified (CodeChunk.metadata c) with
  | Some (DateObject _) => False
  | _ => True
  end.

(** The operations that write the snapshot. *)
Definition writes (op : Operation) : bool :=
  match op with
  | AddChunks _ | UpdateChunk _ | DeleteChunks _ => true
  | _ => false
  end.

(** The same chunks, and the same snapshot on disk. *)
Definition StoreUnchanged (s s' : MemoryVectorStore.t) : Prop :=
  MemoryVectorStore.chunks s' = MemoryVectorStore.chunks s
  /\ MemoryVectorStore.file s' = MemoryVectorStore.file s.

(** The number of opening (closing) braces in a run of lines. *)
Definition bracesIn (brace : string) (lines : list string) : Z :=
  fold_right (fun line n => (Z.of_nat (count_literal brace line) + n)%Z)
             0%Z lines.

(** The generator [g'] has what [g] had, and more: the documents of [g]
    come first in its list, and every token of [g] has kept its index. *)
Definition CorpusExtends (g g' : EmbeddingGenerator.t) : Prop :=
  (exists added,
      EmbeddingGenerator.documents g'
      = EmbeddingGenerator.documents g ++ added)
  /\ (forall token i,
         Map_get token (EmbeddingGenerator.vocabulary g) = Some i ->
         Map_get token (EmbeddingGenerator.vocabulary g') = Some i).

(** A code unit a collection name may hold: [a-z0-9_]. *)
Definition collectionChar (c : ascii) : bool :=
  let n := code c in
  ((48 <=? n) && (n <=? 57)) || ((97 <=? n) && (n <=? 122)) || (n =? 95).

(** Made of [\w] code units only. *)
Definition wordOnly (w : string) : bool :=
  forallb is_word (list_ascii_of_string w).

(** In descending order of [f]: no element has a lower value than one
    that follows it. *)
Fixpoint descendingBy {A : Type} (f : A -> R) (l : list A) : Prop :=
  match l with
  | [] => True
  | x :: rest => Forall (fun y => f y <= f x) rest /\ descendingBy f rest
  end.

(** The chunk the store holds for a chunk of a parsed file once the file
    is indexed: a function or a class that uses imports of the file has
    them as its dependencies. *)
Definition indexed (parsed : list CodeChunk.t) (c : CodeChunk.t)
  : CodeChunk.t :=
  let imports :=
    filter (fun chunk => String.eqb (CodeChunk.type chunk) "import") parsed in
  let used := CodeIndexer.dependenciesOf imports c in
  if (String.eqb (CodeChunk.type c) "function"
      || String.eqb (CodeChunk.type c) "class")
     && negb (Nat.eqb (List.length used) 0)
  then CodeIndexer.withDependencies used c
  else c.

(** The lines [startLine] to [startLine + n] hold an opening brace, and as
    many closing braces as opening ones. *)
Definition bracesClosed (lines : list string) (startLine n : nat) : bool :=
  let block := firstn (S n) (skipn startLine lines) in
  existsb (fun line => includes line "{") block
  && (bracesIn "{" block =? bracesIn "}" block)%Z.

(** A [\w] code unit that [toLowerCase] leaves as it is. *)
Definition lowerWord (c : ascii) : bool :=
  is_word c && Ascii.eqb (lower_char c) c.

End Spec.

(* ================================================================== *)
(** * Definitions the statements and proofs share                     *)
(* ================================================================== *)

(** The entry a recording creates on a manager whose project context is
    [ctx]. *)
Definition entryOf (ctx : option ContextManager.ProjectContext)
  (r : Spec.Recording) : ContextManager.MemoryEntry.t :=
  ContextManager.MemoryEntry.mk (Spec.rec_id r) (DateObject (Spec.rec_now r))
    (Spec.rec_query r) (Spec.rec_response r) (Spec.rec_chunks r)
    (Spec.rec_feedback r) ctx.

(** What a store reads back from the snapshot it has just written. *)
Definition reload (s : MemoryVectorStore.t) : MemoryVectorStore.t :=
  MemoryVectorStore.constructor
    (MemoryVectorStore.file (MemoryVectorStore.saveToDisk s)).

(** The candidates [search] ranks, for a query embedding. *)
Definition candidates (queryEmbedding : list R)
  (chunks : Map MemoryVectorStore.StoredChunk)
  : list VectorSearchResult.t :=
  map (fun '(_, storedChunk) =>
         VectorSearchResult.mk (MemoryVectorStore.chunk storedChunk)
           (1 - MemoryVectorStore.cosineSimilarity queryEmbedding
                  (MemoryVectorStore.embedding storedChunk))%R)
      chunks.

(** The three sums [cosineSimilarity] accumulates, over the pairs of
    components it reads. *)
Fixpoint dotOf (ps : list (R * R)) : R :=
  match ps with
  | [] => 0%R
  | (x, y) :: ps' => (x * y + dotOf ps')%R
  end.

Fixpoint leftOf (ps : list (R * R)) : R :=
  match ps with
  | [] => 0%R
  | (x, _) :: ps' => (x * x + leftOf ps')%R
  end.

Fixpoint rightOf (ps : list (R * R)) : R :=
  match ps with
  | [] => 0%R
  | (_, y) :: ps' => (y * y + rightOf ps')%R
  end.

(** No string occurs twice. *)
Fixpoint distinctb (l : list string) : bool :=
  match l with
  | [] => true
  | x :: rest => negb (existsb (String.eqb x) rest) && distinctb rest
  end.

(** What the loop of [findFunctionEnd] tests after [S m] lines of [rest],
    when it has come to [rest] with the counter [b] and the flag
    [started]. *)
Definition bracesSeen (rest : list string) (b : Z) (started : bool) (m : nat)
  : bool :=
  (started || existsb (fun line => includes line "{") (firstn (S m) rest))
  && (b + Spec.bracesIn "{" (firstn (S m) rest)
      - Spec.bracesIn "}" (firstn (S m) rest) =? 0)%Z.

(** One round of the counting loop of [computeTF]. *)
Definition countToken (token : string) (tf : Map nat) : Map nat :=
  Map_set token
    (match Map_get token tf with Some n => n | None => O end + 1)%nat tf.

(** ** Sample inputs *)

(** A chunk of a document whose language id is [language], with [type]
    for its type. *)
Definition chunkOf (type language : string) : CodeChunk.t :=
  CodeChunk.mk "a" "/src/auth.ts" "function login(user, pass) { }"
    type "login" 0 0 language None
    (CodeChunk.mkMetadata None None None None None).

(** A chunk as the indexer produces them. *)
Definition loginChunk : CodeChunk.t :=
  CodeChunk.mk "a" "/src/auth.ts" "function login(user, pass) { }"
    "function" "login" 0 0 "typescript" None
    (CodeChunk.mkMetadata None None None None None).

(** A chunk as [createChunk] of the indexer makes them: [lastModified] is
    the [Date] of its creation. *)
Definition datedChunk : CodeChunk.t :=
  CodeChunk.mk "a" "/src/auth.ts" "function login(user, pass) { }"
    "function" "login" 0 0 "typescript" None
    (CodeChunk.mkMetadata None None None None
       (Some (DateObject 1700000000000))).

(** Two chunks that differ in their content only; every word of the
    second one's text occurs in the first one's text. *)
Definition otherChunk : CodeChunk.t :=
  CodeChunk.mk "d" "m" "x" "module" "m" 0 0 "c" None
    (CodeChunk.mkMetadata None None None None None).

Definition bareChunk : CodeChunk.t :=
  CodeChunk.mk "c" "m" "" "module" "m" 0 0 "c" None
    (CodeChunk.mkMetadata None None None None None).

Definition twoChunkStore : MemoryVectorStore.t :=
  MemoryVectorStore.addChunks [otherChunk; bareChunk]
    (MemoryVectorStore.constructor None).

(** Chunks that differ in their id and their content only. *)
Definition wordsChunk (id content : string) : CodeChunk.t :=
  CodeChunk.mk id "m" content "module" "m" 0 0 "c" None
    (CodeChunk.mkMetadata None None None None None).

(** A store filled by two calls of [addChunks].  When the first call embeds
    the chunk [c1], every document has the word [bb] and one of the two has
    the word [aa]; after the second call, and with the query, more
    documents have [aa] than have [bb]. *)
Definition driftStore : MemoryVectorStore.t :=
  MemoryVectorStore.addChunks
    [wordsChunk "c2" "bb"; wordsChunk "y1" "aa"; wordsChunk "y2" "aa";
     wordsChunk "y3" "aa"]
    (MemoryVectorStore.addChunks
       [wordsChunk "c1" "aa bb"; wordsChunk "x" "bb"]
       (MemoryVectorStore.constructor None)).

(** A store of two chunks, after a search with the text of the first one:
    half of the documents have the word [zz], as when the chunks were
    added. *)
Definition steadyStore : MemoryVectorStore.t :=
  snd (MemoryVectorStore.search
         (MemoryVectorStore.createChunkText (wordsChunk "d" "")) 1
         (MemoryVectorStore.addChunks
            [wordsChunk "d" ""; wordsChunk "c" "zz"]
            (MemoryVectorStore.constructor None))).

(** The store after the indexer has added one chunk to an empty store. *)
Definition loginStore : MemoryVectorStore.t :=
  MemoryVectorStore.addChunks [loginChunk] (MemoryVectorStore.constructor None).

(** The [n]-th of a run of recordings: the id is [n] in decimal and the
    clock reads [n] milliseconds. *)
Definition sampleRecording (n : nat) : Spec.Recording :=
  Spec.mkRecording
    (DecimalString.NilEmpty.string_of_uint (Nat.to_uint n))
    (Z.of_nat n) "How does login work?"%string
    "It checks the password."%string ["a"%string] None.

Definition sampleBatch : list Spec.Recording :=
  map sampleRecording (seq 0 1001).

(** The 1,001 recordings of a later session. *)
Definition laterBatch : list Spec.Recording :=
  map sampleRecording (seq 1 1001).

(** A run of 1,001 recordings of which the first two are made within the
    same millisecond. *)
Definition tiedRecording (n : nat) : Spec.Recording :=
  Spec.mkRecording
    (DecimalString.NilEmpty.string_of_uint (Nat.to_uint n))
    (Z.of_nat (n - 1)) "How does login work?"%string
    "It checks the password."%string ["a"%string] None.

Definition tiedBatch : list Spec.Recording :=
  map tiedRecording (seq 0 1001).

(** ** Tactics *)

(** Case analysis on the comparisons of a chunk type with the table. *)
Ltac split_on_type :=
  repeat match goal with
         | |- context [String.eqb ?t ?lit] =>
             is_var t;
             let E := fresh "E" in
             destruct (String.eqb t lit) eqn:E;
             [ apply String.eqb_eq in E; subst t; simpl | ]
         end.

(** [Math.min] of two known numbers. *)
Ltac settle_Rmin :=
  unfold Rmin;
  repeat match goal with
         | |- context [Rle_dec ?a ?b] => destruct (Rle_dec a b)
         end;
  try lra.

(** A component that is a product with [ln (n / n)] or with 0. *)
Ltac settle_zero_component :=
  try reflexivity;
  try (rewrite Rdiv_diag by (apply not_0_INR; discriminate);
       rewrite ln_1);
  ring.

(* ================================================================== *)
(** * Facts about the runtime                                         *)
(* ================================================================== *)

Section MapFacts.
Context {V : Type}.

Lemma Map_get_set_same (k : string) (v : V) (m : Map V) :
  Map_get k (Map_set k v m) = Some v.
Proof.
  induction m as [|[k' v'] m IH]; simpl.
  - now rewrite String.eqb_refl.
  - destruct (String.eqb k k') eqn:E; simpl; rewrite ?E, ?String.eqb_refl; auto.
Qed.

Lemma Map_get_set_other (k k0 : string) (v : V) (m : Map V) :
  k0 <> k -> Map_get k0 (Map_set k v m) = Map_get k0 m.
Proof.
  intros Hne. induction m as [|[k' v'] m IH]; simpl.
  - destruct (String.eqb k0 k) eqn:E; auto.
    apply String.eqb_eq in E. contradiction.
  - destruct (String.eqb k k') eqn:E; simpl.
    + apply String.eqb_eq in E. subst k'.
      destruct (String.eqb k0 k) eqn:E'; auto.
      apply String.eqb_eq in E'. contradiction.
    + now rewrite IH.
Qed.

Lemma Map_set_values (k : string) (v : V) (m : Map V) (P : V -> Prop) :
  P v -> Forall P (Map_values m) -> Forall P (Map_values (Map_set k v m)).
Proof.
  intros Hv. unfold Map_values.
  induction m as [|[k' v'] m IH]; simpl; intros H.
  - constructor; auto.
  - inversion H; subst. destruct (String.eqb k k'); simpl; constructor; auto.
Qed.

Lemma Map_delete_values (k : string) (m : Map V) (P : V -> Prop) :
  Forall P (Map_values m) -> Forall P (Map_values (Map_delete k m)).
Proof.
  unfold Map_values.
  induction m as [|[k' v'] m IH]; simpl; intros H; auto.
  inversion H; subst. destruct (String.eqb k k'); simpl; auto.
Qed.

Lemma Map_set_absent (k : string) (v : V) (m : Map V) :
  Map_get k m = None -> Map_set k v m = m ++ [(k, v)].
Proof.
  induction m as [|[k' v'] m IH]; simpl; auto.
  destruct (String.eqb k k'); [discriminate|].
  intros H. now rewrite IH.
Qed.

Lemma Map_get_None_keys (k : string) (m : Map V) :
  Map_get k m = None <-> ~ In k (Map_keys m).
Proof.
  unfold Map_keys. induction m as [|[k' v'] m IH]; simpl.
  - tauto.
  - destruct (String.eqb k k') eqn:E.
    + apply String.eqb_eq in E. subst. split; [discriminate|tauto].
    + apply String.eqb_neq in E. rewrite IH. split.
      * intros H [H1|H1]; [congruence|tauto].
      * tauto.
Qed.

End MapFacts.

Lemma Array_slice0_In {A : Type} (x : A) (k : nat) (a : list A) :
  In x (Array_slice0 k a) -> In x a.
Proof.
  unfold Array_slice0. intros H.
  rewrite <- (firstn_skipn k a). apply in_or_app. now left.
Qed.

Section SortFacts.
Context {A : Type} (precedes : A -> A -> bool).

Lemma sort_insert_perm (x : A) (l : list A) :
  Permutation (sort_insert precedes x l) (x :: l).
Proof.
  induction l as [|y l IH]; simpl; auto.
  destruct (precedes y x); auto.
  rewrite IH. apply perm_swap.
Qed.

Lemma Array_sort_perm (l : list A) : Permutation (Array_sort precedes l) l.
Proof.
  induction l as [|x l IH]; simpl; auto.
  rewrite sort_insert_perm. now constructor.
Qed.

Lemma Array_sort_length (l : list A) :
  List.length (Array_sort precedes l) = List.length l.
Proof. apply Permutation_length, Array_sort_perm. Qed.

Lemma Array_sort_In (x : A) (l : list A) :
  In x (Array_sort precedes l) <-> In x l.
Proof.
  split; apply Permutation_in;
    [apply Array_sort_perm | apply Permutation_sym, Array_sort_perm].
Qed.

End SortFacts.

(** ** The runtime on small inputs *)

Example split_ws_keeps_the_empty_ends :
  split_ws " a  b " = [""; "a"; "b"; ""]%string.
Proof. reflexivity. Qed.

Example tokenize_words_then_bigrams :
  EmbeddingGenerator.tokenize "Hello, World! foo_bar  x"
  = ["hello"; "world"; "foo_bar"; "x";
     "hello_world"; "world_foo_bar"; "foo_bar_x"]%string.
Proof. reflexivity. Qed.

Example basename_of_a_path : basename "/src/auth.ts" = "auth.ts"%string.
Proof. reflexivity. Qed.

Example literal_matches_do_not_overlap :
  count_literal "::" "a::::b:::c" = 3
  /\ count_enclosed "{" "}" "a } { b } c }" = 1
  /\ count_enclosed "(" ")" ") (" = 0.
Proof. repeat split; reflexivity. Qed.

Example simpleHash_wraps_to_32_bits :
  EmbeddingGenerator.simpleHash "hello world this is a test"
  = (-1104434559)%Z.
Proof. reflexivity. Qed.

Example createChunkText_of_loginChunk :
  MemoryVectorStore.createChunkText loginChunk
  = String.concat newline
      ["Type: function"; "Name: login"; "Language: typescript";
       "File: auth.ts"; "Code:"; "function login(user, pass) { }"]%string.
Proof. reflexivity. Qed.

Example sort_is_stable :
  Array_sort (fun a b => (fst a <? fst b)%nat)
    [(2, "a"); (1, "b"); (2, "c"); (1, "d")]%string
  = [(1, "b"); (1, "d"); (2, "a"); (2, "c")]%string.
Proof. reflexivity. Qed.

(* ================================================================== *)
(** * MemoryVectorStore: search, related chunks, statistics           *)
(* ================================================================== *)

Section StoreFacts.

Import StoreApi.

Lemma search_results_length (q : string) (k : nat) (s : MemoryVectorStore.t) :
  List.length (fst (MemoryVectorStore.search q k s)) <= k.
Proof.
  unfold MemoryVectorStore.search.
  destruct (EmbeddingGenerator.generate _ q) as [qe g]. simpl.
  unfold Array_slice0. rewrite length_firstn. lia.
Qed.

Lemma search_keeps_chunks (q : string) (k : nat) (s : MemoryVectorStore.t) :
  MemoryVectorStore.chunks (snd (MemoryVectorStore.search q k s))
  = MemoryVectorStore.chunks s.
Proof.
  unfold MemoryVectorStore.search.
  now destruct (EmbeddingGenerator.generate _ q) as [qe g].
Qed.

Lemma total_Map_set (key : string) (cell : Cell) (h : Map Cell) :
  Spec.total (Map_set key cell h)
  + match Map_get key h with
    | Some old => Spec.counted old
    | None => 0
    end
  = Spec.total h + Spec.counted cell.
Proof.
  unfold Spec.total, Map_values.
  induction h as [|[k' old] h IH]; simpl.
  - lia.
  - destruct (String.eqb key k') eqn:E; simpl; lia.
Qed.

Lemma HistogramOK_nil : Spec.HistogramOK [].
Proof. intros key cell H. discriminate H. Qed.

Lemma HistogramOK_set (key : string) (cell : Cell) (h : Map Cell) :
  Spec.HistogramOK h ->
  match cell with
  | Count _ => inherited key = false
  | Text => inherited key = true
  end ->
  Spec.HistogramOK (Map_set key cell h).
Proof.
  intros Hh Hcell k c Hget.
  destruct (string_dec k key) as [->|Hne].
  - rewrite Map_get_set_same in Hget. now inversion Hget; subst.
  - rewrite Map_get_set_other in Hget by exact Hne. now apply Hh.
Qed.

(** One round of the loop of [getStats]: the histogram keeps its shape, and
    its counts go up by one unless the key is a name it inherits. *)
Lemma increment_HistogramOK (key : string) (h : Map Cell) :
  Spec.HistogramOK h -> Spec.HistogramOK (MemoryVectorStore.increment key h).
Proof.
  intros Hh. unfold MemoryVectorStore.increment, Object_get.
  destruct (Map_get key h) as [[n|]|] eqn:Hget.
  - apply HistogramOK_set; auto. exact (Hh _ _ Hget).
  - apply HistogramOK_set; auto. exact (Hh _ _ Hget).
  - destruct (inherited key) eqn:Hi.
    + destruct (String.eqb key "__proto__"); auto.
      now apply HistogramOK_set.
    + now apply HistogramOK_set.
Qed.

Lemma total_increment (key : string) (h : Map Cell) :
  Spec.HistogramOK h ->
  Spec.total (MemoryVectorStore.increment key h)
  = Spec.total h + Spec.plainNames [key].
Proof.
  intros Hh. unfold MemoryVectorStore.increment, Object_get, Spec.plainNames.
  cbn [filter].
  destruct (Map_get key h) as [[n|]|] eqn:Hget.
  - pose proof (Hh _ _ Hget) as Hi. cbv beta iota in Hi. rewrite Hi.
    pose proof (total_Map_set key (Count (n + 1)) h) as H.
    rewrite Hget in H. simpl in *. lia.
  - pose proof (Hh _ _ Hget) as Hi. cbv beta iota in Hi. rewrite Hi.
    pose proof (total_Map_set key Text h) as H.
    rewrite Hget in H. simpl in *. lia.
  - destruct (inherited key) eqn:Hi.
    + destruct (String.eqb key "__proto__"); simpl; [lia|].
      pose proof (total_Map_set key Text h) as H.
      rewrite Hget in H. simpl in *. lia.
    + pose proof (total_Map_set key (Count 1) h) as H.
      rewrite Hget in H. simpl in *. lia.
Qed.

Lemma plainNames_cons (key : string) (keys : list string) :
  Spec.plainNames (key :: keys)
  = Spec.plainNames [key] + Spec.plainNames keys.
Proof.
  unfold Spec.plainNames. cbn [filter].
  destruct (negb (inherited key)); reflexivity.
Qed.

Lemma plainNames_app (keys1 keys2 : list string) :
  Spec.plainNames (keys1 ++ keys2)
  = Spec.plainNames keys1 + Spec.plainNames keys2.
Proof.
  unfold Spec.plainNames. now rewrite filter_app, length_app.
Qed.

Lemma increment_fold (keys : list string) (h : Map Cell) :
  Spec.HistogramOK h ->
  let r := fold_left (fun h key => MemoryVectorStore.increment key h) keys h in
  Spec.HistogramOK r
  /\ Spec.total r = Spec.total h + Spec.plainNames keys.
Proof.
  revert h. induction keys as [|key keys IH]; intros h Hh; cbn [fold_left].
  - split; [exact Hh|]. unfold Spec.plainNames. simpl. lia.
  - destruct (IH _ (increment_HistogramOK key h Hh)) as [H1 H2].
    split; [exact H1|].
    cbv zeta in H2. rewrite H2, total_increment by exact Hh.
    rewrite (plainNames_cons key keys). lia.
Qed.

(** The loop of [getStats] runs the two histograms side by side. *)
Lemma getStats_fold (l : Map MemoryVectorStore.StoredChunk) (st : Stats) :
  fold_left
    (fun stats '(_, storedChunk) =>
       let c := MemoryVectorStore.chunk storedChunk in
       mkStats (totalChunks stats)
         (MemoryVectorStore.increment (CodeChunk.type c)
            (chunksByType stats))
         (MemoryVectorStore.increment (CodeChunk.language c)
            (chunksByLanguage stats)))
    l st
  = mkStats (totalChunks st)
      (fold_left (fun h key => MemoryVectorStore.increment key h)
         (map (fun entry =>
                 CodeChunk.type (MemoryVectorStore.chunk (snd entry))) l)
         (chunksByType st))
      (fold_left (fun h key => MemoryVectorStore.increment key h)
         (map (fun entry =>
                 CodeChunk.language (MemoryVectorStore.chunk (snd entry))) l)
         (chunksByLanguage st)).
Proof.
  revert st. induction l as [|[k sc] l IH]; intros st; cbn [fold_left map].
  - now destruct st.
  - rewrite IH. reflexivity.
Qed.

End StoreFacts.

(** C8. On a store that holds no chunk, [search] returns the empty list
    for every query and every [k]; the call completes (it does not throw),
    and the only change is in the embedding generator, which has taken the
    query in. *)
Theorem search_on_empty_store_returns_nothing :
  forall (g : EmbeddingGenerator.t)
         (f : option (list MemoryVectorStore.Item))
         (query : string) (k : nat),
    MemoryVectorStore.call (StoreApi.Search query k)
      (MemoryVectorStore.mk [] g f)
    = Returned
        (StoreApi.Results [],
         MemoryVectorStore.mk []
           (snd (EmbeddingGenerator.generate g query)) f).
Proof.
  intros g f query k.
  unfold MemoryVectorStore.call, MemoryVectorStore.search. simpl.
  unfold Array_slice0. now rewrite firstn_nil.
Qed.

(** C7. For every store, id and [k], the list [getRelatedChunks(id, k)]
    returns holds no result whose chunk id is [id] and has at most [k]
    elements; when [id] is not in the store the list is empty. *)
Theorem getRelatedChunks_excludes_the_chunk_itself :
  forall (s : MemoryVectorStore.t) (chunkId : string) (k : nat),
    let results := fst (MemoryVectorStore.getRelatedChunks chunkId k s) in
    Forall (fun r => CodeChunk.id (VectorSearchResult.chunk r) <> chunkId)
           results
    /\ List.length results <= k
    /\ (Map_get chunkId (MemoryVectorStore.chunks s) = None -> results = []).
Proof.
  intros s chunkId k.
  unfold MemoryVectorStore.getRelatedChunks, MemoryVectorStore.getChunkById.
  destruct (Map_get chunkId (MemoryVectorStore.chunks s)) as [sc|] eqn:Hget;
    simpl.
  - unfold Array_slice0. repeat split.
    + apply Forall_forall. intros r Hr.
      apply (Array_slice0_In r k) in Hr. apply filter_In in Hr. destruct Hr as [_ Hr].
      apply negb_true_iff in Hr. now apply String.eqb_neq in Hr.
    + rewrite length_firstn. lia.
    + discriminate.
  - repeat split; [constructor | lia].
Qed.

(** What [getStats] returns, for every store: the number of entries, and
    two histograms whose counts add up to the number of chunks whose type,
    or language, is not a name every object inherits. *)
Lemma getStats_counts (s : MemoryVectorStore.t) :
  let stats := MemoryVectorStore.getStats s in
  StoreApi.totalChunks stats = Map_size (MemoryVectorStore.chunks s)
  /\ Spec.total (StoreApi.chunksByType stats)
     = Spec.plainNames
         (map (fun entry =>
                 CodeChunk.type (MemoryVectorStore.chunk (snd entry)))
              (MemoryVectorStore.chunks s))
  /\ Spec.total (StoreApi.chunksByLanguage stats)
     = Spec.plainNames
         (map (fun entry =>
                 CodeChunk.language (MemoryVectorStore.chunk (snd entry)))
              (MemoryVectorStore.chunks s)).
Proof.
  unfold MemoryVectorStore.getStats. rewrite getStats_fold.
  cbn [StoreApi.totalChunks StoreApi.chunksByType StoreApi.chunksByLanguage].
  split; [reflexivity|].
  split; now apply increment_fold, HistogramOK_nil.
Qed.

(** C10, at the failing input.  A store holds one chunk, of a document
    whose language id is [__proto__]: [getStats] reports one chunk, and a
    histogram by language that is empty, its counts adding up to 0.  With
    the language id [constructor] the histogram holds a text and no count.
    The histograms are plain objects, and [(rec[key] || 0) + 1] reads what
    they inherit.  On every store the counts of a histogram add up to the
    number of chunks whose key is no inherited name: to [totalChunks] when
    there is none. *)
Theorem getStats_miscounts_inherited_names :
  (let stats :=
     MemoryVectorStore.getStats
       (MemoryVectorStore.addChunks [chunkOf "function" "__proto__"]
          (MemoryVectorStore.constructor None)) in
   StoreApi.totalChunks stats = 1
   /\ StoreApi.chunksByType stats = [("function"%string, StoreApi.Count 1)]
   /\ StoreApi.chunksByLanguage stats = []
   /\ Spec.total (StoreApi.chunksByLanguage stats) = 0)
  /\ StoreApi.chunksByLanguage
       (MemoryVectorStore.getStats
          (MemoryVectorStore.addChunks [chunkOf "function" "constructor"]
             (MemoryVectorStore.constructor None)))
     = [("constructor"%string, StoreApi.Text)]
  /\ (forall s : MemoryVectorStore.t,
        let stats := MemoryVectorStore.getStats s in
        StoreApi.totalChunks stats = Map_size (MemoryVectorStore.chunks s)
        /\ Spec.total (StoreApi.chunksByType stats)
           = Spec.plainNames
               (map (fun entry =>
                       CodeChunk.type (MemoryVectorStore.chunk (snd entry)))
                    (MemoryVectorStore.chunks s))
        /\ Spec.total (StoreApi.chunksByLanguage stats)
           = Spec.plainNames
               (map (fun entry =>
                       CodeChunk.language
                         (MemoryVectorStore.chunk (snd entry)))
                    (MemoryVectorStore.chunks s))).
Proof.
  refine (conj _ (conj _ getStats_counts)).
  - assert (Hc : exists e,
               MemoryVectorStore.chunks
                 (MemoryVectorStore.addChunks [chunkOf "function" "__proto__"]
                    (MemoryVectorStore.constructor None))
               = [("a"%string,
                   MemoryVectorStore.mkStored
                     (chunkOf "function" "__proto__") e)]).
    { eexists. reflexivity. }
    destruct Hc as [e Hc]. unfold MemoryVectorStore.getStats.
    rewrite Hc. cbv zeta. repeat split.
  - assert (Hc : exists e,
               MemoryVectorStore.chunks
                 (MemoryVectorStore.addChunks
                    [chunkOf "function" "constructor"]
                    (MemoryVectorStore.constructor None))
               = [("a"%string,
                   MemoryVectorStore.mkStored
                     (chunkOf "function" "constructor") e)]).
    { eexists. reflexivity. }
    destruct Hc as [e Hc]. unfold MemoryVectorStore.getStats.
    rewrite Hc. reflexivity.
Qed.

(* ================================================================== *)
(** * ContextManager: chunk importance                                *)
(* ================================================================== *)

(** C9, as stated, fails.  The claim gives a chunk whose type is outside
    the table the weight 0.5 and a result between 0 and 1.  For the type
    [constructor] the table, an object literal, yields the function it
    inherits under that name, and the result is [NaN]: no number at all,
    where the formula of the claim gives 0.5. *)
Lemma importance_of_an_inherited_name_is_not_a_number :
  ContextManager.calculateChunkImportance (chunkOf "constructor" "typescript")
  = NaN
  /\ Spec.importanceFormula (chunkOf "constructor" "typescript") = 0.5%R
  /\ forall x : R,
       ContextManager.calculateChunkImportance
         (chunkOf "constructor" "typescript")
       <> Finite x.
Proof.
  refine (conj _ (conj _ _)).
  - reflexivity.
  - unfold Spec.importanceFormula, Spec.typeWeight, Spec.spannedLines.
    cbn. settle_Rmin.
  - intros x H. discriminate H.
Qed.

(** C9, amended.  For a chunk whose type is not one of the twelve names
    every object inherits ([constructor], [toString], [__proto__], ...),
    the importance is the weight of its type (module 0.9, class 0.8,
    function 0.7, method 0.6, variable 0.4, import 0.3, and 0.5 for a type
    outside the table), plus 0.1 when the chunk has a docstring (a
    non-empty one: an empty string counts as none), plus 0.1 when it spans
    more than 50 lines and 0.1 more when it spans more than 100, capped at
    1, and this number lies between 0 and 1.  For a type that is one of the
    twelve names the result is [NaN]. *)
Theorem calculateChunkImportance_follows_the_formula :
  forall c : CodeChunk.t,
    ContextManager.calculateChunkImportance c
    = (if inherited (CodeChunk.type c) then NaN
       else Finite (Spec.importanceFormula c))
    /\ (0 <= Spec.importanceFormula c <= 1)%R.
Proof.
  intros c.
  unfold ContextManager.calculateChunkImportance, Spec.importanceFormula,
    Spec.typeWeight, Spec.spannedLines, ContextManager.typeWeights,
    Object_get, inherited, Set_has, Object_prototype.
  destruct c as [i fp co ty na sl el la pa me]. simpl.
  destruct (truthy (CodeChunk.docstring me));
    destruct (50 <? el - sl + 1)%Z; destruct (100 <? el - sl + 1)%Z;
    split_on_type; simpl;
    (split; [try reflexivity; f_equal|]); settle_Rmin.
Qed.

(* ================================================================== *)
(** * Use before [initialize]                                         *)
(* ================================================================== *)

(** C2, as stated, fails for the in-memory store: on a store that has just
    been constructed, with [initialize] never called, [getStats] completes
    and returns its result. *)
Lemma memory_store_answers_before_initialize :
  MemoryVectorStore.call StoreApi.GetStats (MemoryVectorStore.constructor None)
  = Returned
      (StoreApi.Statistics (StoreApi.mkStats 0 [] []),
       MemoryVectorStore.constructor None)
  /\ MemoryVectorStore.call StoreApi.GetStats
       (MemoryVectorStore.constructor None)
     <> Thrown StoreApi.NotInitialized.
Proof. split; [reflexivity | discriminate]. Qed.

Lemma memory_store_call_returns (op : StoreApi.Operation)
  (s : MemoryVectorStore.t) :
  exists r, MemoryVectorStore.call op s = Returned r.
Proof.
  destruct op as [cs|q k|c k|i k|i|c|ids|]; unfold MemoryVectorStore.call;
    try (eexists; reflexivity).
  destruct (MemoryVectorStore.getRelatedChunks i k s); eauto.
Qed.

(** C2, amended. On a ChromaDB-backed [VectorStore] whose [initialize] has
    not been called, each of the eight operations fails with the error
    'Vector store not initialized', whatever the client would answer.  The
    in-memory store has no such state: each of its operations returns, on
    every store. *)
Theorem chroma_store_refuses_calls_before_initialize :
  forall (Collection : Type)
         (add : list CodeChunk.t -> Collection -> Outcome Collection)
         (query : string -> nat -> Collection
                  -> Outcome (list VectorSearchResult.t))
         (get : string -> Collection -> Outcome (option CodeChunk.t))
         (update : CodeChunk.t -> Collection -> Outcome Collection)
         (delete : list string -> Collection -> Outcome Collection)
         (getAll : Collection
                   -> Outcome (list string
                               * list (option (string * string))))
         (op : StoreApi.Operation) (s : MemoryVectorStore.t),
    ChromaVectorStore.call Collection add query get update delete getAll op
      (ChromaVectorStore.constructor Collection)
    = Thrown StoreApi.NotInitialized
    /\ exists r, MemoryVectorStore.call op s = Returned r.
Proof.
  intros Collection add query get update delete getAll op s. split.
  - destruct op; reflexivity.
  - apply memory_store_call_returns.
Qed.

(* ================================================================== *)
(** * updateChunk and the corpus statistics                           *)
(* ================================================================== *)

Lemma updateVocabulary_keeps_indices (tokens : list string) :
  forall (vocab : Map nat) (token : string) (i : nat),
    Map_get token vocab = Some i ->
    Map_get token (EmbeddingGenerator.updateVocabulary tokens vocab) = Some i.
Proof.
  unfold EmbeddingGenerator.updateVocabulary.
  induction tokens as [|t tokens IH]; intros vocab token i H; simpl; auto.
  apply IH. unfold Map_has.
  destruct (Map_get t vocab) eqn:Ht; auto.
  rewrite Map_get_set_other; auto.
  intros ->. congruence.
Qed.

Lemma generate_documents (g : EmbeddingGenerator.t) (text : string) :
  EmbeddingGenerator.documents (snd (EmbeddingGenerator.generate g text))
  = EmbeddingGenerator.documents g ++ [text].
Proof. reflexivity. Qed.

(** C1, as stated, fails: [updateChunk] on the empty store leaves a
    document in the generator's list, words in its vocabulary and scores in
    its IDF table, none of which were there before. *)
Lemma updateChunk_changes_the_corpus_statistics :
  let s := MemoryVectorStore.constructor None in
  let g := MemoryVectorStore.embeddingGenerator s in
  let g' :=
    MemoryVectorStore.embeddingGenerator
      (MemoryVectorStore.updateChunk loginChunk s) in
  EmbeddingGenerator.documents g = []
  /\ EmbeddingGenerator.documents g'
     = [MemoryVectorStore.createChunkText loginChunk]
  /\ Map_has "login" (EmbeddingGenerator.vocabulary g) = false
  /\ Map_has "login" (EmbeddingGenerator.vocabulary g') = true
  /\ Map_has "login" (EmbeddingGenerator.idfScores g) = false
  /\ Map_has "login" (EmbeddingGenerator.idfScores g') = true.
Proof. vm_compute. repeat split; reflexivity. Qed.

(** C1, amended. [updateChunk] overwrites the entry of the chunk's id and
    no other entry, and it does change the corpus statistics, since the
    embedding is made by [generate]: the chunk's text is appended to the
    document list, the vocabulary gains the tokens of the text that it
    lacked (every known token keeps its index), and the IDF table is
    rebuilt over the whole extended document list. *)
Theorem updateChunk_overwrites_one_entry_and_extends_the_corpus :
  forall (c : CodeChunk.t) (s : MemoryVectorStore.t),
    let s' := MemoryVectorStore.updateChunk c s in
    let g := MemoryVectorStore.embeddingGenerator s in
    let g' := MemoryVectorStore.embeddingGenerator s' in
    let text := MemoryVectorStore.createChunkText c in
    (forall id : string,
        id <> CodeChunk.id c ->
        Map_get id (MemoryVectorStore.chunks s')
        = Map_get id (MemoryVectorStore.chunks s))
    /\ Map_get (CodeChunk.id c) (MemoryVectorStore.chunks s')
       = Some (MemoryVectorStore.mkStored c
                 (EmbeddingGenerator.textToVector g' text))
    /\ EmbeddingGenerator.documents g'
       = EmbeddingGenerator.documents g ++ [text]
    /\ EmbeddingGenerator.vocabulary g'
       = EmbeddingGenerator.updateVocabulary
           (EmbeddingGenerator.tokenize text)
           (EmbeddingGenerator.vocabulary g)
    /\ (forall (token : string) (i : nat),
           Map_get token (EmbeddingGenerator.vocabulary g) = Some i ->
           Map_get token (EmbeddingGenerator.vocabulary g') = Some i)
    /\ EmbeddingGenerator.idfScores g'
       = EmbeddingGenerator.computeIDF
           (EmbeddingGenerator.vocabulary g')
           (EmbeddingGenerator.documents g').
Proof.
  intros c s. cbv zeta.
  unfold MemoryVectorStore.updateChunk, EmbeddingGenerator.generate,
    MemoryVectorStore.saveToDisk, EmbeddingGenerator.learn.
  cbn [MemoryVectorStore.chunks MemoryVectorStore.embeddingGenerator
       EmbeddingGenerator.documents EmbeddingGenerator.vocabulary
       EmbeddingGenerator.idfScores].
  repeat split.
  - intros id Hne. now apply Map_get_set_other.
  - apply Map_get_set_same.
  - intros token i. apply updateVocabulary_keeps_indices.
Qed.

(* ================================================================== *)
(** * ContextManager: the memory ledger                               *)
(* ================================================================== *)

Section LedgerFacts.

Import ContextManager.
Local Open Scope Z_scope.

Lemma newestFirst_insert (x : MemoryEntry.t) (l : list MemoryEntry.t) :
  Spec.newestFirst l -> Spec.newestFirst (sort_insert newer x l).
Proof.
  induction l as [|y l IH]; simpl; intros H.
  - split; [constructor | exact I].
  - destruct H as [Hy Hl]. unfold newer at 1.
    destruct (Z.ltb_spec (epoch (MemoryEntry.timestamp x))
                         (epoch (MemoryEntry.timestamp y))) as [Hlt|Hge].
    + simpl. split; [|now apply IH].
      apply (Permutation_Forall
               (Permutation_sym (sort_insert_perm newer x l))).
      constructor; [lia | exact Hy].
    + simpl. repeat split; auto.
      constructor; [lia|].
      eapply Forall_impl; [|exact Hy]. simpl. intros; lia.
Qed.

Lemma newestFirst_sort (l : list MemoryEntry.t) :
  Spec.newestFirst (Array_sort newer l).
Proof.
  induction l as [|x l IH]; simpl; [exact I|]. now apply newestFirst_insert.
Qed.

Lemma newestFirst_slice (k : nat) (l : list MemoryEntry.t) :
  Spec.newestFirst l -> Spec.newestFirst (Array_slice0 k l).
Proof.
  unfold Array_slice0. revert k.
  induction l as [|x l IH]; intros [|k] H; simpl; auto.
  destruct H as [Hx Hl]. split; [|now apply IH].
  apply Forall_forall. intros e He.
  rewrite Forall_forall in Hx. apply Hx.
  now apply (Array_slice0_In e k l).
Qed.

Lemma newestFirst_JSON (l : list MemoryEntry.t) :
  Spec.newestFirst l -> Spec.newestFirst (map JSON_entry l).
Proof.
  assert (Hstamp : forall e,
             epoch (MemoryEntry.timestamp (JSON_entry e))
             = epoch (MemoryEntry.timestamp e)).
  { intros e. simpl. now destruct (MemoryEntry.timestamp e). }
  induction l as [|x l IH]; simpl; auto.
  intros [Hx Hl]. split; [|now apply IH].
  rewrite Forall_map. eapply Forall_impl; [|exact Hx].
  intros e He. simpl in He |- *.
  destruct (MemoryEntry.timestamp e), (MemoryEntry.timestamp x); exact He.
Qed.

Lemma newestFirst_app (l1 l2 : list MemoryEntry.t) :
  Spec.newestFirst (l1 ++ l2) ->
  forall a b, In a l1 -> In b l2 ->
    epoch (MemoryEntry.timestamp b) <= epoch (MemoryEntry.timestamp a).
Proof.
  induction l1 as [|x l1 IH]; simpl; intros H a b Ha Hb; [contradiction|].
  destruct H as [Hx Hl]. destruct Ha as [->|Ha].
  - rewrite Forall_forall in Hx. apply Hx, in_or_app. now right.
  - now apply IH.
Qed.

Lemma forallb_Map_set {V : Type} (p : V -> bool) (k : string) (v : V)
  (m : Map V) :
  p v = true -> forallb p (Map_values m) = true ->
  forallb p (Map_values (Map_set k v m)) = true.
Proof.
  intros Hv. unfold Map_values.
  induction m as [|[k' v'] m IH]; simpl; intros H.
  - now rewrite Hv.
  - apply andb_true_iff in H. destruct H as [H1 H2].
    destruct (String.eqb k k'); simpl; rewrite ?Hv, ?H1, ?H2; auto.
Qed.

(** One call on a manager whose entries carry dates: it returns, and the
    file holds the first thousand of the entries, newest first. *)
Lemma record_step (m : t) (r : Spec.Recording) :
  Spec.datesInMemory m ->
  let m' := Spec.record m r in
  Spec.datesInMemory m'
  /\ projectContext m' = projectContext m
  /\ memoryEntries m'
     = Map_set (Spec.rec_id r) (entryOf (projectContext m) r)
         (memoryEntries m)
  /\ memoryFile m'
     = Some (map JSON_entry
               (Array_slice0 maxMemoryEntries
                  (Array_sort newer (Map_values (memoryEntries m')))))
  /\ fst (recordMemoryEntry (Spec.rec_id r) (Spec.rec_now r)
            (Spec.rec_query r) (Spec.rec_response r) (Spec.rec_chunks r)
            (Spec.rec_feedback r) m)
     = Returned (entryOf (projectContext m) r).
Proof.
  intros Hd. unfold Spec.record, recordMemoryEntry, saveMemoryEntries.
  cbn [memoryEntries projectContext memoryFile MemoryEntry.id].
  fold (entryOf (projectContext m) r).
  assert (Hall : forallb has_getTime
                   (Map_values
                      (Map_set (Spec.rec_id r) (entryOf (projectContext m) r)
                         (memoryEntries m))) = true).
  { apply forallb_Map_set; [reflexivity | exact Hd]. }
  rewrite Hall, andb_false_r. cbn. repeat split; auto.
Qed.

Lemma recordAll_dates (rs : list Spec.Recording) :
  forall m, Spec.datesInMemory m -> Spec.datesInMemory (Spec.recordAll rs m).
Proof.
  unfold Spec.recordAll.
  induction rs as [|r rs IH]; intros m Hd; simpl; auto.
  apply IH. now apply record_step.
Qed.

Lemma recordAll_context (rs : list Spec.Recording) :
  forall m, Spec.datesInMemory m ->
            projectContext (Spec.recordAll rs m) = projectContext m.
Proof.
  unfold Spec.recordAll.
  induction rs as [|r rs IH]; intros m Hd; simpl; auto.
  rewrite IH by now apply record_step.
  now apply record_step.
Qed.

(** Recordings under ids pairwise distinct and new to the ledger are
    appended to it in the order of the calls. *)
Lemma recordAll_entries (rs : list Spec.Recording) :
  forall m,
    Spec.datesInMemory m ->
    NoDup (map Spec.rec_id rs) ->
    (forall r, In r rs -> Map_get (Spec.rec_id r) (memoryEntries m) = None) ->
    memoryEntries (Spec.recordAll rs m)
    = memoryEntries m
      ++ map (fun r => (Spec.rec_id r, entryOf (projectContext m) r)) rs.
Proof.
  unfold Spec.recordAll.
  induction rs as [|r rs IH]; intros m Hd Hnd Hnew; simpl.
  - now rewrite app_nil_r.
  - inversion Hnd as [|? ? Hnotin Hnd']; subst.
    destruct (record_step m r Hd) as (Hd' & Hctx & Hent & _).
    rewrite IH; auto.
    + rewrite Hent, Hctx, Map_set_absent by (apply Hnew; now left).
      now rewrite <- app_assoc.
    + intros r' Hr'. rewrite Hent, Map_get_set_other.
      * apply Hnew. now right.
      * intros Heq. apply Hnotin. rewrite <- Heq. now apply in_map.
Qed.

End LedgerFacts.

Lemma NoDup_map_same {A B : Type} (f : A -> B) (l : list A) (a b : A) :
  NoDup (map f l) -> In a l -> In b l -> f a = f b -> a = b.
Proof.
  induction l as [|x l IH]; simpl; intros Hnd Ha Hb Hf; [contradiction|].
  inversion Hnd as [|? ? Hx Hl]; subst.
  destruct Ha as [->|Ha], Hb as [->|Hb]; auto.
  - exfalso. apply Hx. rewrite Hf. now apply in_map.
  - exfalso. apply Hx. rewrite <- Hf. now apply in_map.
Qed.

(** X30. On a manager whose in-memory entries carry their timestamp as a
    [Date] (a manager that read no entry back from memory.json), after each
    call of any sequence of [recordMemoryEntry] calls the persisted ledger
    holds at most 1,000 entries, newest first.  After 1,001 recordings
    under fresh ids on a new manager with no ledger file, the persisted
    ledger has exactly 1,000 entries, and the recording that is older than
    all the others is not among them. *)
Theorem ledger_is_capped_and_newest_first :
  forall (m : ContextManager.t) (calls : list Spec.Recording)
         (call : Spec.Recording)
         (scanned : option ContextManager.ProjectContext)
         (batch : list Spec.Recording) (oldest : Spec.Recording),
    Spec.datesInMemory m ->
    List.length batch = 1001 ->
    NoDup (map Spec.rec_id batch) ->
    In oldest batch ->
    (forall r, In r batch -> Spec.rec_id r <> Spec.rec_id oldest ->
               (Spec.rec_now oldest < Spec.rec_now r)%Z) ->
    (exists l,
        ContextManager.memoryFile (Spec.recordAll (calls ++ [call]) m)
        = Some l
        /\ List.length l <= 1000
        /\ Spec.newestFirst l)
    /\ (exists l,
           ContextManager.memoryFile
             (Spec.recordAll batch (ContextManager.constructor None scanned))
           = Some l
           /\ List.length l = 1000
           /\ Spec.newestFirst l
           /\ ~ In (Spec.rec_id oldest)
                   (map ContextManager.MemoryEntry.id l)).
Proof.
  intros m calls call scanned batch oldest Hd Hlen Hnd Hin Hold.
  assert (Hlast : forall m0 rs r,
             Spec.datesInMemory m0 ->
             ContextManager.memoryFile (Spec.recordAll (rs ++ [r]) m0)
             = Some (map ContextManager.JSON_entry
                       (Array_slice0 ContextManager.maxMemoryEntries
                          (Array_sort ContextManager.newer
                             (Map_values
                                (ContextManager.memoryEntries
                                   (Spec.recordAll (rs ++ [r]) m0))))))).
  { intros m0 rs r Hd0. unfold Spec.recordAll. rewrite fold_left_app. simpl.
    apply record_step. now apply recordAll_dates. }
  split.
  - eexists. split; [apply Hlast; exact Hd|]. split.
    + rewrite length_map. unfold Array_slice0. rewrite length_firstn.
      unfold ContextManager.maxMemoryEntries. lia.
    + apply newestFirst_JSON, newestFirst_slice, newestFirst_sort.
  - set (m0 := ContextManager.constructor None scanned).
    assert (Hd0 : Spec.datesInMemory m0) by reflexivity.
    destruct (exists_last (l := batch)) as (rs & r & Hbatch).
    { intros ->. discriminate. }
    set (es := map (entryOf scanned) batch).
    assert (Hvalues :
              Map_values (ContextManager.memoryEntries
                            (Spec.recordAll batch m0)) = es).
    { rewrite recordAll_entries; auto.
      unfold Map_values, es. simpl. rewrite map_map. reflexivity. }
    set (sorted := Array_sort ContextManager.newer es).
    assert (Hperm : Permutation sorted es) by apply Array_sort_perm.
    assert (Hsl : List.length sorted = 1001).
    { unfold sorted. rewrite Array_sort_length. unfold es.
      now rewrite length_map. }
    exists (map ContextManager.JSON_entry
              (Array_slice0 ContextManager.maxMemoryEntries sorted)).
    split; [|split; [|split]].
    + rewrite Hbatch. rewrite Hlast by exact Hd0.
      rewrite <- Hbatch, Hvalues. reflexivity.
    + rewrite length_map. unfold Array_slice0. rewrite length_firstn, Hsl.
      reflexivity.
    + apply newestFirst_JSON, newestFirst_slice, newestFirst_sort.
    + rewrite map_map. simpl. unfold Array_slice0.
      change ContextManager.maxMemoryEntries with 1000.
      intros Hmem. apply in_map_iff in Hmem. destruct Hmem as (e & Hid & He).
      pose proof (firstn_skipn 1000 sorted) as Hsplit.
      assert (Htail : List.length (skipn 1000 sorted) = 1).
      { rewrite length_skipn, Hsl. reflexivity. }
      destruct (skipn 1000 sorted) as [|z [|? ?]] eqn:Hskip;
        try discriminate.
      assert (Hndid : NoDup (map ContextManager.MemoryEntry.id sorted)).
      { apply (Permutation_NoDup
                 (l := map ContextManager.MemoryEntry.id es)).
        - apply Permutation_map, Permutation_sym, Hperm.
        - unfold es. rewrite map_map. exact Hnd. }
      rewrite <- Hsplit, map_app in Hndid. simpl in Hndid.
      apply NoDup_remove_2 in Hndid. rewrite app_nil_r in Hndid.
      assert (Hez : ContextManager.MemoryEntry.id z
                    <> ContextManager.MemoryEntry.id e).
      { intros Heq. apply Hndid. rewrite Heq. now apply in_map. }
      assert (Hz : In z es).
      { apply (Permutation_in _ Hperm). rewrite <- Hsplit.
        apply in_or_app. right. now left. }
      assert (He' : In e es).
      { apply (Permutation_in _ Hperm). rewrite <- Hsplit.
        apply in_or_app. now left. }
      unfold es in Hz, He'.
      apply in_map_iff in Hz. destruct Hz as (rz & <- & Hrz).
      apply in_map_iff in He'. destruct He' as (re & <- & Hre).
      simpl in Hid, Hez.
      assert (re = oldest) by (eapply NoDup_map_same; eauto). subst re.
      assert (Hlt : (Spec.rec_now oldest < Spec.rec_now rz)%Z)
        by (apply Hold; auto).
      assert (Hord : Spec.newestFirst sorted) by apply newestFirst_sort.
      rewrite <- Hsplit in Hord.
      pose proof (newestFirst_app _ _ Hord
                    (entryOf scanned oldest) (entryOf scanned rz) He
                    (or_introl eq_refl)) as Hle.
      simpl in Hle. lia.
Qed.

Lemma distinctb_NoDup (l : list string) : distinctb l = true -> NoDup l.
Proof.
  induction l as [|x l IH]; simpl; intros H; constructor.
  - apply andb_true_iff in H. destruct H as [H _].
    apply negb_true_iff in H. intros Hin.
    assert (existsb (String.eqb x) l = true); [|congruence].
    apply existsb_exists. exists x. split; auto. apply String.eqb_refl.
  - apply IH. apply andb_true_iff in H. tauto.
Qed.

Lemma ledger_is_capped_and_newest_first_witness :
  (exists l,
      ContextManager.memoryFile
        (Spec.recordAll ([] ++ [sampleRecording 0])
           (ContextManager.constructor None None))
      = Some l
      /\ List.length l <= 1000
      /\ Spec.newestFirst l)
  /\ (exists l,
         ContextManager.memoryFile
           (Spec.recordAll sampleBatch (ContextManager.constructor None None))
         = Some l
         /\ List.length l = 1000
         /\ Spec.newestFirst l
         /\ ~ In (Spec.rec_id (sampleRecording 0))
                 (map ContextManager.MemoryEntry.id l)).
Proof.
  apply (ledger_is_capped_and_newest_first
           (ContextManager.constructor None None) [] (sampleRecording 0)
           None sampleBatch (sampleRecording 0)).
  - reflexivity.
  - reflexivity.
  - apply distinctb_NoDup. vm_compute. reflexivity.
  - left. reflexivity.
  - intros r Hr Hne. unfold sampleBatch in Hr.
    apply in_map_iff in Hr. destruct Hr as (n & <- & Hn).
    destruct n as [|n]; [now elim Hne|]. simpl. lia.
Defined.

(* ================================================================== *)
(** * MemoryVectorStore: the snapshot on disk                         *)
(* ================================================================== *)

Lemma loadFromDisk_fresh_ids (data : list MemoryVectorStore.Item) :
  forall m : Map MemoryVectorStore.StoredChunk,
    NoDup (Map_keys m ++ map MemoryVectorStore.item_id data) ->
    fold_left
      (fun m item =>
         Map_set (MemoryVectorStore.item_id item)
           (MemoryVectorStore.mkStored (MemoryVectorStore.item_chunk item)
              (MemoryVectorStore.item_embedding item)) m)
      data m
    = m ++ map (fun item =>
                  (MemoryVectorStore.item_id item,
                   MemoryVectorStore.mkStored
                     (MemoryVectorStore.item_chunk item)
                     (MemoryVectorStore.item_embedding item))) data.
Proof.
  induction data as [|item data IH]; intros m Hnd; simpl.
  - now rewrite app_nil_r.
  - rewrite IH.
    + rewrite Map_set_absent.
      * now rewrite <- app_assoc.
      * apply Map_get_None_keys. intros Hin.
        apply NoDup_remove_2 in Hnd. apply Hnd, in_or_app. now left.
    + rewrite Map_set_absent.
      * unfold Map_keys. rewrite map_app. simpl. rewrite <- app_assoc.
        exact Hnd.
      * apply Map_get_None_keys. intros Hin.
        apply NoDup_remove_2 in Hnd. apply Hnd, in_or_app. now left.
Qed.

(** What the round trip does keep: the ids in their order, every embedding,
    and of every chunk all but the form of [lastModified]. *)
Lemma reload_keeps_ids_and_embeddings (s : MemoryVectorStore.t) :
  NoDup (Map_keys (MemoryVectorStore.chunks s)) ->
  MemoryVectorStore.chunks (reload s)
  = map (fun '(id, stored) =>
           (id,
            MemoryVectorStore.mkStored
              (MemoryVectorStore.JSON_chunk (MemoryVectorStore.chunk stored))
              (MemoryVectorStore.embedding stored)))
        (MemoryVectorStore.chunks s).
Proof.
  intros Hnd. unfold reload, MemoryVectorStore.constructor,
    MemoryVectorStore.loadFromDisk, MemoryVectorStore.saveToDisk.
  cbn [MemoryVectorStore.file MemoryVectorStore.chunks
       MemoryVectorStore.embeddingGenerator].
  rewrite loadFromDisk_fresh_ids.
  - simpl. rewrite map_map. apply map_ext. now intros [id stored].
  - simpl. rewrite map_map.
    erewrite map_ext; [exact Hnd|]. now intros [id stored].
Qed.

(** C5, at the failing input: a store that holds one chunk of the indexer.
    After the snapshot is written and read back the id is there and the
    embedding is the same, but the chunk is not: [lastModified] was a
    [Date] and is now a string. *)
Theorem reload_turns_lastModified_into_text :
  let s :=
    MemoryVectorStore.addChunks [datedChunk]
      (MemoryVectorStore.constructor None) in
  MemoryVectorStore.getChunkById "a" s = Some datedChunk
  /\ MemoryVectorStore.getChunkById "a" (reload s)
     = Some (MemoryVectorStore.JSON_chunk datedChunk)
  /\ CodeChunk.lastModified (CodeChunk.metadata datedChunk)
     = Some (DateObject 1700000000000)
  /\ CodeChunk.lastModified
       (CodeChunk.metadata (MemoryVectorStore.JSON_chunk datedChunk))
     = Some (IsoString 1700000000000)
  /\ MemoryVectorStore.JSON_chunk datedChunk <> datedChunk
  /\ option_map MemoryVectorStore.embedding
       (Map_get "a" (MemoryVectorStore.chunks (reload s)))
     = option_map MemoryVectorStore.embedding
         (Map_get "a" (MemoryVectorStore.chunks s)).
Proof.
  cbv zeta. repeat split; try reflexivity. discriminate.
Qed.

(* ================================================================== *)
(** * EmbeddingGenerator: the shape of an embedding                   *)
(* ================================================================== *)

Section VectorFacts.

Local Open Scope R_scope.
Import EmbeddingGenerator.

Lemma Array_set_length {A : Type} (i : nat) (v : A) (a : list A) :
  List.length (Array_set i v a) = List.length a.
Proof.
  revert i. induction a as [|x a IH]; intros [|i]; simpl; auto.
Qed.

Lemma sumSquares_from (v : list R) (a : R) :
  fold_left (fun sum val => sum + val * val) v a = a + sumSquares v.
Proof.
  unfold sumSquares. revert a.
  induction v as [|x v IH]; intros a; simpl.
  - ring.
  - rewrite (IH (a + x * x)), (IH (0 + x * x)). ring.
Qed.

Lemma sumSquares_cons (x : R) (v : list R) :
  sumSquares (x :: v) = x * x + sumSquares v.
Proof.
  unfold sumSquares at 1. simpl. rewrite sumSquares_from. ring.
Qed.

Lemma sumSquares_nonneg (v : list R) : 0 <= sumSquares v.
Proof.
  induction v as [|x v IH].
  - unfold sumSquares. simpl. lra.
  - rewrite sumSquares_cons. nra.
Qed.

Lemma sumSquares_zero (v : list R) :
  sumSquares v = 0 -> Forall (fun x => x = 0) v.
Proof.
  induction v as [|x v IH]; intros H; constructor;
    rewrite sumSquares_cons in H; pose proof (sumSquares_nonneg v).
  - nra.
  - apply IH. nra.
Qed.

Lemma sumSquares_scaled (m : R) (v : list R) :
  m <> 0 ->
  sumSquares (map (fun val => val / m) v) = sumSquares v / (m * m).
Proof.
  intros Hm. induction v as [|x v IH]; simpl.
  - unfold sumSquares. simpl. field. exact Hm.
  - rewrite !sumSquares_cons, IH. field. exact Hm.
Qed.

Lemma addToken_length (g : t) (vector : list R) (entry : string * R) :
  List.length (addToken g vector entry) = List.length vector.
Proof.
  unfold addToken. destruct entry as [token tfScore].
  destruct (Map_get token (vocabulary g)) as [index|]; auto.
  destruct (index <? dimension)%nat; apply Array_set_length.
Qed.

Lemma addSemanticFeatures_length (text : string) (vector : list R) :
  List.length (addSemanticFeatures text vector) = List.length vector.
Proof.
  unfold addSemanticFeatures.
  assert (H1 : forall (fs : list (list string * nat)) (v : list R),
             List.length
               (fold_left
                  (fun v '(keywords, index) =>
                     let count :=
                       List.length
                         (filter (fun kw => includes (toLowerCase text) kw)
                                 keywords) in
                     if (0 <? count)%nat && (index <? dimension)%nat
                     then Array_set index
                            (INR count / INR (List.length keywords)) v
                     else v) fs v)
             = List.length v).
  { induction fs as [|[kws i] fs IH]; intros v; simpl; auto.
    rewrite IH.
    destruct ((0 <? _)%nat && (i <? dimension)%nat); auto.
    apply Array_set_length. }
  assert (H2 : forall (ps : list (Pattern * nat)) (v : list R),
             List.length
               (fold_left
                  (fun v '(pattern, index) =>
                     let matches := match_count pattern text in
                     if (0 <? matches)%nat && (index <? dimension)%nat
                     then Array_set index (Rmin (INR matches / 10) 1) v
                     else v) ps v)
             = List.length v).
  { induction ps as [|[p i] ps IH]; intros v; simpl; auto.
    rewrite IH.
    destruct ((0 <? _)%nat && (i <? dimension)%nat); auto.
    apply Array_set_length. }
  cbv zeta. now rewrite H2, H1.
Qed.

Lemma rawVector_length (g : t) (text : string) :
  List.length (rawVector g text) = dimension.
Proof.
  unfold rawVector. cbv zeta. rewrite addSemanticFeatures_length.
  generalize (computeTF (tokenize text)). intros tf.
  assert (H : forall (l : Map R) (v : list R),
             List.length (fold_left (addToken g) l v) = List.length v).
  { induction l as [|e l IH]; intros v; simpl; auto.
    now rewrite IH, addToken_length. }
  rewrite H. apply repeat_length.
Qed.

(** The slot a token beyond the dimension is folded into is a slot of the
    vector. *)
Lemma hashed_slot_in_range (token : string) :
  (Z.to_nat (Z.abs (Z.rem (simpleHash token) (Z.of_nat dimension)))
   < dimension)%nat.
Proof.
  unfold dimension.
  pose proof (Z.rem_bound_abs (simpleHash token) (Z.of_nat 384)) as H.
  assert (Hz : (Z.abs (Z.rem (simpleHash token) (Z.of_nat 384)) < 384)%Z)
    by lia.
  lia.
Qed.

Lemma normalised_or_zero (v : list R) :
  let m := magnitude v in
  let out := if Rgt_dec m 0 then map (fun val => val / m) v else v in
  List.length out = List.length v
  /\ (magnitude out = 1 \/ Forall (fun x => x = 0) out).
Proof.
  cbv zeta. unfold magnitude.
  pose proof (sumSquares_nonneg v) as Hnn.
  destruct (Rgt_dec (sqrt (sumSquares v)) 0) as [Hpos|Hzero].
  - split; [apply length_map|]. left.
    rewrite sumSquares_scaled by lra.
    rewrite sqrt_def by exact Hnn.
    rewrite Rdiv_diag; [apply sqrt_1|].
    intros H0. rewrite H0, sqrt_0 in Hpos. lra.
  - split; auto. right. apply sumSquares_zero.
    apply sqrt_eq_0; auto.
    pose proof (sqrt_pos (sumSquares v)). lra.
Qed.

Lemma textToVector_ok (g : t) (text : string) :
  Spec.EmbeddingOK (textToVector g text).
Proof.
  unfold Spec.EmbeddingOK, textToVector. cbv zeta.
  destruct (normalised_or_zero (rawVector g text)) as [Hlen Hnorm].
  cbv zeta in Hlen, Hnorm. rewrite Hlen, rawVector_length. auto.
Qed.

End VectorFacts.

Section StoreInvariant.

Import StoreApi.

Lemma generate_ok (g : EmbeddingGenerator.t) (text : string) :
  Spec.EmbeddingOK (fst (EmbeddingGenerator.generate g text)).
Proof. apply textToVector_ok. Qed.

Lemma generateBatch_ok (g : EmbeddingGenerator.t) (texts : list string) :
  Forall Spec.EmbeddingOK (fst (EmbeddingGenerator.generateBatch g texts)).
Proof.
  unfold EmbeddingGenerator.generateBatch. cbv zeta. simpl fst.
  apply Forall_map, Forall_forall. intros text _. apply textToVector_ok.
Qed.

Lemma generateBatch_length (g : EmbeddingGenerator.t) (texts : list string) :
  List.length (fst (EmbeddingGenerator.generateBatch g texts))
  = List.length texts.
Proof.
  unfold EmbeddingGenerator.generateBatch. cbv zeta. simpl fst.
  apply length_map.
Qed.

Lemma store_entries_ok (pairs : list (CodeChunk.t * list R)) :
  forall m : Map MemoryVectorStore.StoredChunk,
    Forall (fun p => Spec.EmbeddingOK (snd p)) pairs ->
    Forall (fun sc => Spec.EmbeddingOK (MemoryVectorStore.embedding sc))
           (Map_values m) ->
    Forall (fun sc => Spec.EmbeddingOK (MemoryVectorStore.embedding sc))
           (Map_values
              (fold_left
                 (fun m '(c, e) =>
                    Map_set (CodeChunk.id c) (MemoryVectorStore.mkStored c e)
                            m)
                 pairs m)).
Proof.
  induction pairs as [|[c e] pairs IH]; intros m Hp Hm; simpl; auto.
  inversion Hp; subst. apply IH; auto.
  apply Map_set_values; auto.
Qed.

Lemma addChunks_ok (cs : list CodeChunk.t) (s : MemoryVectorStore.t) :
  Spec.StoreOK s -> Spec.StoreOK (MemoryVectorStore.addChunks cs s).
Proof.
  unfold Spec.StoreOK, MemoryVectorStore.addChunks. intros H.
  pose proof (generateBatch_ok (MemoryVectorStore.embeddingGenerator s)
                (map MemoryVectorStore.createChunkText cs)) as Hb.
  destruct (EmbeddingGenerator.generateBatch _ _) as [embeddings g].
  simpl in Hb |- *. apply store_entries_ok; auto.
  apply Forall_forall. intros [c e] Hin. simpl.
  rewrite Forall_forall in Hb. apply Hb.
  eapply in_combine_r; eauto.
Qed.

Lemma updateChunk_ok (c : CodeChunk.t) (s : MemoryVectorStore.t) :
  Spec.StoreOK s -> Spec.StoreOK (MemoryVectorStore.updateChunk c s).
Proof.
  unfold Spec.StoreOK, MemoryVectorStore.updateChunk. intros H.
  pose proof (generate_ok (MemoryVectorStore.embeddingGenerator s)
                (MemoryVectorStore.createChunkText c)) as Hg.
  destruct (EmbeddingGenerator.generate _ _) as [e g].
  simpl in Hg |- *. apply Map_set_values; auto.
Qed.

Lemma deleteChunks_ok (ids : list string) (s : MemoryVectorStore.t) :
  Spec.StoreOK s -> Spec.StoreOK (MemoryVectorStore.deleteChunks ids s).
Proof.
  unfold Spec.StoreOK, MemoryVectorStore.deleteChunks. simpl.
  generalize (MemoryVectorStore.chunks s).
  induction ids as [|i ids IH]; intros m H; simpl; auto.
  apply IH. now apply Map_delete_values.
Qed.

Lemma batch_entry_has_embedding {E : Type} (c : CodeChunk.t)
  (cs : list CodeChunk.t) (es : list E) :
  List.length cs = List.length es -> In c cs ->
  exists e, In (c, e) (combine cs es).
Proof.
  revert es. induction cs as [|c0 cs IH]; intros [|e0 es] Hlen Hin;
    simpl in *; try contradiction; try discriminate.
  destruct Hin as [->|Hin]; [eauto|].
  destruct (IH es) as [e He]; auto. eauto.
Qed.

(** After the loop of [addChunks], the entry under an id is the one a
    chunk of the batch has written, unless no chunk of the batch has that
    id. *)
Lemma stored_entry_origin (pairs : list (CodeChunk.t * list R)) :
  forall (m : Map MemoryVectorStore.StoredChunk) (k : string)
         (sc : MemoryVectorStore.StoredChunk),
    Map_get k
      (fold_left
         (fun m '(c, e) =>
            Map_set (CodeChunk.id c) (MemoryVectorStore.mkStored c e) m)
         pairs m) = Some sc ->
    (exists c e, In (c, e) pairs /\ sc = MemoryVectorStore.mkStored c e)
    \/ (Map_get k m = Some sc
        /\ forall c e, In (c, e) pairs -> CodeChunk.id c <> k).
Proof.
  induction pairs as [|[c0 e0] pairs IH]; intros m k sc H; simpl in *.
  - right. split; auto.
  - apply IH in H. destruct H as [(c & e & Hin & ->)|[H Hne]].
    + left. eauto.
    + destruct (String.eqb_spec k (CodeChunk.id c0)) as [->|Hk].
      * rewrite Map_get_set_same in H. injection H as <-. left. eauto.
      * rewrite Map_get_set_other in H by exact Hk. right. split; auto.
        intros c e [Heq|Hin]; [|eauto]. injection Heq as <- <-. congruence.
Qed.

(** ... and a chunk of the batch does leave an entry under its id. *)
Lemma stored_entry_present (pairs : list (CodeChunk.t * list R)) :
  forall (m : Map MemoryVectorStore.StoredChunk) (c : CodeChunk.t)
         (e : list R),
    In (c, e) pairs ->
    Map_get (CodeChunk.id c)
      (fold_left
         (fun m '(c, e) =>
            Map_set (CodeChunk.id c) (MemoryVectorStore.mkStored c e) m)
         pairs m) <> None.
Proof.
  assert (Hkeep : forall (ps : list (CodeChunk.t * list R))
                         (m : Map MemoryVectorStore.StoredChunk) (k : string),
             Map_get k m <> None ->
             Map_get k
               (fold_left
                  (fun m '(c, e) =>
                     Map_set (CodeChunk.id c)
                       (MemoryVectorStore.mkStored c e) m)
                  ps m) <> None).
  { induction ps as [|[c0 e0] ps IH]; intros m k H; simpl; auto.
    apply IH. destruct (String.eqb_spec k (CodeChunk.id c0)) as [->|Hk].
    - rewrite Map_get_set_same. discriminate.
    - now rewrite Map_get_set_other. }
  induction pairs as [|[c0 e0] pairs IH]; intros m c e Hin; simpl in *;
    [contradiction|].
  destruct Hin as [Heq|Hin]; [|eauto].
  injection Heq as -> ->. apply Hkeep.
  rewrite Map_get_set_same. discriminate.
Qed.

Lemma addChunks_entry_ok (cs : list CodeChunk.t) (s : MemoryVectorStore.t)
  (c : CodeChunk.t) (sc : MemoryVectorStore.StoredChunk) :
  In c cs ->
  Map_get (CodeChunk.id c)
    (MemoryVectorStore.chunks (MemoryVectorStore.addChunks cs s)) = Some sc ->
  Spec.EmbeddingOK (MemoryVectorStore.embedding sc).
Proof.
  unfold MemoryVectorStore.addChunks. intros Hin.
  pose proof (generateBatch_ok (MemoryVectorStore.embeddingGenerator s)
                (map MemoryVectorStore.createChunkText cs)) as Hb.
  pose proof (generateBatch_length (MemoryVectorStore.embeddingGenerator s)
                (map MemoryVectorStore.createChunkText cs)) as Hl.
  destruct (EmbeddingGenerator.generateBatch _ _) as [embeddings g].
  simpl in Hb, Hl |- *. rewrite length_map in Hl. intros H.
  rewrite Forall_forall in Hb.
  apply stored_entry_origin in H.
  destruct H as [(c' & e & Hpair & ->)|[_ Hne]].
  - simpl. apply Hb. eapply in_combine_r; eauto.
  - destruct (batch_entry_has_embedding c cs embeddings) as [e He]; auto.
    exfalso. eapply Hne; eauto.
Qed.

Lemma updateChunk_entry_ok (c : CodeChunk.t) (s : MemoryVectorStore.t)
  (sc : MemoryVectorStore.StoredChunk) :
  Map_get (CodeChunk.id c)
    (MemoryVectorStore.chunks (MemoryVectorStore.updateChunk c s)) = Some sc ->
  Spec.EmbeddingOK (MemoryVectorStore.embedding sc).
Proof.
  unfold MemoryVectorStore.updateChunk.
  pose proof (generate_ok (MemoryVectorStore.embeddingGenerator s)
                (MemoryVectorStore.createChunkText c)) as Hg.
  destruct (EmbeddingGenerator.generate _ _) as [e g].
  simpl in Hg |- *. rewrite Map_get_set_same. now intros [= <-].
Qed.

Lemma getRelatedChunks_keeps_chunks (i : string) (k : nat)
  (s : MemoryVectorStore.t) :
  MemoryVectorStore.chunks (snd (MemoryVectorStore.getRelatedChunks i k s))
  = MemoryVectorStore.chunks s.
Proof.
  unfold MemoryVectorStore.getRelatedChunks.
  destruct (MemoryVectorStore.getChunkById i s) as [c|]; reflexivity.
Qed.

Lemma after_ok (op : Operation) (s : MemoryVectorStore.t) :
  Spec.StoreOK s -> Spec.StoreOK (Spec.after op s).
Proof.
  intros H. unfold Spec.after, MemoryVectorStore.call.
  destruct op as [cs|q k|c k|i k|i|c|ids|]; try exact H.
  - now apply addChunks_ok.
  - pose proof (getRelatedChunks_keeps_chunks i k s) as Hk.
    destruct (MemoryVectorStore.getRelatedChunks i k s) as [r s'].
    unfold Spec.StoreOK. simpl in Hk. now rewrite Hk.
  - now apply updateChunk_ok.
  - now apply deleteChunks_ok.
Qed.

End StoreInvariant.

(** C6. Every embedding [generate] or [generateBatch] returns has exactly
    384 components and either Euclidean norm 1 or only zeros (numbers are
    exact reals).  Hence so has the embedding [addChunks] stores for each
    chunk of its batch and the one [updateChunk] stores, on any store; and
    when every embedding held by a store is of that shape, every embedding
    it holds after any sequence of store operations is. *)
Theorem embeddings_are_unit_or_zero_vectors :
  forall (g : EmbeddingGenerator.t) (text : string) (texts : list string)
         (s0 : MemoryVectorStore.t) (cs : list CodeChunk.t)
         (c : CodeChunk.t)
         (s : MemoryVectorStore.t) (ops : list StoreApi.Operation),
    Spec.StoreOK s ->
    Spec.EmbeddingOK (fst (EmbeddingGenerator.generate g text))
    /\ Forall Spec.EmbeddingOK
              (fst (EmbeddingGenerator.generateBatch g texts))
    /\ Forall
         (fun c' =>
            exists sc,
              Map_get (CodeChunk.id c')
                (MemoryVectorStore.chunks (MemoryVectorStore.addChunks cs s0))
              = Some sc
              /\ Spec.EmbeddingOK (MemoryVectorStore.embedding sc))
         cs
    /\ (exists sc,
           Map_get (CodeChunk.id c)
             (MemoryVectorStore.chunks (MemoryVectorStore.updateChunk c s0))
           = Some sc
           /\ Spec.EmbeddingOK (MemoryVectorStore.embedding sc))
    /\ Spec.StoreOK (Spec.run ops s).
Proof.
  intros g text texts s0 cs c s ops Hs. split; [apply generate_ok|].
  split; [apply generateBatch_ok|]. split; [|split].
  - apply Forall_forall. intros c' Hin.
    destruct (Map_get (CodeChunk.id c')
                (MemoryVectorStore.chunks (MemoryVectorStore.addChunks cs s0)))
      as [sc|] eqn:Hget.
    + exists sc. split; auto. eapply addChunks_entry_ok; eauto.
    + exfalso. revert Hget. unfold MemoryVectorStore.addChunks.
      pose proof (generateBatch_length
                    (MemoryVectorStore.embeddingGenerator s0)
                    (map MemoryVectorStore.createChunkText cs)) as Hl.
      destruct (EmbeddingGenerator.generateBatch _ _) as [embeddings g0].
      simpl in Hl |- *. rewrite length_map in Hl.
      destruct (batch_entry_has_embedding c' cs embeddings) as [e He]; auto.
      apply stored_entry_present with (e := e). exact He.
  - destruct (Map_get (CodeChunk.id c)
                (MemoryVectorStore.chunks (MemoryVectorStore.updateChunk c s0)))
      as [sc|] eqn:Hget.
    + exists sc. split; auto. eapply updateChunk_entry_ok; eauto.
    + exfalso. revert Hget. unfold MemoryVectorStore.updateChunk.
      destruct (EmbeddingGenerator.generate _ _) as [e g0]. simpl.
      now rewrite Map_get_set_same.
  - unfold Spec.run. revert s Hs.
    induction ops as [|op ops IH]; intros s Hs; simpl; auto.
    apply IH. now apply after_ok.
Qed.

Lemma embeddings_are_unit_or_zero_vectors_witness :
  Spec.EmbeddingOK
    (fst (EmbeddingGenerator.generate EmbeddingGenerator.new
            "login user pass"))
  /\ Forall Spec.EmbeddingOK
            (fst (EmbeddingGenerator.generateBatch EmbeddingGenerator.new
                    ["function login() { }"%string; "x"%string]))
  /\ Forall
       (fun c' =>
          exists sc,
            Map_get (CodeChunk.id c')
              (MemoryVectorStore.chunks
                 (MemoryVectorStore.addChunks [otherChunk; bareChunk]
                    loginStore))
            = Some sc
            /\ Spec.EmbeddingOK (MemoryVectorStore.embedding sc))
       [otherChunk; bareChunk]
  /\ (exists sc,
         Map_get (CodeChunk.id datedChunk)
           (MemoryVectorStore.chunks
              (MemoryVectorStore.updateChunk datedChunk loginStore))
         = Some sc
         /\ Spec.EmbeddingOK (MemoryVectorStore.embedding sc))
  /\ Spec.StoreOK
       (Spec.run
          [StoreApi.AddChunks [loginChunk; datedChunk];
           StoreApi.UpdateChunk loginChunk;
           StoreApi.Search "login user pass" 2;
           StoreApi.DeleteChunks ["a"%string]]
          (MemoryVectorStore.constructor None)).
Proof.
  apply (embeddings_are_unit_or_zero_vectors EmbeddingGenerator.new
           "login user pass"
           ["function login() { }"%string; "x"%string]
           loginStore [otherChunk; bareChunk] datedChunk
           (MemoryVectorStore.constructor None)).
  unfold Spec.StoreOK. simpl. constructor.
Defined.

(* ================================================================== *)
(** * MemoryVectorStore: ranking                                      *)
(* ================================================================== *)

Section CosineFacts.

Local Open Scope R_scope.

Lemma cosine_sums (ps : list (R * R)) :
  forall d na nb,
    fold_left
      (fun '(d, na, nb) '(x, y) => (d + x * y, na + x * x, nb + y * y))
      ps (d, na, nb)
    = (d + dotOf ps, na + leftOf ps, nb + rightOf ps).
Proof.
  induction ps as [|[x y] ps IH]; intros d na nb; simpl.
  - f_equal; [f_equal|]; ring.
  - rewrite IH. f_equal; [f_equal|]; ring.
Qed.

Lemma cosineSimilarity_sums (a b : list R) :
  MemoryVectorStore.cosineSimilarity a b
  = let ps := combine a b in
    if Req_dec_T (sqrt (leftOf ps)) 0 then 0
    else if Req_dec_T (sqrt (rightOf ps)) 0 then 0
    else dotOf ps / (sqrt (leftOf ps) * sqrt (rightOf ps)).
Proof.
  unfold MemoryVectorStore.cosineSimilarity. rewrite cosine_sums.
  cbv zeta. rewrite !Rplus_0_l. reflexivity.
Qed.

Lemma leftOf_nonneg (ps : list (R * R)) : 0 <= leftOf ps.
Proof. induction ps as [|[x y] ps IH]; simpl; nra. Qed.

Lemma rightOf_nonneg (ps : list (R * R)) : 0 <= rightOf ps.
Proof. induction ps as [|[x y] ps IH]; simpl; nra. Qed.

(** One step of the Cauchy-Schwarz inequality. *)
Lemma dot_step (x y D A B : R) :
  0 <= A -> 0 <= B -> D * D <= A * B ->
  (x * y + D) * (x * y + D) <= (x * x + A) * (y * y + B).
Proof.
  intros HA HB HD.
  assert (Hcross : 2 * (x * y * D) <= x * x * B + y * y * A).
  { destruct (Rle_dec (2 * (x * y * D)) (x * x * B + y * y * A)) as [H|H];
      [exact H|exfalso].
    apply Rnot_le_lt in H.
    pose proof (Rle_0_sqr (x * x * B - y * y * A)) as H1. unfold Rsqr in H1.
    assert (H2 : 0 <= (x * y) * (x * y) * (A * B - D * D)).
    { apply Rmult_le_pos; [apply Rle_0_sqr | lra]. }
    assert (H3 : 0 <= x * x * B + y * y * A).
    { pose proof (Rle_0_sqr x). pose proof (Rle_0_sqr y).
      unfold Rsqr in *. nra. }
    assert (H4 : (x * x * B + y * y * A) * (x * x * B + y * y * A)
                 < (2 * (x * y * D)) * (2 * (x * y * D))).
    { apply Rmult_le_0_lt_compat; lra. }
    nra. }
  nra.
Qed.

Lemma dotOf_bound (ps : list (R * R)) :
  dotOf ps * dotOf ps <= leftOf ps * rightOf ps.
Proof.
  induction ps as [|[x y] ps IH]; simpl; [lra|].
  apply dot_step; auto using leftOf_nonneg, rightOf_nonneg.
Qed.

Lemma cosineSimilarity_le_1 (a b : list R) :
  MemoryVectorStore.cosineSimilarity a b <= 1.
Proof.
  rewrite cosineSimilarity_sums. cbv zeta.
  set (ps := combine a b).
  destruct (Req_dec_T (sqrt (leftOf ps)) 0) as [|HA]; [lra|].
  destruct (Req_dec_T (sqrt (rightOf ps)) 0) as [|HB]; [lra|].
  pose proof (sqrt_pos (leftOf ps)) as HA0.
  pose proof (sqrt_pos (rightOf ps)) as HB0.
  pose proof (sqrt_def _ (leftOf_nonneg ps)) as HAd.
  pose proof (sqrt_def _ (rightOf_nonneg ps)) as HBd.
  pose proof (dotOf_bound ps) as Hcs.
  set (sa := sqrt (leftOf ps)) in *. set (sb := sqrt (rightOf ps)) in *.
  assert (Hpos : 0 < sa * sb) by nra.
  apply (Rmult_le_reg_r (sa * sb)); [exact Hpos|].
  unfold Rdiv. rewrite Rmult_assoc, Rinv_l by lra.
  rewrite Rmult_1_r, Rmult_1_l.
  destruct (Rle_dec (dotOf ps) (sa * sb)) as [H|H]; [exact H|exfalso].
  assert (Hsq : (sa * sb) * (sa * sb) < dotOf ps * dotOf ps) by nra.
  assert (Heq : (sa * sb) * (sa * sb) = leftOf ps * rightOf ps).
  { rewrite <- HAd, <- HBd. ring. }
  lra.
Qed.

Lemma combine_self_sums (q : list R) :
  dotOf (combine q q) = EmbeddingGenerator.sumSquares q
  /\ leftOf (combine q q) = EmbeddingGenerator.sumSquares q
  /\ rightOf (combine q q) = EmbeddingGenerator.sumSquares q.
Proof.
  induction q as [|x q (H1 & H2 & H3)]; simpl.
  - unfold EmbeddingGenerator.sumSquares. simpl. auto.
  - rewrite sumSquares_cons, H1, H2, H3. auto.
Qed.

Lemma sumSquares_positive (q : list R) :
  ~ Forall (fun x => x = 0) q -> 0 < EmbeddingGenerator.sumSquares q.
Proof.
  intros H. pose proof (sumSquares_nonneg q) as Hnn.
  destruct (Req_dec_T (EmbeddingGenerator.sumSquares q) 0) as [H0|H0];
    [|lra].
  exfalso. apply H. now apply sumSquares_zero.
Qed.

(** A vector that is not zero is at distance 0 from itself. *)
Lemma cosineSimilarity_self (q : list R) :
  ~ Forall (fun x => x = 0) q -> MemoryVectorStore.cosineSimilarity q q = 1.
Proof.
  intros Hq. apply sumSquares_positive in Hq.
  rewrite cosineSimilarity_sums. cbv zeta.
  destruct (combine_self_sums q) as (-> & -> & ->).
  pose proof (sqrt_lt_R0 _ Hq) as Hs.
  pose proof (sqrt_def (EmbeddingGenerator.sumSquares q)) as Hd.
  destruct (Req_dec_T (sqrt (EmbeddingGenerator.sumSquares q)) 0); [lra|].
  rewrite Hd by lra. apply Rdiv_diag. lra.
Qed.

(** The zero vector is at distance 1 from every vector. *)
Lemma cosineSimilarity_zero_query (a b : list R) :
  Forall (fun x => x = 0) a -> MemoryVectorStore.cosineSimilarity a b = 0.
Proof.
  intros Ha. rewrite cosineSimilarity_sums. cbv zeta.
  assert (H : leftOf (combine a b) = 0).
  { revert b. induction Ha as [|x a Hx Ha IH]; intros [|y b]; simpl; auto.
    rewrite IH, Hx. ring. }
  rewrite H, sqrt_0.
  destruct (Req_dec_T 0 0); [reflexivity|contradiction].
Qed.

End CosineFacts.

Section RankingFacts.

Context {A : Type} (precedes : A -> A -> bool).

Lemma sort_insert_first (c : A) (l : list A) :
  (forall y, In y l -> precedes y c = false) ->
  exists rest, sort_insert precedes c l = c :: rest.
Proof.
  destruct l as [|y l]; simpl; intros H; eauto.
  rewrite (H y) by now left. eauto.
Qed.

(** An element that must precede everything before it, and that nothing
    after it must precede, ends up first. *)
Lemma Array_sort_first (l1 : list A) (c : A) (l2 : list A) :
  (forall x, In x l1 -> precedes c x = true) ->
  (forall y, In y l2 -> precedes y c = false) ->
  exists rest, Array_sort precedes (l1 ++ c :: l2) = c :: rest.
Proof.
  intros H1 H2. induction l1 as [|x l1 IH]; simpl.
  - apply sort_insert_first. intros y Hy. apply H2.
    now apply (Array_sort_In precedes).
  - destruct IH as [rest Hrest]; [intros; apply H1; now right|].
    rewrite Hrest. simpl. rewrite (H1 x) by now left. eauto.
Qed.

End RankingFacts.

Lemma search_ranks_candidates (query : string) (k : nat)
  (s : MemoryVectorStore.t) :
  fst (MemoryVectorStore.search query k s)
  = Array_slice0 k
      (Array_sort
         (fun a b => Rltb (VectorSearchResult.score a)
                          (VectorSearchResult.score b))
         (candidates
            (fst (EmbeddingGenerator.generate
                    (MemoryVectorStore.embeddingGenerator s) query))
            (MemoryVectorStore.chunks s))).
Proof. reflexivity. Qed.

Lemma textToVector_zero (g : EmbeddingGenerator.t) (text : string) :
  Forall (fun x => x = 0%R) (EmbeddingGenerator.rawVector g text) ->
  Forall (fun x => x = 0%R) (EmbeddingGenerator.textToVector g text).
Proof.
  intros H. unfold EmbeddingGenerator.textToVector. cbv zeta.
  destruct (Rgt_dec _ 0); auto.
  apply Forall_map. eapply Forall_impl; [|exact H].
  intros x ->. unfold Rdiv. apply Rmult_0_l.
Qed.

Lemma bareChunk_query_is_zero :
  Forall (fun x => x = 0%R)
    (fst (EmbeddingGenerator.generate
            (MemoryVectorStore.embeddingGenerator twoChunkStore)
            (MemoryVectorStore.createChunkText bareChunk))).
Proof.
  unfold EmbeddingGenerator.generate. cbv zeta. cbn [fst].
  apply textToVector_zero.
  cbv -[ln INR Rdiv Rmult Rplus Rmin IZR].
  repeat constructor; settle_zero_component.
Qed.

(** The store holds [otherChunk] and [bareChunk], added in one batch.  A
    search with the canonical text of [bareChunk] returns [otherChunk]
    first, and with score 1: every word of the query occurs in every
    document of the corpus, so the query embedding is the zero vector and
    every distance is 1; the order is the order of insertion. *)
Lemma twoChunkStore_ranks_by_insertion :
  MemoryVectorStore.getChunkById "c" twoChunkStore = Some bareChunk
  /\ fst (MemoryVectorStore.search
            (MemoryVectorStore.createChunkText bareChunk) 1 twoChunkStore)
     = [VectorSearchResult.mk otherChunk 1].
Proof.
  split; [reflexivity|].
  rewrite search_ranks_candidates.
  pose proof bareChunk_query_is_zero as Hq.
  set (q := fst (EmbeddingGenerator.generate _ _)) in *.
  assert (Hc : exists e1 e2,
             MemoryVectorStore.chunks twoChunkStore
             = [("d"%string, MemoryVectorStore.mkStored otherChunk e1);
                ("c"%string, MemoryVectorStore.mkStored bareChunk e2)]).
  { eexists. eexists. reflexivity. }
  destruct Hc as (e1 & e2 & ->).
  unfold candidates. cbn [map MemoryVectorStore.chunk
                              MemoryVectorStore.embedding].
  rewrite !cosineSimilarity_zero_query by exact Hq.
  replace (1 - 0)%R with 1%R by ring.
  cbn [Array_sort sort_insert VectorSearchResult.score].
  unfold Rltb. destruct (Rlt_dec 1 1) as [H|H]; [lra|].
  reflexivity.
Qed.

Section ExactMatch.

Local Open Scope R_scope.

Lemma candidates_app (q : list R)
  (l1 l2 : Map MemoryVectorStore.StoredChunk) :
  candidates q (l1 ++ l2) = candidates q l1 ++ candidates q l2.
Proof. apply map_app. Qed.

Lemma all_zero_nth (l : list R) (i : nat) :
  Forall (fun x => x = 0) l -> nth i l 0 = 0.
Proof.
  intros H. revert i. induction H as [|x l Hx Hl IH]; intros [|i]; simpl; auto.
Qed.

(** A text whose vector has a component that is not zero before the
    normalisation has an embedding that is not the zero vector. *)
Lemma textToVector_nonzero (g : EmbeddingGenerator.t) (text : string)
  (i : nat) :
  nth i (EmbeddingGenerator.rawVector g text) 0 <> 0 ->
  ~ Forall (fun x => x = 0) (EmbeddingGenerator.textToVector g text).
Proof.
  intros Hi. unfold EmbeddingGenerator.textToVector. cbv zeta.
  assert (Hraw : ~ Forall (fun x => x = 0)
                          (EmbeddingGenerator.rawVector g text)).
  { intros H. apply Hi. now apply all_zero_nth. }
  destruct (Rgt_dec _ 0) as [Hm|Hm]; [|exact Hraw].
  intros H. apply Hraw. rewrite Forall_map in H.
  eapply Forall_impl; [|exact H]. simpl. intros x Hx.
  unfold Rdiv in Hx. apply Rmult_integral in Hx. destruct Hx as [|Hx]; auto.
  exfalso. apply Rinv_neq_0_compat in Hx; auto. lra.
Qed.

Lemma textToVector_same_raw (g1 g2 : EmbeddingGenerator.t) (text : string) :
  EmbeddingGenerator.rawVector g1 text = EmbeddingGenerator.rawVector g2 text ->
  EmbeddingGenerator.textToVector g1 text
  = EmbeddingGenerator.textToVector g2 text.
Proof. unfold EmbeddingGenerator.textToVector. now intros ->. Qed.

End ExactMatch.

(* ================================================================== *)
(** * Further properties: the chunk map                                *)
(* ================================================================== *)

Section MoreMapFacts.
Context {V : Type}.

Lemma Map_set_keys (k : string) (v : V) (m : Map V) :
  Map_keys (Map_set k v m)
  = if Map_has k m then Map_keys m else Map_keys m ++ [k].
Proof.
  unfold Map_has, Map_keys. induction m as [|[k' v'] m IH]; simpl; auto.
  destruct (String.eqb_spec k k') as [->|Hne]; simpl; auto.
  rewrite IH. now destruct (Map_get k m).
Qed.

Lemma Map_has_keys (k : string) (m : Map V) :
  Map_has k m = true <-> In k (Map_keys m).
Proof.
  unfold Map_has. pose proof (Map_get_None_keys k m) as H.
  destruct (Map_get k m); split; intros H'; try discriminate; auto.
  - destruct (in_dec string_dec k (Map_keys m)); auto.
    destruct H as [_ H]. specialize (H n). discriminate.
  - exfalso. destruct H as [H _]. now apply H.
Qed.

Lemma Map_set_NoDup (k : string) (v : V) (m : Map V) :
  NoDup (Map_keys m) -> NoDup (Map_keys (Map_set k v m)).
Proof.
  intros H. rewrite Map_set_keys.
  destruct (Map_has k m) eqn:E; auto.
  apply NoDup_app; auto.
  - constructor; [intros []|constructor].
  - intros x Hx [<-|[]]. apply Map_has_keys in Hx. congruence.
Qed.

Lemma Map_set_size_present (k : string) (v : V) (m : Map V) :
  Map_has k m = true -> Map_size (Map_set k v m) = Map_size m.
Proof.
  intros H. unfold Map_size.
  rewrite <- !(length_map fst). fold (Map_keys (Map_set k v m)).
  fold (Map_keys m). now rewrite Map_set_keys, H.
Qed.

Lemma Map_get_In (k : string) (v : V) (m : Map V) :
  Map_get k m = Some v -> In (k, v) m.
Proof.
  induction m as [|[k' v'] m IH]; simpl; [discriminate|].
  destruct (String.eqb_spec k k') as [->|Hne]; intros H.
  - injection H as ->. now left.
  - right. auto.
Qed.

Lemma Map_In_get (k : string) (v : V) (m : Map V) :
  NoDup (Map_keys m) -> In (k, v) m -> Map_get k m = Some v.
Proof.
  unfold Map_keys. induction m as [|[k' v'] m IH]; simpl; intros Hnd Hin;
    [contradiction|].
  inversion Hnd as [|? ? Hk Hm]; subst.
  destruct Hin as [Heq|Hin].
  - injection Heq as -> ->. now rewrite String.eqb_refl.
  - destruct (String.eqb_spec k k') as [->|Hne]; auto.
    exfalso. apply Hk. change k' with (fst (k', v)). now apply in_map.
Qed.

Lemma Map_delete_get_other (k k0 : string) (m : Map V) :
  k0 <> k -> Map_get k0 (Map_delete k m) = Map_get k0 m.
Proof.
  intros Hne. induction m as [|[k' v'] m IH]; simpl; auto.
  destruct (String.eqb_spec k k') as [->|Hk]; simpl.
  - destruct (String.eqb_spec k0 k'); [contradiction|reflexivity].
  - now rewrite IH.
Qed.

Lemma Map_delete_incl (k : string) (m : Map V) :
  incl (Map_delete k m) m.
Proof.
  induction m as [|[k' v'] m IH]; simpl; [apply incl_refl|].
  destruct (String.eqb k k').
  - apply incl_tl, incl_refl.
  - intros x [<-|Hx]; [now left|right; now apply IH].
Qed.

Lemma Map_delete_keys_NoDup (k : string) (m : Map V) :
  NoDup (Map_keys m) ->
  NoDup (Map_keys (Map_delete k m)) /\ ~ In k (Map_keys (Map_delete k m)).
Proof.
  unfold Map_keys. induction m as [|[k' v'] m IH]; simpl; intros H.
  - split; [constructor|tauto].
  - inversion H as [|? ? Hk Hm]; subst.
    destruct (String.eqb_spec k k') as [->|Hne]; simpl.
    + split; assumption.
    + destruct (IH Hm) as [H1 H2]. split.
      * constructor; auto. intros Hin. apply Hk.
        apply in_map_iff in Hin. destruct Hin as (x & Hx & Hin).
        apply in_map_iff. exists x. split; auto.
        now apply (Map_delete_incl k m).
      * intros [Heq|Hin]; [congruence|tauto].
Qed.

End MoreMapFacts.

Section KeyedStore.

Import StoreApi.

(** The two halves of [Spec.StoreKeyed], for a chunk map. *)
Lemma keyed_set (c : CodeChunk.t) (e : list R)
  (m : Map MemoryVectorStore.StoredChunk) :
  NoDup (Map_keys m)
  /\ Forall (fun entry =>
               CodeChunk.id (MemoryVectorStore.chunk (snd entry)) = fst entry)
            m ->
  NoDup (Map_keys (Map_set (CodeChunk.id c) (MemoryVectorStore.mkStored c e) m))
  /\ Forall (fun entry =>
               CodeChunk.id (MemoryVectorStore.chunk (snd entry)) = fst entry)
            (Map_set (CodeChunk.id c) (MemoryVectorStore.mkStored c e) m).
Proof.
  intros [Hnd Hid]. split; [now apply Map_set_NoDup|].
  clear Hnd. induction m as [|[k v] m IH]; simpl.
  - constructor; auto.
  - inversion Hid; subst.
    destruct (String.eqb (CodeChunk.id c) k); constructor; auto.
Qed.

Lemma keyed_delete (k : string) (m : Map MemoryVectorStore.StoredChunk) :
  NoDup (Map_keys m)
  /\ Forall (fun entry =>
               CodeChunk.id (MemoryVectorStore.chunk (snd entry)) = fst entry)
            m ->
  NoDup (Map_keys (Map_delete k m))
  /\ Forall (fun entry =>
               CodeChunk.id (MemoryVectorStore.chunk (snd entry)) = fst entry)
            (Map_delete k m).
Proof.
  intros [Hnd Hid]. split; [now apply Map_delete_keys_NoDup|].
  rewrite Forall_forall in *. intros x Hx. apply Hid.
  now apply (Map_delete_incl k m).
Qed.

Lemma addChunks_keyed (cs : list CodeChunk.t) (s : MemoryVectorStore.t) :
  Spec.StoreKeyed s -> Spec.StoreKeyed (MemoryVectorStore.addChunks cs s).
Proof.
  unfold Spec.StoreKeyed, MemoryVectorStore.addChunks.
  destruct (EmbeddingGenerator.generateBatch _ _) as [embeddings g].
  cbn [MemoryVectorStore.chunks MemoryVectorStore.saveToDisk].
  generalize (combine cs embeddings) (MemoryVectorStore.chunks s).
  induction l as [|[c e] l IH]; intros m H; simpl; auto.
  apply IH. now apply keyed_set.
Qed.

Lemma updateChunk_keyed (c : CodeChunk.t) (s : MemoryVectorStore.t) :
  Spec.StoreKeyed s -> Spec.StoreKeyed (MemoryVectorStore.updateChunk c s).
Proof.
  unfold Spec.StoreKeyed, MemoryVectorStore.updateChunk.
  destruct (EmbeddingGenerator.generate _ _) as [e g].
  cbn [MemoryVectorStore.chunks MemoryVectorStore.saveToDisk].
  apply keyed_set.
Qed.

Lemma deleteChunks_keyed (ids : list string) (s : MemoryVectorStore.t) :
  Spec.StoreKeyed s -> Spec.StoreKeyed (MemoryVectorStore.deleteChunks ids s).
Proof.
  unfold Spec.StoreKeyed, MemoryVectorStore.deleteChunks.
  cbn [MemoryVectorStore.chunks MemoryVectorStore.saveToDisk].
  generalize (MemoryVectorStore.chunks s).
  induction ids as [|i ids IH]; intros m H; simpl; auto.
  apply IH. now apply keyed_delete.
Qed.

Lemma after_keyed (op : Operation) (s : MemoryVectorStore.t) :
  Spec.StoreKeyed s -> Spec.StoreKeyed (Spec.after op s).
Proof.
  intros H. unfold Spec.after, MemoryVectorStore.call.
  destruct op as [cs|q k|c k|i k|i|c|ids|]; try exact H.
  - now apply addChunks_keyed.
  - pose proof (getRelatedChunks_keeps_chunks i k s) as Hk.
    destruct (MemoryVectorStore.getRelatedChunks i k s) as [r s'].
    unfold Spec.StoreKeyed. simpl in Hk. now rewrite Hk.
  - now apply updateChunk_keyed.
  - now apply deleteChunks_keyed.
Qed.

Lemma run_keyed (ops : list Operation) (s : MemoryVectorStore.t) :
  Spec.StoreKeyed s -> Spec.StoreKeyed (Spec.run ops s).
Proof.
  unfold Spec.run. revert s.
  induction ops as [|op ops IH]; intros s H; simpl; auto.
  apply IH. now apply after_keyed.
Qed.

Lemma NoDup_slice {A : Type} (k : nat) (l : list A) :
  NoDup l -> NoDup (Array_slice0 k l).
Proof.
  unfold Array_slice0. intros H. rewrite <- (firstn_skipn k l) in H.
  now apply NoDup_app_remove_r in H.
Qed.

Lemma candidates_ids (q : list R) (m : Map MemoryVectorStore.StoredChunk) :
  Forall (fun entry =>
            CodeChunk.id (MemoryVectorStore.chunk (snd entry)) = fst entry)
         m ->
  map (fun r => CodeChunk.id (VectorSearchResult.chunk r)) (candidates q m)
  = Map_keys m.
Proof.
  unfold candidates, Map_keys. intros H. rewrite map_map.
  induction H as [|[k sc] m Hk Hm IH]; simpl; auto.
  simpl in Hk. now rewrite Hk, IH.
Qed.

Lemma search_result_ids (query : string) (k : nat) (s : MemoryVectorStore.t) :
  Spec.StoreKeyed s ->
  NoDup (map (fun r => CodeChunk.id (VectorSearchResult.chunk r))
             (fst (MemoryVectorStore.search query k s)))
  /\ incl (map (fun r => CodeChunk.id (VectorSearchResult.chunk r))
               (fst (MemoryVectorStore.search query k s)))
          (Map_keys (MemoryVectorStore.chunks s)).
Proof.
  intros [Hnd Hid]. rewrite search_ranks_candidates.
  set (q := fst (EmbeddingGenerator.generate _ _)).
  set (lt := fun a b => Rltb (VectorSearchResult.score a)
                             (VectorSearchResult.score b)).
  assert (Hperm : Permutation
                    (map (fun r => CodeChunk.id (VectorSearchResult.chunk r))
                         (Array_sort lt
                            (candidates q (MemoryVectorStore.chunks s))))
                    (Map_keys (MemoryVectorStore.chunks s))).
  { rewrite <- (candidates_ids q) by exact Hid.
    apply Permutation_map, Array_sort_perm. }
  split.
  - unfold Array_slice0. rewrite <- firstn_map.
    apply (NoDup_slice k).
    eapply Permutation_NoDup; [apply Permutation_sym, Hperm|exact Hnd].
  - intros i Hi. apply (Permutation_in _ Hperm).
    apply in_map_iff in Hi. destruct Hi as (r & <- & Hr).
    apply in_map_iff. exists r. split; auto.
    apply (Array_slice0_In r k). exact Hr.
Qed.

End KeyedStore.

(** X1. In a store built by store operations from one in which every entry
    is keyed by its chunk's id (the empty store, for one), every entry
    stays keyed by its chunk's id: [getChunkById(id)] returns a chunk whose
    id is [id], and [search] returns no chunk id twice and only ids of
    stored chunks. *)
Theorem store_entries_stay_keyed_by_chunk_id :
  forall (s : MemoryVectorStore.t) (ops : list StoreApi.Operation)
         (query : string) (k : nat),
    Spec.StoreKeyed s ->
    let s' := Spec.run ops s in
    Spec.StoreKeyed s'
    /\ (forall (id : string) (c : CodeChunk.t),
           MemoryVectorStore.getChunkById id s' = Some c ->
           CodeChunk.id c = id)
    /\ NoDup (map (fun r => CodeChunk.id (VectorSearchResult.chunk r))
                  (fst (MemoryVectorStore.search query k s')))
    /\ (forall r,
           In r (fst (MemoryVectorStore.search query k s')) ->
           MemoryVectorStore.getChunkById
             (CodeChunk.id (VectorSearchResult.chunk r)) s'
           <> None).
Proof.
  intros s ops query k Hs s'.
  assert (Hk : Spec.StoreKeyed s') by now apply run_keyed.
  split; [exact Hk|]. split; [|split].
  - intros id c. unfold MemoryVectorStore.getChunkById.
    destruct (Map_get id (MemoryVectorStore.chunks s')) as [sc|] eqn:Hget;
      [|discriminate].
    intros [= <-]. apply Map_get_In in Hget.
    destruct Hk as [_ Hid]. rewrite Forall_forall in Hid.
    exact (Hid _ Hget).
  - now apply search_result_ids.
  - intros r Hr. unfold MemoryVectorStore.getChunkById.
    destruct (search_result_ids query k s' Hk) as [_ Hincl].
    assert (Hin : In (CodeChunk.id (VectorSearchResult.chunk r))
                     (Map_keys (MemoryVectorStore.chunks s'))).
    { apply Hincl. apply in_map_iff. exists r. split; auto. }
    destruct (Map_get _ (MemoryVectorStore.chunks s')) eqn:Hget;
      [discriminate|].
    apply Map_get_None_keys in Hget. contradiction.
Qed.

Lemma store_entries_stay_keyed_by_chunk_id_witness :
  let s' :=
    Spec.run
      [StoreApi.AddChunks [loginChunk; otherChunk];
       StoreApi.UpdateChunk bareChunk;
       StoreApi.DeleteChunks ["d"%string]]
      (MemoryVectorStore.constructor None) in
  Spec.StoreKeyed s'
  /\ (forall (id : string) (c : CodeChunk.t),
         MemoryVectorStore.getChunkById id s' = Some c ->
         CodeChunk.id c = id)
  /\ NoDup (map (fun r => CodeChunk.id (VectorSearchResult.chunk r))
                (fst (MemoryVectorStore.search "login" 5 s')))
  /\ (forall r,
         In r (fst (MemoryVectorStore.search "login" 5 s')) ->
         MemoryVectorStore.getChunkById
           (CodeChunk.id (VectorSearchResult.chunk r)) s'
         <> None).
Proof.
  apply (store_entries_stay_keyed_by_chunk_id
           (MemoryVectorStore.constructor None)
           [StoreApi.AddChunks [loginChunk; otherChunk];
            StoreApi.UpdateChunk bareChunk;
            StoreApi.DeleteChunks ["d"%string]]
           "login" 5).
  split; constructor.
Defined.

Section AddAndDelete.

Import StoreApi.

(** After the loop of [addChunks] the entry under a key is the one written
    by the last chunk of the batch with that id, or the old one. *)
Lemma stored_entry_is_last_write (pairs : list (CodeChunk.t * list R)) :
  forall (m : Map MemoryVectorStore.StoredChunk) (k : string),
    Map_get k
      (fold_left
         (fun m '(c, e) =>
            Map_set (CodeChunk.id c) (MemoryVectorStore.mkStored c e) m)
         pairs m)
    = match find (fun p => String.eqb (CodeChunk.id (fst p)) k) (rev pairs)
      with
      | Some (c, e) => Some (MemoryVectorStore.mkStored c e)
      | None => Map_get k m
      end.
Proof.
  induction pairs as [|[c0 e0] pairs IH]; intros m k; simpl; auto.
  rewrite IH.
  assert (Hfind : forall (f : CodeChunk.t * list R -> bool) l p,
             find f (l ++ [p])
             = match find f l with
               | Some x => Some x
               | None => if f p then Some p else None
               end).
  { intros f l p. induction l as [|x l IHl]; simpl.
    - now destruct (f p).
    - destruct (f x); auto. }
  rewrite Hfind. simpl.
  destruct (find _ (rev pairs)) as [[c e]|]; auto.
  destruct (String.eqb_spec (CodeChunk.id c0) k) as [<-|Hne].
  - apply Map_get_set_same.
  - apply Map_get_set_other. congruence.
Qed.

Lemma addChunks_keys_present (pairs : list (CodeChunk.t * list R)) :
  forall m : Map MemoryVectorStore.StoredChunk,
    (forall p, In p pairs -> Map_has (CodeChunk.id (fst p)) m = true) ->
    Map_keys
      (fold_left
         (fun m '(c, e) =>
            Map_set (CodeChunk.id c) (MemoryVectorStore.mkStored c e) m)
         pairs m)
    = Map_keys m.
Proof.
  induction pairs as [|[c e] pairs IH]; intros m H; simpl; auto.
  assert (Hc : Map_has (CodeChunk.id c) m = true) by (apply (H (c, e)); now left).
  rewrite IH.
  - now rewrite Map_set_keys, Hc.
  - intros p Hp. apply Map_has_keys. rewrite Map_set_keys, Hc.
    apply Map_has_keys. apply H. now right.
Qed.

End AddAndDelete.

(** X2. After [addChunks] of a batch whose ids are pairwise distinct,
    [getChunkById] returns each chunk of the batch under its id, and every
    id outside the batch still leads to what it led to before. *)
Theorem addChunks_then_getChunkById :
  forall (s : MemoryVectorStore.t) (cs : list CodeChunk.t),
    NoDup (map CodeChunk.id cs) ->
    (forall c, In c cs ->
               MemoryVectorStore.getChunkById (CodeChunk.id c)
                 (MemoryVectorStore.addChunks cs s) = Some c)
    /\ (forall id, ~ In id (map CodeChunk.id cs) ->
                   MemoryVectorStore.getChunkById id
                     (MemoryVectorStore.addChunks cs s)
                   = MemoryVectorStore.getChunkById id s).
Proof.
  intros s cs Hnd.
  unfold MemoryVectorStore.getChunkById, MemoryVectorStore.addChunks.
  pose proof (generateBatch_length (MemoryVectorStore.embeddingGenerator s)
                (map MemoryVectorStore.createChunkText cs)) as Hl.
  destruct (EmbeddingGenerator.generateBatch _ _) as [embeddings g].
  cbn [MemoryVectorStore.chunks MemoryVectorStore.saveToDisk fst] in *.
  rewrite length_map in Hl.
  split.
  - intros c Hc. rewrite stored_entry_is_last_write.
    destruct (batch_entry_has_embedding c cs embeddings) as [e He]; auto.
    destruct (find _ (rev (combine cs embeddings))) as [[c' e']|] eqn:Hf.
    + apply find_some in Hf. destruct Hf as [Hin Heq].
      apply in_rev in Hin. apply String.eqb_eq in Heq. simpl in Heq.
      apply in_combine_l in Hin.
      assert (c' = c) by (eapply NoDup_map_same; eauto). now subst.
    + exfalso.
      assert (Hin : In (c, e) (rev (combine cs embeddings)))
        by now apply in_rev in He.
      apply (find_none _ _ Hf) in Hin. simpl in Hin.
      now rewrite String.eqb_refl in Hin.
  - intros id Hid. rewrite stored_entry_is_last_write.
    destruct (find _ (rev (combine cs embeddings))) as [[c' e']|] eqn:Hf; auto.
    exfalso. apply find_some in Hf. destruct Hf as [Hin Heq].
    apply in_rev in Hin. apply String.eqb_eq in Heq. simpl in Heq.
    apply in_combine_l in Hin. apply Hid. rewrite <- Heq. now apply in_map.
Qed.

Lemma addChunks_then_getChunkById_witness :
  (forall c, In c [loginChunk; otherChunk; bareChunk] ->
             MemoryVectorStore.getChunkById (CodeChunk.id c)
               (MemoryVectorStore.addChunks
                  [loginChunk; otherChunk; bareChunk] loginStore)
             = Some c)
  /\ (forall id,
         ~ In id (map CodeChunk.id [loginChunk; otherChunk; bareChunk]) ->
         MemoryVectorStore.getChunkById id
           (MemoryVectorStore.addChunks
              [loginChunk; otherChunk; bareChunk] loginStore)
         = MemoryVectorStore.getChunkById id loginStore).
Proof.
  apply (addChunks_then_getChunkById loginStore
           [loginChunk; otherChunk; bareChunk]).
  apply distinctb_NoDup. reflexivity.
Defined.

(** X3. Adding chunks whose ids are all in the store already overwrites
    those entries in place: the store keeps its keys, in their order, and
    so its size. *)
Theorem addChunks_with_known_ids_keeps_the_keys :
  forall (s : MemoryVectorStore.t) (cs : list CodeChunk.t),
    (forall c, In c cs ->
               MemoryVectorStore.getChunkById (CodeChunk.id c) s <> None) ->
    Map_keys (MemoryVectorStore.chunks (MemoryVectorStore.addChunks cs s))
    = Map_keys (MemoryVectorStore.chunks s)
    /\ Map_size (MemoryVectorStore.chunks (MemoryVectorStore.addChunks cs s))
       = Map_size (MemoryVectorStore.chunks s).
Proof.
  intros s cs H.
  assert (Hkeys : Map_keys (MemoryVectorStore.chunks
                              (MemoryVectorStore.addChunks cs s))
                  = Map_keys (MemoryVectorStore.chunks s)).
  { unfold MemoryVectorStore.addChunks.
    destruct (EmbeddingGenerator.generateBatch _ _) as [embeddings g].
    cbn [MemoryVectorStore.chunks MemoryVectorStore.saveToDisk].
    apply addChunks_keys_present. intros [c e] Hp. simpl.
    apply in_combine_l in Hp. specialize (H c Hp).
    unfold MemoryVectorStore.getChunkById, Map_has in *.
    destruct (Map_get (CodeChunk.id c) (MemoryVectorStore.chunks s));
      [reflexivity|now elim H]. }
  split; [exact Hkeys|].
  unfold Map_size. rewrite <- !(length_map fst).
  exact (f_equal (@List.length string) Hkeys).
Qed.

Lemma addChunks_with_known_ids_keeps_the_keys_witness :
  Map_keys (MemoryVectorStore.chunks
              (MemoryVectorStore.addChunks [datedChunk] loginStore))
  = Map_keys (MemoryVectorStore.chunks loginStore)
  /\ Map_size (MemoryVectorStore.chunks
                 (MemoryVectorStore.addChunks [datedChunk] loginStore))
     = Map_size (MemoryVectorStore.chunks loginStore).
Proof.
  apply (addChunks_with_known_ids_keeps_the_keys loginStore [datedChunk]).
  intros c [<-|[]]. discriminate.
Defined.

Section DeleteFacts.

Lemma deleteChunks_lookup (ids : list string) :
  forall (m : Map MemoryVectorStore.StoredChunk),
    NoDup (Map_keys m) ->
    let m' := fold_left (fun m id => Map_delete id m) ids m in
    NoDup (Map_keys m')
    /\ incl m' m
    /\ (forall id, In id ids -> Map_get id m' = None)
    /\ (forall id, ~ In id ids -> Map_get id m' = Map_get id m).
Proof.
  induction ids as [|i ids IH]; intros m Hnd; simpl.
  - repeat split; auto using incl_refl. intros id [].
  - destruct (Map_delete_keys_NoDup i m Hnd) as [Hnd' Hgone].
    destruct (IH (Map_delete i m) Hnd') as (H1 & H2 & H3 & H4).
    repeat split; auto.
    + eapply incl_tran; [exact H2|apply Map_delete_incl].
    + intros id [<-|Hin]; [|auto].
      destruct (in_dec string_dec i ids) as [Hi|Hi]; [auto|].
      rewrite H4 by exact Hi. now apply Map_get_None_keys.
    + intros id Hid. rewrite H4 by tauto.
      apply Map_delete_get_other. intros ->. tauto.
Qed.

Lemma getStats_totalChunks (s : MemoryVectorStore.t) :
  StoreApi.totalChunks (MemoryVectorStore.getStats s)
  = Map_size (MemoryVectorStore.chunks s).
Proof.
  unfold MemoryVectorStore.getStats. now rewrite getStats_fold.
Qed.

End DeleteFacts.

(** X4. On a store whose entries are keyed by their chunk's id,
    [deleteChunks(ids)] makes [getChunkById] return nothing for each of
    the ids and leaves every other id as it was; afterwards no search
    result carries one of the deleted ids, and [getStats] counts no more
    chunks than before. *)
Theorem deleteChunks_removes_from_lookup_search_and_stats :
  forall (s : MemoryVectorStore.t) (ids : list string)
         (query : string) (k : nat),
    Spec.StoreKeyed s ->
    let s' := MemoryVectorStore.deleteChunks ids s in
    (forall id, In id ids -> MemoryVectorStore.getChunkById id s' = None)
    /\ (forall id, ~ In id ids ->
                   MemoryVectorStore.getChunkById id s'
                   = MemoryVectorStore.getChunkById id s)
    /\ (forall r, In r (fst (MemoryVectorStore.search query k s')) ->
                  ~ In (CodeChunk.id (VectorSearchResult.chunk r)) ids)
    /\ StoreApi.totalChunks (MemoryVectorStore.getStats s')
       <= StoreApi.totalChunks (MemoryVectorStore.getStats s).
Proof.
  intros s ids query k Hs s'.
  assert (Hk : Spec.StoreKeyed s') by now apply deleteChunks_keyed.
  destruct Hs as [Hnd Hid].
  destruct (deleteChunks_lookup ids (MemoryVectorStore.chunks s) Hnd)
    as (Hnd' & Hincl & Hgone & Hkept).
  unfold MemoryVectorStore.getChunkById. subst s'.
  unfold MemoryVectorStore.deleteChunks in *.
  cbn [MemoryVectorStore.chunks MemoryVectorStore.saveToDisk] in *.
  split; [|split; [|split]].
  - intros id Hin. now rewrite Hgone.
  - intros id Hin. now rewrite Hkept.
  - intros r Hr Hin.
    destruct (search_result_ids query k _ Hk) as [_ Hsub].
    assert (Hkey : In (CodeChunk.id (VectorSearchResult.chunk r))
                      (Map_keys
                         (fold_left (fun m id => Map_delete id m) ids
                            (MemoryVectorStore.chunks s)))).
    { apply Hsub. apply in_map_iff. exists r. split; auto. }
    specialize (Hgone _ Hin). apply Map_get_None_keys in Hgone.
    contradiction.
  - rewrite !getStats_totalChunks.
    cbn [MemoryVectorStore.chunks]. unfold Map_size.
    apply NoDup_incl_length; [|exact Hincl].
    apply (NoDup_map_inv fst). exact Hnd'.
Qed.

Lemma deleteChunks_removes_from_lookup_search_and_stats_witness :
  let s' := MemoryVectorStore.deleteChunks ["d"%string] twoChunkStore in
  (forall id, In id ["d"%string] ->
              MemoryVectorStore.getChunkById id s' = None)
  /\ (forall id, ~ In id ["d"%string] ->
                 MemoryVectorStore.getChunkById id s'
                 = MemoryVectorStore.getChunkById id twoChunkStore)
  /\ (forall r, In r (fst (MemoryVectorStore.search "module" 5 s')) ->
                ~ In (CodeChunk.id (VectorSearchResult.chunk r))
                     ["d"%string])
  /\ StoreApi.totalChunks (MemoryVectorStore.getStats s')
     <= StoreApi.totalChunks (MemoryVectorStore.getStats twoChunkStore).
Proof.
  apply (deleteChunks_removes_from_lookup_search_and_stats twoChunkStore
           ["d"%string] "module" 5).
  apply (addChunks_keyed [otherChunk; bareChunk]
           (MemoryVectorStore.constructor None)).
  split; constructor.
Defined.

Section SearchShape.

Local Open Scope R_scope.

Import Spec.

Lemma search_ranks_by_score (query : string) (k : nat)
  (s : MemoryVectorStore.t) :
  fst (MemoryVectorStore.search query k s)
  = Array_slice0 k
      (Array_sort byScore
         (candidates
            (fst (EmbeddingGenerator.generate
                    (MemoryVectorStore.embeddingGenerator s) query))
            (MemoryVectorStore.chunks s))).
Proof. reflexivity. Qed.

Lemma ascending_insert (x : VectorSearchResult.t)
  (l : list VectorSearchResult.t) :
  Spec.ascending l -> Spec.ascending (sort_insert byScore x l).
Proof.
  induction l as [|y l IH]; simpl; intros H.
  - split; [constructor|exact I].
  - destruct H as [Hy Hl]. unfold byScore at 1. unfold Rltb.
    destruct (Rlt_dec (VectorSearchResult.score y)
                      (VectorSearchResult.score x)) as [Hlt|Hge].
    + simpl. split; [|now apply IH].
      apply (Permutation_Forall
               (Permutation_sym (sort_insert_perm byScore x l))).
      constructor; [lra|exact Hy].
    + simpl. repeat split; auto.
      constructor; [lra|].
      eapply Forall_impl; [|exact Hy]. simpl. intros; lra.
Qed.

Lemma ascending_sort (l : list VectorSearchResult.t) :
  Spec.ascending (Array_sort byScore l).
Proof.
  induction l as [|x l IH]; simpl; [exact I|]. now apply ascending_insert.
Qed.

Lemma ascending_slice (k : nat) (l : list VectorSearchResult.t) :
  Spec.ascending l -> Spec.ascending (Array_slice0 k l).
Proof.
  unfold Array_slice0. revert k.
  induction l as [|x l IH]; intros [|k] H; simpl; auto.
  destruct H as [Hx Hl]. split; [|now apply IH].
  apply Forall_forall. intros e He.
  rewrite Forall_forall in Hx. apply Hx.
  now apply (Array_slice0_In e k l).
Qed.

Lemma stable_insert (v : R) (x : VectorSearchResult.t)
  (l : list VectorSearchResult.t) :
  filter (Spec.hasScore v) (sort_insert byScore x l)
  = filter (Spec.hasScore v) (x :: l).
Proof.
  induction l as [|y l IH]; simpl; auto.
  unfold byScore at 1. unfold Rltb.
  destruct (Rlt_dec (VectorSearchResult.score y)
                    (VectorSearchResult.score x)) as [Hlt|Hge]; auto.
  simpl. rewrite IH. simpl. unfold Spec.hasScore.
  destruct (Req_dec_T (VectorSearchResult.score y) v) as [Hy|Hy];
    destruct (Req_dec_T (VectorSearchResult.score x) v) as [Hx|Hx]; auto.
  exfalso. lra.
Qed.

Lemma stable_sort (v : R) (l : list VectorSearchResult.t) :
  filter (Spec.hasScore v) (Array_sort byScore l)
  = filter (Spec.hasScore v) l.
Proof.
  induction l as [|x l IH]; simpl; auto.
  rewrite stable_insert. simpl. now rewrite IH.
Qed.

Lemma candidates_length (q : list R)
  (m : Map MemoryVectorStore.StoredChunk) :
  List.length (candidates q m) = Map_size m.
Proof. apply length_map. Qed.

End SearchShape.

(** X5. [search(query, k)] returns min(k, store size) results in ascending
    order of score, and each result is a stored chunk paired with its
    distance 1 - cosine to the embedding made for the query. *)
Theorem search_returns_the_k_nearest_in_order :
  forall (s : MemoryVectorStore.t) (query : string) (k : nat),
    let results := fst (MemoryVectorStore.search query k s) in
    let q :=
      fst (EmbeddingGenerator.generate
             (MemoryVectorStore.embeddingGenerator s) query) in
    List.length results = Nat.min k (Map_size (MemoryVectorStore.chunks s))
    /\ Spec.ascending results
    /\ (forall r, In r results ->
          exists key stored,
            In (key, stored) (MemoryVectorStore.chunks s)
            /\ VectorSearchResult.chunk r = MemoryVectorStore.chunk stored
            /\ VectorSearchResult.score r
               = (1 - MemoryVectorStore.cosineSimilarity q
                        (MemoryVectorStore.embedding stored))%R)
    /\ (forall r r',
          In r results ->
          In r' (candidates q (MemoryVectorStore.chunks s)) ->
          ~ In r' results ->
          (VectorSearchResult.score r <= VectorSearchResult.score r')%R).
Proof.
  intros s query k results q. subst results.
  rewrite search_ranks_by_score. fold q.
  set (sorted := Array_sort _ (candidates q (MemoryVectorStore.chunks s))).
  assert (Hasc : Spec.ascending sorted) by apply ascending_sort.
  split; [|split; [|split]].
  - unfold Array_slice0. rewrite length_firstn. unfold sorted.
    now rewrite Array_sort_length, candidates_length.
  - now apply ascending_slice.
  - intros r Hr. apply Array_slice0_In in Hr.
    apply Array_sort_In in Hr. unfold candidates in Hr.
    apply in_map_iff in Hr. destruct Hr as ([key stored] & <- & Hin).
    exists key, stored. simpl. auto.
  - intros r r' Hr Hr' Hout.
    assert (Hs : In r' sorted) by now apply Array_sort_In.
    unfold Array_slice0 in *.
    rewrite <- (firstn_skipn k sorted) in Hs, Hasc.
    apply in_app_or in Hs. destruct Hs as [Hs|Hs]; [contradiction|].
    clear Hout Hr'. revert Hr Hs Hasc.
    generalize (firstn k sorted) (skipn k sorted).
    induction l as [|x l IH]; simpl; intros l2 Hr Hs Hasc;
      [contradiction|].
    destruct Hasc as [Hx Hl]. destruct Hr as [->|Hr]; [|eauto].
    rewrite Forall_forall in Hx. apply Hx, in_or_app. now right.
Qed.

(** X6. The ranking is stable: stored chunks at the same distance from the
    query come in the order of their insertion into the store.  For [k] no
    smaller than the store, the results with a given score are the
    candidates with that score, in their order. *)
Theorem search_breaks_ties_by_insertion_order :
  forall (s : MemoryVectorStore.t) (query : string) (k : nat) (v : R),
    Map_size (MemoryVectorStore.chunks s) <= k ->
    filter (Spec.hasScore v) (fst (MemoryVectorStore.search query k s))
    = filter (Spec.hasScore v)
        (candidates
           (fst (EmbeddingGenerator.generate
                   (MemoryVectorStore.embeddingGenerator s) query))
           (MemoryVectorStore.chunks s)).
Proof.
  intros s query k v Hk. rewrite search_ranks_by_score.
  unfold Array_slice0. rewrite firstn_all2.
  - apply stable_sort.
  - now rewrite Array_sort_length, candidates_length.
Qed.

Lemma search_breaks_ties_by_insertion_order_witness :
  filter (Spec.hasScore 1)
    (fst (MemoryVectorStore.search
            (MemoryVectorStore.createChunkText bareChunk) 2 twoChunkStore))
  = filter (Spec.hasScore 1)
      (candidates
         (fst (EmbeddingGenerator.generate
                 (MemoryVectorStore.embeddingGenerator twoChunkStore)
                 (MemoryVectorStore.createChunkText bareChunk)))
         (MemoryVectorStore.chunks twoChunkStore)).
Proof.
  apply (search_breaks_ties_by_insertion_order twoChunkStore
           (MemoryVectorStore.createChunkText bareChunk) 2 1).
  reflexivity.
Defined.

Section CosineMore.

Local Open Scope R_scope.

Lemma combine_swap_sums (a b : list R) :
  dotOf (combine b a) = dotOf (combine a b)
  /\ leftOf (combine b a) = rightOf (combine a b)
  /\ rightOf (combine b a) = leftOf (combine a b).
Proof.
  revert b. induction a as [|x a IH]; intros [|y b]; simpl; auto.
  destruct (IH b) as (-> & -> & ->). repeat split; ring.
Qed.

End CosineMore.

(** X7. [cosineSimilarity] of two vectors of the same length does not
    depend on their order, and it is 0 when one of the two has no
    component other than 0: the guard on the norms returns 0 and nothing
    is divided. *)
Theorem cosineSimilarity_is_symmetric_and_0_on_zero_vectors :
  forall a b : list R,
    List.length a = List.length b ->
    MemoryVectorStore.cosineSimilarity a b
    = MemoryVectorStore.cosineSimilarity b a
    /\ (Forall (fun x => x = 0%R) a \/ Forall (fun x => x = 0%R) b ->
        MemoryVectorStore.cosineSimilarity a b = 0%R).
Proof.
  intros a b _.
  assert (Hsym : MemoryVectorStore.cosineSimilarity a b
                 = MemoryVectorStore.cosineSimilarity b a).
  { rewrite !cosineSimilarity_sums. cbv zeta.
    destruct (combine_swap_sums a b) as (-> & -> & ->).
    destruct (Req_dec_T (sqrt (leftOf (combine a b))) 0);
      destruct (Req_dec_T (sqrt (rightOf (combine a b))) 0); auto.
    now rewrite Rmult_comm. }
  split; [exact Hsym|].
  intros [Ha|Hb].
  - now apply cosineSimilarity_zero_query.
  - rewrite Hsym. now apply cosineSimilarity_zero_query.
Qed.

Lemma cosineSimilarity_is_symmetric_and_0_on_zero_vectors_witness :
  MemoryVectorStore.cosineSimilarity [1; 0; 2]%R [0; 0; 0]%R
  = MemoryVectorStore.cosineSimilarity [0; 0; 0]%R [1; 0; 2]%R
  /\ (Forall (fun x => x = 0%R) [1; 0; 2]%R
      \/ Forall (fun x => x = 0%R) [0; 0; 0]%R ->
      MemoryVectorStore.cosineSimilarity [1; 0; 2]%R [0; 0; 0]%R = 0%R).
Proof.
  apply (cosineSimilarity_is_symmetric_and_0_on_zero_vectors
           [1; 0; 2]%R [0; 0; 0]%R).
  reflexivity.
Defined.

Section NonNegativeFacts.

Local Open Scope R_scope.
Import EmbeddingGenerator StoreApi.

Lemma ln_nonneg (x : R) : 1 <= x -> 0 <= ln x.
Proof.
  intros [H|<-]; [|rewrite ln_1; lra].
  rewrite <- ln_1. left. apply ln_increasing; lra.
Qed.

Lemma ratio_nonneg (a b : nat) : 0 <= INR a / INR b.
Proof.
  unfold Rdiv. apply Rmult_le_pos; [apply pos_INR|].
  destruct b as [|b]; [simpl; rewrite Rinv_0; lra|].
  left. apply Rinv_0_lt_compat. apply lt_0_INR. lia.
Qed.

Lemma documentCount_bound (docs : list string) (token : string) :
  (documentCount docs token <= List.length docs)%nat.
Proof. unfold documentCount. apply filter_length_le. Qed.

(** An IDF score is the logarithm of a ratio that is at least 1. *)
Lemma idf_score_nonneg (docs : list string) (token : string) :
  (0 < documentCount docs token)%nat ->
  0 <= ln (INR (match List.length docs with O => 1%nat | n => n end)
           / INR (documentCount docs token)).
Proof.
  intros Hpos. pose proof (documentCount_bound docs token) as Hle.
  apply ln_nonneg.
  destruct (List.length docs) as [|n] eqn:Hn; [lia|].
  assert (Hdc : 0 < INR (documentCount docs token)) by now apply lt_0_INR.
  apply (Rmult_le_reg_r (INR (documentCount docs token))); [exact Hdc|].
  unfold Rdiv. rewrite Rmult_assoc, Rinv_l by lra.
  rewrite Rmult_1_l, Rmult_1_r. now apply le_INR.
Qed.

Lemma computeIDF_nonneg (vocab : Map nat) (docs : list string) :
  Forall (fun x => 0 <= x) (Map_values (computeIDF vocab docs)).
Proof.
  unfold computeIDF. cbv zeta.
  assert (H : forall (l : Map nat) (idf : Map R),
             Forall (fun x => 0 <= x) (Map_values idf) ->
             Forall (fun x => 0 <= x)
               (Map_values
                  (fold_left
                     (fun idf '(token, _) =>
                        if (0 <? documentCount docs token)%nat
                        then Map_set token
                               (ln (INR (match List.length docs with
                                         | O => 1%nat | n => n end)
                                    / INR (documentCount docs token))) idf
                        else idf) l idf))).
  { induction l as [|[token i] l IH]; intros idf Hidf; simpl; auto.
    apply IH. destruct (Nat.ltb_spec 0 (documentCount docs token)); auto.
    apply Map_set_values; auto. now apply idf_score_nonneg. }
  apply H. constructor.
Qed.

Lemma Map_get_value {V : Type} (P : V -> Prop) (k : string) (m : Map V)
  (v : V) :
  Forall P (Map_values m) -> Map_get k m = Some v -> P v.
Proof.
  intros H Hget. apply Map_get_In in Hget.
  rewrite Forall_forall in H. apply H.
  unfold Map_values. change v with (snd (k, v)). now apply in_map.
Qed.

Lemma Array_set_Forall {A : Type} (P : A -> Prop) (i : nat) (v : A)
  (a : list A) :
  P v -> Forall P a -> Forall P (Array_set i v a).
Proof.
  intros Hv H. revert i.
  induction H as [|x a Hx Ha IH]; intros [|i]; simpl; constructor; auto.
Qed.

Lemma nth_nonneg (i : nat) (v : list R) :
  Spec.NonNegative v -> 0 <= nth i v 0.
Proof.
  intros H. revert i.
  induction H as [|x v Hx Hv IH]; intros [|i]; simpl; auto; lra.
Qed.

Lemma computeTF_nonneg (tokens : list string) :
  Forall (fun x => 0 <= x) (Map_values (computeTF tokens)).
Proof.
  unfold computeTF, Map_values. cbv zeta. rewrite map_map.
  apply Forall_map, Forall_forall. intros [token count] _. simpl.
  apply ratio_nonneg.
Qed.

Lemma addToken_nonneg (g : t) (vector : list R) (entry : string * R) :
  Forall (fun x => 0 <= x) (Map_values (idfScores g)) ->
  0 <= snd entry ->
  Spec.NonNegative vector -> Spec.NonNegative (addToken g vector entry).
Proof.
  intros Hidf Htf Hv. unfold addToken. destruct entry as [token tfScore].
  simpl in Htf.
  assert (Hs : 0 <= match Map_get token (idfScores g) with
                    | Some s => s | None => 0 end).
  { destruct (Map_get token (idfScores g)) eqn:Hget; [|lra].
    exact (Map_get_value _ _ _ _ Hidf Hget). }
  destruct (Map_get token (vocabulary g)) as [index|]; auto.
  destruct (index <? dimension)%nat; apply Array_set_Forall; auto.
  - now apply Rmult_le_pos.
  - pose proof (nth_nonneg
                  (Z.to_nat (Z.abs (Z.rem (simpleHash token)
                                          (Z.of_nat dimension)))) vector Hv).
    pose proof (Rmult_le_pos _ _ Htf Hs). lra.
Qed.

Lemma addSemanticFeatures_nonneg (text : string) (vector : list R) :
  Spec.NonNegative vector ->
  Spec.NonNegative (addSemanticFeatures text vector).
Proof.
  unfold addSemanticFeatures. cbv zeta. intros Hv.
  assert (H1 : forall (fs : list (list string * nat)) (v : list R),
             Spec.NonNegative v ->
             Spec.NonNegative
               (fold_left
                  (fun v '(keywords, index) =>
                     let count :=
                       List.length
                         (filter (fun kw => includes (toLowerCase text) kw)
                                 keywords) in
                     if (0 <? count)%nat && (index <? dimension)%nat
                     then Array_set index
                            (INR count / INR (List.length keywords)) v
                     else v) fs v)).
  { induction fs as [|[kws i] fs IH]; intros v Hnn; simpl; auto.
    apply IH. destruct ((0 <? _)%nat && (i <? dimension)%nat); auto.
    apply Array_set_Forall; auto. apply ratio_nonneg. }
  assert (H2 : forall (ps : list (Pattern * nat)) (v : list R),
             Spec.NonNegative v ->
             Spec.NonNegative
               (fold_left
                  (fun v '(pattern, index) =>
                     let matches := match_count pattern text in
                     if (0 <? matches)%nat && (index <? dimension)%nat
                     then Array_set index (Rmin (INR matches / 10) 1) v
                     else v) ps v)).
  { induction ps as [|[p i] ps IH]; intros v Hnn; simpl; auto.
    apply IH. destruct ((0 <? _)%nat && (i <? dimension)%nat); auto.
    apply Array_set_Forall; auto.
    apply Rmin_glb; [|lra].
    unfold Rdiv. apply Rmult_le_pos; [apply pos_INR|lra]. }
  apply H2, H1, Hv.
Qed.

Lemma textToVector_nonneg (g : t) (text : string) :
  Forall (fun x => 0 <= x) (Map_values (idfScores g)) ->
  Spec.NonNegative (textToVector g text).
Proof.
  intros Hidf.
  assert (Hraw : Spec.NonNegative (rawVector g text)).
  { unfold rawVector. cbv zeta. apply addSemanticFeatures_nonneg.
    pose proof (computeTF_nonneg (tokenize text)) as Htf.
    unfold Map_values in Htf. rewrite Forall_map in Htf.
    revert Htf. generalize (computeTF (tokenize text)).
    assert (H0 : Spec.NonNegative (repeat 0 dimension)).
    { apply Forall_forall. intros x Hx. apply repeat_spec in Hx. lra. }
    revert H0. generalize (repeat 0 dimension).
    intros v Hv tf Htf. revert v Hv.
    induction Htf as [|e tf He Htf IH]; intros v Hv; simpl; auto.
    apply IH. now apply addToken_nonneg. }
  unfold textToVector. cbv zeta.
  destruct (Rgt_dec (magnitude (rawVector g text)) 0) as [Hm|Hm]; auto.
  apply Forall_map. eapply Forall_impl; [|exact Hraw].
  intros x Hx. simpl. unfold Rdiv. apply Rmult_le_pos; auto.
  left. now apply Rinv_0_lt_compat.
Qed.

Lemma generate_nonneg (g : t) (text : string) :
  Spec.NonNegative (fst (generate g text)).
Proof. apply textToVector_nonneg, computeIDF_nonneg. Qed.

Lemma generateBatch_nonneg (g : t) (texts : list string) :
  Forall Spec.NonNegative (fst (generateBatch g texts)).
Proof.
  unfold generateBatch. cbv zeta. cbn [fst].
  apply Forall_map, Forall_forall. intros text _.
  apply textToVector_nonneg, computeIDF_nonneg.
Qed.

Lemma addChunks_nonneg (cs : list CodeChunk.t) (s : MemoryVectorStore.t) :
  Spec.StoreNonNegative s ->
  Spec.StoreNonNegative (MemoryVectorStore.addChunks cs s).
Proof.
  unfold Spec.StoreNonNegative, MemoryVectorStore.addChunks. intros H.
  pose proof (generateBatch_nonneg (MemoryVectorStore.embeddingGenerator s)
                (map MemoryVectorStore.createChunkText cs)) as Hb.
  destruct (generateBatch _ _) as [embeddings g].
  cbn [fst MemoryVectorStore.chunks MemoryVectorStore.saveToDisk] in *.
  assert (Hp : Forall (fun p => Spec.NonNegative (snd p))
                      (combine cs embeddings)).
  { apply Forall_forall. intros [c e] Hin. simpl.
    rewrite Forall_forall in Hb. apply Hb. eapply in_combine_r; eauto. }
  revert Hp H. generalize (combine cs embeddings) (MemoryVectorStore.chunks s).
  induction l as [|[c e] l IH]; intros m Hp Hm; simpl; auto.
  inversion Hp; subst. apply IH; auto.
  apply Map_set_values; auto.
Qed.

Lemma updateChunk_nonneg (c : CodeChunk.t) (s : MemoryVectorStore.t) :
  Spec.StoreNonNegative s ->
  Spec.StoreNonNegative (MemoryVectorStore.updateChunk c s).
Proof.
  unfold Spec.StoreNonNegative, MemoryVectorStore.updateChunk. intros H.
  pose proof (generate_nonneg (MemoryVectorStore.embeddingGenerator s)
                (MemoryVectorStore.createChunkText c)) as Hg.
  destruct (generate _ _) as [e g].
  cbn [fst MemoryVectorStore.chunks MemoryVectorStore.saveToDisk] in *.
  apply Map_set_values; auto.
Qed.

Lemma deleteChunks_nonneg (ids : list string) (s : MemoryVectorStore.t) :
  Spec.StoreNonNegative s ->
  Spec.StoreNonNegative (MemoryVectorStore.deleteChunks ids s).
Proof.
  unfold Spec.StoreNonNegative, MemoryVectorStore.deleteChunks.
  cbn [MemoryVectorStore.chunks MemoryVectorStore.saveToDisk].
  generalize (MemoryVectorStore.chunks s).
  induction ids as [|i ids IH]; intros m H; simpl; auto.
  apply IH. now apply Map_delete_values.
Qed.

Lemma run_nonneg (ops : list Operation) (s : MemoryVectorStore.t) :
  Spec.StoreNonNegative s -> Spec.StoreNonNegative (Spec.run ops s).
Proof.
  unfold Spec.run. revert s.
  induction ops as [|op ops IH]; intros s H; simpl; auto.
  apply IH. unfold Spec.after, MemoryVectorStore.call.
  destruct op as [cs|q k|c k|i k|i|c|ids|]; try exact H.
  - now apply addChunks_nonneg.
  - pose proof (getRelatedChunks_keeps_chunks i k s) as Hk.
    destruct (MemoryVectorStore.getRelatedChunks i k s) as [r s'].
    unfold Spec.StoreNonNegative. simpl in Hk. now rewrite Hk.
  - now apply updateChunk_nonneg.
  - now apply deleteChunks_nonneg.
Qed.

Lemma dotOf_nonneg (a b : list R) :
  Spec.NonNegative a -> Spec.NonNegative b -> 0 <= dotOf (combine a b).
Proof.
  intros Ha. revert b.
  induction Ha as [|x a Hx Ha IH]; intros b Hb; simpl; [lra|].
  destruct Hb as [|y b Hy Hb]; simpl; [lra|].
  pose proof (IH b Hb). pose proof (Rmult_le_pos _ _ Hx Hy). lra.
Qed.

Lemma cosineSimilarity_nonneg (a b : list R) :
  Spec.NonNegative a -> Spec.NonNegative b ->
  0 <= MemoryVectorStore.cosineSimilarity a b.
Proof.
  intros Ha Hb. rewrite cosineSimilarity_sums. cbv zeta.
  pose proof (dotOf_nonneg a b Ha Hb) as Hd.
  pose proof (sqrt_pos (leftOf (combine a b))).
  pose proof (sqrt_pos (rightOf (combine a b))).
  destruct (Req_dec_T (sqrt (leftOf (combine a b))) 0); [lra|].
  destruct (Req_dec_T (sqrt (rightOf (combine a b))) 0); [lra|].
  unfold Rdiv. apply Rmult_le_pos; auto.
  left. apply Rinv_0_lt_compat. apply Rmult_lt_0_compat; lra.
Qed.

End NonNegativeFacts.

(** X8. No component of an embedding is negative: term frequencies, IDF
    scores (logarithms of ratios that are at least 1) and the keyword and
    punctuation features are not.  Hence, on a store built by store
    operations from one whose embeddings have no negative component (the
    empty store, for one), no score [search] returns is above 1. *)
Theorem embeddings_are_non_negative_and_scores_at_most_1 :
  forall (s : MemoryVectorStore.t) (ops : list StoreApi.Operation)
         (query : string) (k : nat),
    Spec.StoreNonNegative s ->
    Spec.NonNegative
      (fst (EmbeddingGenerator.generate
              (MemoryVectorStore.embeddingGenerator (Spec.run ops s)) query))
    /\ Spec.StoreNonNegative (Spec.run ops s)
    /\ Forall (fun r => (VectorSearchResult.score r <= 1)%R)
              (fst (MemoryVectorStore.search query k (Spec.run ops s))).
Proof.
  intros s ops query k Hs.
  assert (Hrun : Spec.StoreNonNegative (Spec.run ops s))
    by now apply run_nonneg.
  split; [apply generate_nonneg|]. split; [exact Hrun|].
  apply Forall_forall. intros r Hr.
  rewrite search_ranks_candidates in Hr.
  apply Array_slice0_In in Hr. apply Array_sort_In in Hr.
  unfold candidates in Hr. apply in_map_iff in Hr.
  destruct Hr as ([key stored] & <- & Hin).
  cbn [VectorSearchResult.score].
  assert (Hge : (0 <= MemoryVectorStore.cosineSimilarity
                        (fst (EmbeddingGenerator.generate
                                (MemoryVectorStore.embeddingGenerator
                                   (Spec.run ops s)) query))
                        (MemoryVectorStore.embedding stored))%R).
  { apply cosineSimilarity_nonneg; [apply generate_nonneg|].
    unfold Spec.StoreNonNegative in Hrun. rewrite Forall_forall in Hrun.
    apply Hrun. unfold Map_values.
    change stored with (snd (key, stored)). now apply in_map. }
  lra.
Qed.

Lemma embeddings_are_non_negative_and_scores_at_most_1_witness :
  let s' :=
    Spec.run [StoreApi.AddChunks [loginChunk; otherChunk];
              StoreApi.UpdateChunk bareChunk]
      (MemoryVectorStore.constructor None) in
  Spec.NonNegative
    (fst (EmbeddingGenerator.generate
            (MemoryVectorStore.embeddingGenerator s') "login user pass"))
  /\ Spec.StoreNonNegative s'
  /\ Forall (fun r => (VectorSearchResult.score r <= 1)%R)
            (fst (MemoryVectorStore.search "login user pass" 2 s')).
Proof.
  apply (embeddings_are_non_negative_and_scores_at_most_1
           (MemoryVectorStore.constructor None)
           [StoreApi.AddChunks [loginChunk; otherChunk];
            StoreApi.UpdateChunk bareChunk]
           "login user pass" 2).
  constructor.
Defined.

(* ================================================================== *)
(** * Further properties: the snapshot, read back                     *)
(* ================================================================== *)

Section SnapshotFacts.

Import StoreApi.

Lemma JSON_chunk_plain (c : CodeChunk.t) :
  Spec.plain c -> MemoryVectorStore.JSON_chunk c = c.
Proof.
  unfold Spec.plain, MemoryVectorStore.JSON_chunk.
  destruct c as [i f ct ty n sl el la p [sg d dp cx lm]]. simpl.
  destruct lm as [[ms|ms]|]; simpl; intros H; try contradiction; reflexivity.
Qed.

Lemma getStats_of_snapshot (l : Map MemoryVectorStore.StoredChunk)
  (st : Stats) :
  fold_left
    (fun stats '(_, storedChunk) =>
       let c := MemoryVectorStore.chunk storedChunk in
       mkStats (totalChunks stats)
         (MemoryVectorStore.increment (CodeChunk.type c) (chunksByType stats))
         (MemoryVectorStore.increment (CodeChunk.language c)
            (chunksByLanguage stats)))
    (map (fun '(id, stored) =>
            (id,
             MemoryVectorStore.mkStored
               (MemoryVectorStore.JSON_chunk (MemoryVectorStore.chunk stored))
               (MemoryVectorStore.embedding stored))) l) st
  = fold_left
      (fun stats '(_, storedChunk) =>
         let c := MemoryVectorStore.chunk storedChunk in
         mkStats (totalChunks stats)
           (MemoryVectorStore.increment (CodeChunk.type c)
              (chunksByType stats))
           (MemoryVectorStore.increment (CodeChunk.language c)
              (chunksByLanguage stats)))
      l st.
Proof.
  revert st. induction l as [|[k sc] l IH]; intros st; simpl; auto.
Qed.

Lemma Map_get_map {V W : Type} (f : V -> W) (k : string) (m : Map V) :
  Map_get k (map (fun '(id, v) => (id, f v)) m) = option_map f (Map_get k m).
Proof.
  induction m as [|[k' v] m IH]; simpl; auto.
  now destruct (String.eqb k k').
Qed.

Lemma writes_file (op : Operation) (s : MemoryVectorStore.t) :
  Spec.writes op = true ->
  MemoryVectorStore.file (Spec.after op s)
  = MemoryVectorStore.file (MemoryVectorStore.saveToDisk (Spec.after op s)).
Proof.
  unfold Spec.after, MemoryVectorStore.call.
  destruct op as [cs|q k|c k|i k|i|c|ids|]; intros Hw;
    try discriminate Hw.
  - unfold MemoryVectorStore.addChunks.
    now destruct (EmbeddingGenerator.generateBatch _ _).
  - unfold MemoryVectorStore.updateChunk.
    now destruct (EmbeddingGenerator.generate _ _).
  - reflexivity.
Qed.

End SnapshotFacts.

(** X9. After [addChunks], [updateChunk] or [deleteChunks] on a store
    keyed by chunk ids, a new store constructed from the snapshot the call
    wrote has the same ids in the same order, the same embeddings and the
    same statistics; [getChunkById] returns the chunk as JSON renders it
    (the very same chunk if it holds no [Date]).  The generator of the new
    store is a new one: documents, vocabulary and IDF scores are not part
    of the snapshot. *)
Theorem snapshot_restores_chunks_but_not_the_corpus :
  forall (s : MemoryVectorStore.t) (op : StoreApi.Operation),
    Spec.StoreKeyed s ->
    Spec.writes op = true ->
    let s1 := Spec.after op s in
    let s2 := MemoryVectorStore.constructor (MemoryVectorStore.file s1) in
    Map_keys (MemoryVectorStore.chunks s2)
    = Map_keys (MemoryVectorStore.chunks s1)
    /\ (forall id,
           MemoryVectorStore.getChunkById id s2
           = option_map MemoryVectorStore.JSON_chunk
               (MemoryVectorStore.getChunkById id s1))
    /\ (forall id,
           option_map MemoryVectorStore.embedding
             (Map_get id (MemoryVectorStore.chunks s2))
           = option_map MemoryVectorStore.embedding
               (Map_get id (MemoryVectorStore.chunks s1)))
    /\ MemoryVectorStore.getStats s2 = MemoryVectorStore.getStats s1
    /\ MemoryVectorStore.embeddingGenerator s2 = EmbeddingGenerator.new
    /\ (Forall (fun sc => Spec.plain (MemoryVectorStore.chunk sc))
               (Map_values (MemoryVectorStore.chunks s1)) ->
        MemoryVectorStore.chunks s2 = MemoryVectorStore.chunks s1).
Proof.
  intros s op Hs Hw s1 s2.
  assert (Hk : Spec.StoreKeyed s1) by now apply after_keyed.
  assert (Hc : MemoryVectorStore.chunks s2
               = map (fun '(id, stored) =>
                        (id,
                         MemoryVectorStore.mkStored
                           (MemoryVectorStore.JSON_chunk
                              (MemoryVectorStore.chunk stored))
                           (MemoryVectorStore.embedding stored)))
                     (MemoryVectorStore.chunks s1)).
  { unfold s2, s1. rewrite writes_file by exact Hw.
    apply reload_keeps_ids_and_embeddings, Hk. }
  refine (conj _ (conj _ (conj _ (conj _ (conj _ _))))).
  - rewrite Hc. unfold Map_keys. rewrite map_map.
    apply map_ext. now intros [id sc].
  - intros id. unfold MemoryVectorStore.getChunkById. rewrite Hc.
    rewrite (Map_get_map
               (fun stored =>
                  MemoryVectorStore.mkStored
                    (MemoryVectorStore.JSON_chunk
                       (MemoryVectorStore.chunk stored))
                    (MemoryVectorStore.embedding stored))).
    now destruct (Map_get id (MemoryVectorStore.chunks s1)).
  - intros id. rewrite Hc.
    rewrite (Map_get_map
               (fun stored =>
                  MemoryVectorStore.mkStored
                    (MemoryVectorStore.JSON_chunk
                       (MemoryVectorStore.chunk stored))
                    (MemoryVectorStore.embedding stored))).
    now destruct (Map_get id (MemoryVectorStore.chunks s1)).
  - unfold MemoryVectorStore.getStats. rewrite Hc.
    rewrite getStats_of_snapshot. unfold Map_size. now rewrite length_map.
  - unfold s2, MemoryVectorStore.constructor, MemoryVectorStore.loadFromDisk.
    cbn [MemoryVectorStore.file].
    now destruct (MemoryVectorStore.file s1).
  - intros Hp. rewrite Hc. clear Hc.
    unfold Map_values in Hp. rewrite Forall_map in Hp.
    induction Hp as [|[id sc] l Hx Hl IH]; simpl; auto.
    simpl in Hx. rewrite JSON_chunk_plain by exact Hx. rewrite IH.
    now destruct sc.
Qed.

Lemma snapshot_restores_chunks_but_not_the_corpus_witness :
  let s1 := Spec.after (StoreApi.AddChunks [datedChunk; otherChunk])
              (MemoryVectorStore.constructor None) in
  let s2 := MemoryVectorStore.constructor (MemoryVectorStore.file s1) in
  Map_keys (MemoryVectorStore.chunks s2)
  = Map_keys (MemoryVectorStore.chunks s1)
  /\ (forall id,
         MemoryVectorStore.getChunkById id s2
         = option_map MemoryVectorStore.JSON_chunk
             (MemoryVectorStore.getChunkById id s1))
  /\ (forall id,
         option_map MemoryVectorStore.embedding
           (Map_get id (MemoryVectorStore.chunks s2))
         = option_map MemoryVectorStore.embedding
             (Map_get id (MemoryVectorStore.chunks s1)))
  /\ MemoryVectorStore.getStats s2 = MemoryVectorStore.getStats s1
  /\ MemoryVectorStore.embeddingGenerator s2 = EmbeddingGenerator.new
  /\ (Forall (fun sc => Spec.plain (MemoryVectorStore.chunk sc))
             (Map_values (MemoryVectorStore.chunks s1)) ->
      MemoryVectorStore.chunks s2 = MemoryVectorStore.chunks s1).
Proof.
  apply (snapshot_restores_chunks_but_not_the_corpus
           (MemoryVectorStore.constructor None)
           (StoreApi.AddChunks [datedChunk; otherChunk])).
  - split; constructor.
  - reflexivity.
Defined.

(* ================================================================== *)
(** * Further properties: the corpus of the generator                 *)
(* ================================================================== *)

Section CorpusFacts.

Import StoreApi EmbeddingGenerator.

Lemma absorb_documents (texts : list string) (g : t) :
  documents (fold_left absorb texts g) = documents g ++ texts.
Proof.
  revert g. induction texts as [|text texts IH]; intros g; simpl.
  - now rewrite app_nil_r.
  - rewrite IH. simpl. now rewrite <- app_assoc.
Qed.

Lemma absorb_keeps_indices (texts : list string) (g : t) (token : string)
  (i : nat) :
  Map_get token (vocabulary g) = Some i ->
  Map_get token (vocabulary (fold_left absorb texts g)) = Some i.
Proof.
  revert g. induction texts as [|text texts IH]; intros g H; simpl; auto.
  apply IH. simpl. now apply updateVocabulary_keeps_indices.
Qed.

Lemma generateBatch_documents (g : t) (texts : list string) :
  documents (snd (generateBatch g texts)) = documents g ++ texts.
Proof. unfold generateBatch. cbn [snd documents]. apply absorb_documents. Qed.

Lemma generateBatch_keeps_indices (g : t) (texts : list string)
  (token : string) (i : nat) :
  Map_get token (vocabulary g) = Some i ->
  Map_get token (vocabulary (snd (generateBatch g texts))) = Some i.
Proof.
  unfold generateBatch. cbn [snd vocabulary]. apply absorb_keeps_indices.
Qed.

Lemma generate_keeps_indices (g : t) (text : string) (token : string)
  (i : nat) :
  Map_get token (vocabulary g) = Some i ->
  Map_get token (vocabulary (snd (generate g text))) = Some i.
Proof.
  unfold generate, learn. cbn [snd vocabulary].
  apply updateVocabulary_keeps_indices.
Qed.

Lemma CorpusExtends_refl (g : t) : Spec.CorpusExtends g g.
Proof.
  split; auto. exists []. now rewrite app_nil_r.
Qed.

Lemma CorpusExtends_trans (g1 g2 g3 : t) :
  Spec.CorpusExtends g1 g2 -> Spec.CorpusExtends g2 g3 ->
  Spec.CorpusExtends g1 g3.
Proof.
  intros [[a Ha] Hv] [[b Hb] Hw]. split; auto.
  exists (a ++ b). now rewrite Hb, Ha, app_assoc.
Qed.

Lemma generate_extends (g : t) (text : string) :
  Spec.CorpusExtends g (snd (generate g text)).
Proof.
  split.
  - exists [text]. apply generate_documents.
  - intros token i. apply generate_keeps_indices.
Qed.

Lemma generateBatch_extends (g : t) (texts : list string) :
  Spec.CorpusExtends g (snd (generateBatch g texts)).
Proof.
  split.
  - exists texts. apply generateBatch_documents.
  - intros token i. apply generateBatch_keeps_indices.
Qed.

Lemma search_generator (q : string) (k : nat) (s : MemoryVectorStore.t) :
  MemoryVectorStore.embeddingGenerator (snd (MemoryVectorStore.search q k s))
  = snd (generate (MemoryVectorStore.embeddingGenerator s) q).
Proof. reflexivity. Qed.

Lemma search_file (q : string) (k : nat) (s : MemoryVectorStore.t) :
  MemoryVectorStore.file (snd (MemoryVectorStore.search q k s))
  = MemoryVectorStore.file s.
Proof. reflexivity. Qed.

Lemma after_extends (op : Operation) (s : MemoryVectorStore.t) :
  Spec.CorpusExtends (MemoryVectorStore.embeddingGenerator s)
    (MemoryVectorStore.embeddingGenerator (Spec.after op s)).
Proof.
  unfold Spec.after, MemoryVectorStore.call.
  destruct op as [cs|q k|c k|i k|i|c|ids|]; try apply CorpusExtends_refl.
  - unfold MemoryVectorStore.addChunks.
    pose proof (generateBatch_extends
                  (MemoryVectorStore.embeddingGenerator s)
                  (map MemoryVectorStore.createChunkText cs)) as H.
    now destruct (generateBatch _ _).
  - apply generate_extends.
  - apply generate_extends.
  - unfold MemoryVectorStore.getRelatedChunks.
    destruct (MemoryVectorStore.getChunkById i s) as [c|];
      [apply generate_extends|apply CorpusExtends_refl].
  - unfold MemoryVectorStore.updateChunk.
    pose proof (generate_extends (MemoryVectorStore.embeddingGenerator s)
                  (MemoryVectorStore.createChunkText c)) as H.
    now destruct (generate _ _).
Qed.

Lemma run_extends (ops : list Operation) (s : MemoryVectorStore.t) :
  Spec.CorpusExtends (MemoryVectorStore.embeddingGenerator s)
    (MemoryVectorStore.embeddingGenerator (Spec.run ops s)).
Proof.
  unfold Spec.run. revert s.
  induction ops as [|op ops IH]; intros s; simpl.
  - apply CorpusExtends_refl.
  - eapply CorpusExtends_trans; [apply after_extends|apply IH].
Qed.

Lemma reads_leave_the_store (op : Operation) (s : MemoryVectorStore.t) :
  Spec.writes op = false -> Spec.StoreUnchanged s (Spec.after op s).
Proof.
  unfold Spec.after, MemoryVectorStore.call, Spec.StoreUnchanged.
  destruct op as [cs|q k|c k|i k|i|c|ids|]; intros Hw; try discriminate Hw;
    try (split; reflexivity).
  unfold MemoryVectorStore.getRelatedChunks.
  destruct (MemoryVectorStore.getChunkById i s) as [c|]; split; reflexivity.
Qed.

End CorpusFacts.

(** X10. The generator of a store only ever takes texts in.  Over any
    sequence of store operations the documents it had stay at the front of
    its list and every token keeps its vocabulary index.  [search] is not
    a read as far as the generator goes: it appends the query to the
    documents; [addChunks] appends the text of every chunk; [deleteChunks]
    and [clearAll] leave the generator as it is, so the texts of deleted
    chunks keep weighing on the IDF scores.  The operations that are not
    [addChunks], [updateChunk] or [deleteChunks] change neither the chunks
    nor the snapshot on disk. *)
Theorem corpus_only_grows :
  forall (s : MemoryVectorStore.t) (ops : list StoreApi.Operation),
    let generatorOf := MemoryVectorStore.embeddingGenerator in
    Spec.CorpusExtends (generatorOf s) (generatorOf (Spec.run ops s))
    /\ (forall q k,
           EmbeddingGenerator.documents
             (generatorOf (Spec.after (StoreApi.Search q k) s))
           = EmbeddingGenerator.documents (generatorOf s) ++ [q])
    /\ (forall cs,
           EmbeddingGenerator.documents
             (generatorOf (Spec.after (StoreApi.AddChunks cs) s))
           = EmbeddingGenerator.documents (generatorOf s)
             ++ map MemoryVectorStore.createChunkText cs)
    /\ (forall ids,
           generatorOf (Spec.after (StoreApi.DeleteChunks ids) s)
           = generatorOf s)
    /\ generatorOf (MemoryVectorStore.clearAll s) = generatorOf s
    /\ (forall op,
           Spec.writes op = false -> Spec.StoreUnchanged s (Spec.after op s)).
Proof.
  intros s ops generatorOf. unfold generatorOf.
  refine (conj _ (conj _ (conj _ (conj _ (conj _ _))))).
  - apply run_extends.
  - reflexivity.
  - intros cs. unfold Spec.after, MemoryVectorStore.call,
      MemoryVectorStore.addChunks.
    pose proof (generateBatch_documents
                  (MemoryVectorStore.embeddingGenerator s)
                  (map MemoryVectorStore.createChunkText cs)) as H.
    now destruct (EmbeddingGenerator.generateBatch _ _).
  - reflexivity.
  - reflexivity.
  - intros op. apply reads_leave_the_store.
Qed.

(* ================================================================== *)
(** * Further properties: the vocabulary                              *)
(* ================================================================== *)

Section VocabularyFacts.

Import EmbeddingGenerator StoreApi.

Lemma Map_set_fresh_values {V : Type} (k : string) (v : V) (m : Map V) :
  Map_has k m = false -> Map_set k v m = m ++ [(k, v)].
Proof.
  unfold Map_has. intros H. apply Map_set_absent.
  now destruct (Map_get k m).
Qed.

Lemma VocabularyOK_step (token : string) (v : Map nat) :
  Spec.VocabularyOK v ->
  Spec.VocabularyOK
    (if Map_has token v then v else Map_set token (Map_size v) v).
Proof.
  intros [Hval Hnd]. destruct (Map_has token v) eqn:E; [now split|].
  split.
  - rewrite Map_set_fresh_values by exact E.
    unfold Map_values in *. rewrite map_app, length_app, Hval. simpl.
    unfold Map_size. now rewrite Nat.add_1_r, seq_S.
  - now apply Map_set_NoDup.
Qed.

Lemma updateVocabulary_ok (tokens : list string) (v : Map nat) :
  Spec.VocabularyOK v -> Spec.VocabularyOK (updateVocabulary tokens v).
Proof.
  unfold updateVocabulary. revert v.
  induction tokens as [|t tokens IH]; intros v H; simpl; auto.
  apply IH. now apply VocabularyOK_step.
Qed.

Lemma updateVocabulary_has (tokens : list string) (v : Map nat)
  (token : string) :
  In token tokens -> Map_has token (updateVocabulary tokens v) = true.
Proof.
  unfold updateVocabulary. revert v.
  induction tokens as [|t tokens IH]; intros v Hin; [contradiction|].
  destruct Hin as [<-|Hin]; simpl; auto.
  assert (H : exists i,
             Map_get t (if Map_has t v then v else Map_set t (Map_size v) v)
             = Some i).
  { unfold Map_has. destruct (Map_get t v) as [i|] eqn:E; eauto.
    exists (Map_size v). apply Map_get_set_same. }
  destruct H as [i Hi].
  pose proof (updateVocabulary_keeps_indices tokens _ _ _ Hi) as Hk.
  unfold updateVocabulary in Hk. unfold Map_has at 1. now rewrite Hk.
Qed.

Lemma seq_values_bound (v : Map nat) (a : nat) (token : string) (i : nat) :
  Map_values v = seq a (List.length v) ->
  In (token, i) v -> a <= i < a + List.length v.
Proof.
  intros Hval Hin.
  assert (Hi : In i (Map_values v)).
  { unfold Map_values. change i with (snd (token, i)). now apply in_map. }
  rewrite Hval in Hi. apply in_seq in Hi. lia.
Qed.

Lemma seq_values_injective (v : Map nat) (a : nat) (t1 t2 : string)
  (i : nat) :
  Map_values v = seq a (List.length v) ->
  In (t1, i) v -> In (t2, i) v -> t1 = t2.
Proof.
  revert a. induction v as [|[k x] v IH]; intros a Hval H1 H2;
    [contradiction|].
  simpl in Hval. injection Hval as Hx Hval. subst x.
  destruct H1 as [H1|H1], H2 as [H2|H2].
  - congruence.
  - injection H1 as _ <-.
    pose proof (seq_values_bound v (S a) t2 a Hval H2). lia.
  - injection H2 as _ <-.
    pose proof (seq_values_bound v (S a) t1 a Hval H1). lia.
  - eapply IH; eauto.
Qed.

Lemma after_vocabulary_ok (op : Operation) (s : MemoryVectorStore.t) :
  Spec.VocabularyOK (vocabulary (MemoryVectorStore.embeddingGenerator s)) ->
  Spec.VocabularyOK
    (vocabulary (MemoryVectorStore.embeddingGenerator (Spec.after op s))).
Proof.
  intros H. unfold Spec.after, MemoryVectorStore.call.
  destruct op as [cs|q k|c k|i k|i|c|ids|]; try exact H.
  - unfold MemoryVectorStore.addChunks, generateBatch.
    cbn [MemoryVectorStore.saveToDisk MemoryVectorStore.embeddingGenerator
         vocabulary].
    revert H. generalize (MemoryVectorStore.embeddingGenerator s).
    induction (map MemoryVectorStore.createChunkText cs) as [|text l IH];
      intros g H; simpl; auto.
    apply IH. simpl. now apply updateVocabulary_ok.
  - now apply updateVocabulary_ok.
  - now apply updateVocabulary_ok.
  - unfold MemoryVectorStore.getRelatedChunks.
    destruct (MemoryVectorStore.getChunkById i s) as [c|]; [|exact H].
    now apply updateVocabulary_ok.
  - now apply updateVocabulary_ok.
Qed.

Lemma run_vocabulary_ok (ops : list Operation) (s : MemoryVectorStore.t) :
  Spec.VocabularyOK (vocabulary (MemoryVectorStore.embeddingGenerator s)) ->
  Spec.VocabularyOK
    (vocabulary (MemoryVectorStore.embeddingGenerator (Spec.run ops s))).
Proof.
  unfold Spec.run. revert s.
  induction ops as [|op ops IH]; intros s H; simpl; auto.
  apply IH. now apply after_vocabulary_ok.
Qed.

End VocabularyFacts.

(** X11. The vocabulary numbers its tokens 0, 1, 2, ... in the order in
    which they were first seen.  On a store whose generator's vocabulary is
    so numbered (a new store, for one), after any sequence of store
    operations it still is: no two tokens share an index, every index is
    below the size of the vocabulary, and once a text has been embedded
    every one of its tokens has an index. *)
Theorem vocabulary_indices_are_consecutive :
  forall (s : MemoryVectorStore.t) (ops : list StoreApi.Operation),
    Spec.VocabularyOK
      (EmbeddingGenerator.vocabulary (MemoryVectorStore.embeddingGenerator s)) ->
    let g := MemoryVectorStore.embeddingGenerator (Spec.run ops s) in
    Spec.VocabularyOK (EmbeddingGenerator.vocabulary g)
    /\ (forall t1 t2 i,
           Map_get t1 (EmbeddingGenerator.vocabulary g) = Some i ->
           Map_get t2 (EmbeddingGenerator.vocabulary g) = Some i ->
           t1 = t2)
    /\ (forall token i,
           Map_get token (EmbeddingGenerator.vocabulary g) = Some i ->
           i < Map_size (EmbeddingGenerator.vocabulary g))
    /\ (forall text token,
           In token (EmbeddingGenerator.tokenize text) ->
           Map_has token
             (EmbeddingGenerator.vocabulary
                (snd (EmbeddingGenerator.generate g text)))
           = true).
Proof.
  intros s ops H g.
  assert (Hg : Spec.VocabularyOK (EmbeddingGenerator.vocabulary g))
    by now apply run_vocabulary_ok.
  refine (conj Hg (conj _ (conj _ _))).
  - intros t1 t2 i H1 H2. destruct Hg as [Hval _].
    apply Map_get_In in H1, H2.
    exact (seq_values_injective _ 0 t1 t2 i Hval H1 H2).
  - intros token i Hi. destruct Hg as [Hval _].
    apply Map_get_In in Hi.
    pose proof (seq_values_bound _ 0 token i Hval Hi). unfold Map_size. lia.
  - intros text token Hin. now apply updateVocabulary_has.
Qed.

Lemma vocabulary_indices_are_consecutive_witness :
  let g := MemoryVectorStore.embeddingGenerator
             (Spec.run [StoreApi.AddChunks [loginChunk];
                        StoreApi.Search "login" 3]
                (MemoryVectorStore.constructor None)) in
  Spec.VocabularyOK (EmbeddingGenerator.vocabulary g)
  /\ (forall t1 t2 i,
         Map_get t1 (EmbeddingGenerator.vocabulary g) = Some i ->
         Map_get t2 (EmbeddingGenerator.vocabulary g) = Some i ->
         t1 = t2)
  /\ (forall token i,
         Map_get token (EmbeddingGenerator.vocabulary g) = Some i ->
         i < Map_size (EmbeddingGenerator.vocabulary g))
  /\ (forall text token,
         In token (EmbeddingGenerator.tokenize text) ->
         Map_has token
           (EmbeddingGenerator.vocabulary
              (snd (EmbeddingGenerator.generate g text)))
         = true).
Proof.
  apply (vocabulary_indices_are_consecutive
           (MemoryVectorStore.constructor None)
           [StoreApi.AddChunks [loginChunk]; StoreApi.Search "login" 3]).
  split; constructor.
Defined.

(* ================================================================== *)
(** * Further properties: term frequencies and IDF scores             *)
(* ================================================================== *)

Section FrequencyFacts.

Local Open Scope R_scope.
Import EmbeddingGenerator.

Lemma countTokens_fold (tokens : list string) (tf : Map nat) :
  fold_left
    (fun tf token =>
       Map_set token
         (match Map_get token tf with Some n => n | None => O end + 1)%nat tf)
    tokens tf
  = fold_left (fun tf token => countToken token tf) tokens tf.
Proof. reflexivity. Qed.

Lemma countToken_sum (token : string) (tf : Map nat) :
  fold_right Nat.add O (Map_values (countToken token tf))
  = S (fold_right Nat.add O (Map_values tf)).
Proof.
  unfold countToken, Map_values.
  induction tf as [|[k' n] tf IH]; simpl.
  - reflexivity.
  - destruct (String.eqb token k') eqn:E; simpl.
    + lia.
    + destruct (Map_get token tf); simpl in *; rewrite IH; lia.
Qed.

Lemma countToken_fold_total (tokens : list string) (tf : Map nat) :
  fold_right Nat.add O
    (Map_values (fold_left (fun tf token => countToken token tf) tokens tf))
  = (fold_right Nat.add O (Map_values tf) + List.length tokens)%nat.
Proof.
  revert tf. induction tokens as [|t tokens IH]; intros tf; simpl.
  - lia.
  - rewrite IH, countToken_sum. lia.
Qed.

Lemma countToken_fold_NoDup (tokens : list string) (tf : Map nat) :
  NoDup (Map_keys tf) ->
  NoDup (Map_keys
           (fold_left (fun tf token => countToken token tf) tokens tf)).
Proof.
  revert tf. induction tokens as [|t tokens IH]; intros tf H; simpl; auto.
  apply IH. unfold countToken. now apply Map_set_NoDup.
Qed.

Lemma countToken_fold_get (tokens : list string) (token : string) :
  forall tf : Map nat,
    Map_get token
      (fold_left (fun tf token => countToken token tf) tokens tf)
    = match Map_get token tf, count_occ string_dec tokens token with
      | None, O => None
      | None, n => Some n
      | Some m, n => Some (m + n)%nat
      end.
Proof.
  induction tokens as [|t tokens IH]; intros tf; simpl.
  - destruct (Map_get token tf); auto.
  - rewrite IH. unfold countToken.
    destruct (string_dec t token) as [->|Hne].
    + rewrite Map_get_set_same.
      destruct (Map_get token tf) as [m|]; simpl.
      * f_equal. lia.
      * reflexivity.
    + rewrite Map_get_set_other by congruence.
      reflexivity.
Qed.

Lemma computeTF_get (tokens : list string) (token : string) :
  Map_get token (computeTF tokens)
  = match count_occ string_dec tokens token with
    | O => None
    | n => Some (INR n / INR (List.length tokens))
    end.
Proof.
  unfold computeTF, countTokens. cbv zeta. rewrite countTokens_fold.
  rewrite (Map_get_map (fun count => INR count / INR (List.length tokens))).
  rewrite countToken_fold_get. simpl.
  now destruct (count_occ string_dec tokens token).
Qed.

Lemma sumOf_ratios (counts : list nat) (n : nat) :
  Spec.sumOf (map (fun count => INR count / INR n) counts)
  = INR (fold_right Nat.add O counts) / INR n.
Proof.
  induction counts as [|c counts IH]; simpl.
  - unfold Rdiv. now rewrite Rmult_0_l.
  - rewrite IH, plus_INR. unfold Rdiv. ring.
Qed.

End FrequencyFacts.

(** X12. [computeTF] gives every token of a non-empty list its share of
    the list: the number of its occurrences over the number of tokens.
    Each token has one entry, tokens that do not occur have none, and the
    frequencies add up to 1. *)
Theorem term_frequencies_add_up_to_one :
  forall tokens : list string,
    tokens <> [] ->
    let tf := EmbeddingGenerator.computeTF tokens in
    Spec.sumOf (Map_values tf) = 1%R
    /\ NoDup (Map_keys tf)
    /\ (forall token,
           Map_get token tf
           = match count_occ string_dec tokens token with
             | O => None
             | n => Some (INR n / INR (List.length tokens))%R
             end).
Proof.
  intros tokens Hne tf. refine (conj _ (conj _ _)).
  - unfold tf, EmbeddingGenerator.computeTF, EmbeddingGenerator.countTokens.
    cbv zeta. rewrite countTokens_fold. unfold Map_values.
    rewrite map_map.
    rewrite (map_ext _ (fun e => (INR (snd e) / INR (List.length tokens))%R))
      by now intros [t c].
    rewrite <- (map_map snd (fun c => (INR c / INR (List.length tokens))%R)).
    rewrite sumOf_ratios.
    pose proof (countToken_fold_total tokens []) as Ht.
    unfold Map_values in Ht. rewrite Ht. simpl.
    apply Rdiv_diag. apply not_0_INR.
    destruct tokens; [now elim Hne|discriminate].
  - unfold tf, EmbeddingGenerator.computeTF, EmbeddingGenerator.countTokens.
    cbv zeta. rewrite countTokens_fold. unfold Map_keys. rewrite map_map.
    rewrite (map_ext _ fst) by now intros [t c].
    apply (countToken_fold_NoDup tokens []). constructor.
  - intros token. apply computeTF_get.
Qed.

Lemma term_frequencies_add_up_to_one_witness :
  let tf := EmbeddingGenerator.computeTF
              (EmbeddingGenerator.tokenize "login user login") in
  Spec.sumOf (Map_values tf) = 1%R
  /\ NoDup (Map_keys tf)
  /\ (forall token,
         Map_get token tf
         = match count_occ string_dec
                   (EmbeddingGenerator.tokenize "login user login") token with
           | O => None
           | n => Some (INR n
                        / INR (List.length
                                 (EmbeddingGenerator.tokenize
                                    "login user login")))%R
           end).
Proof.
  apply (term_frequencies_add_up_to_one
           (EmbeddingGenerator.tokenize "login user login")).
  discriminate.
Defined.

Section IdfFacts.

Local Open Scope R_scope.
Import EmbeddingGenerator.

Lemma computeIDF_fold_get (docs : list string) (token : string) :
  forall (vocab : Map nat) (idf : Map R),
    Map_get token
      (fold_left
         (fun idf '(token, _) =>
            if (0 <? documentCount docs token)%nat
            then Map_set token
                   (ln (INR (match List.length docs with
                             | O => 1%nat | n => n end)
                        / INR (documentCount docs token))) idf
            else idf) vocab idf)
    = if Map_has token vocab && (0 <? documentCount docs token)%nat
      then Some (ln (INR (match List.length docs with
                          | O => 1%nat | n => n end)
                     / INR (documentCount docs token)))
      else Map_get token idf.
Proof.
  induction vocab as [|[t i] vocab IH]; intros idf; simpl; auto.
  rewrite IH. unfold Map_has. simpl.
  destruct (String.eqb_spec token t) as [->|Hne].
  - destruct (Map_get t vocab); simpl;
      destruct (0 <? documentCount docs t)%nat; auto.
    now rewrite Map_get_set_same.
  - destruct (Map_get token vocab); simpl.
    + destruct (0 <? documentCount docs token)%nat; auto.
      destruct (0 <? documentCount docs t)%nat; auto.
      now apply Map_get_set_other.
    + destruct (0 <? documentCount docs t)%nat; auto.
      now apply Map_get_set_other.
Qed.

Lemma documents_counted (docs : list string) (token : string) :
  (0 < documentCount docs token)%nat ->
  match List.length docs with O => 1%nat | n => n end = List.length docs.
Proof.
  intros H. pose proof (documentCount_bound docs token).
  destruct (List.length docs); lia.
Qed.

Lemma computeIDF_get (vocab : Map nat) (docs : list string)
  (token : string) :
  Map_get token (computeIDF vocab docs)
  = if Map_has token vocab && (0 <? documentCount docs token)%nat
    then Some (ln (INR (List.length docs)
                   / INR (documentCount docs token)))
    else None.
Proof.
  unfold computeIDF. cbv zeta. rewrite computeIDF_fold_get.
  destruct (Map_has token vocab); simpl; auto.
  destruct (Nat.ltb_spec 0 (documentCount docs token)) as [Hpos|]; auto.
  now rewrite (documents_counted docs token Hpos).
Qed.

(** With one document every score is [ln (1 / 1)]. *)
Lemma computeIDF_single (vocab : Map nat) (text : string) :
  Forall (fun x => x = 0) (Map_values (computeIDF vocab [text])).
Proof.
  unfold computeIDF. cbv zeta.
  assert (H : forall (l : Map nat) (idf : Map R),
             Forall (fun x => x = 0) (Map_values idf) ->
             Forall (fun x => x = 0)
               (Map_values
                  (fold_left
                     (fun idf '(token, _) =>
                        if (0 <? documentCount [text] token)%nat
                        then Map_set token
                               (ln (INR (match List.length [text] with
                                         | O => 1%nat | n => n end)
                                    / INR (documentCount [text] token))) idf
                        else idf) l idf))).
  { induction l as [|[token i] l IH]; intros idf Hidf; simpl; auto.
    apply IH.
    destruct (Nat.ltb_spec 0 (documentCount [text] token)) as [Hpos|]; auto.
    apply Map_set_values; auto.
    pose proof (documentCount_bound [text] token) as Hle. simpl in Hle.
    replace (documentCount [text] token) with 1%nat by lia.
    simpl. rewrite Rdiv_diag by lra. apply ln_1. }
  apply H. constructor.
Qed.

Lemma addToken_zero (g : t) (vector : list R) (entry : string * R) :
  Forall (fun x => x = 0) (Map_values (idfScores g)) ->
  Forall (fun x => x = 0) vector ->
  Forall (fun x => x = 0) (addToken g vector entry).
Proof.
  intros Hidf Hv. unfold addToken. destruct entry as [token tfScore].
  assert (Hs : match Map_get token (idfScores g) with
               | Some s => s | None => 0 end = 0).
  { destruct (Map_get token (idfScores g)) eqn:Hget; auto.
    exact (Map_get_value _ _ _ _ Hidf Hget). }
  rewrite Hs.
  destruct (Map_get token (vocabulary g)) as [index|]; auto.
  destruct (index <? dimension)%nat; apply Array_set_Forall; auto.
  - ring.
  - rewrite (all_zero_nth vector) by exact Hv. ring.
Qed.

Lemma Array_set_beyond {A : Type} (n i : nat) (v : A) (a : list A) :
  (n <= i)%nat -> firstn n (Array_set i v a) = firstn n a.
Proof.
  revert n i. induction a as [|x a IH]; intros n i Hle; simpl.
  - now destruct i.
  - destruct i as [|i].
    + now replace n with O by lia.
    + destruct n as [|n]; simpl; auto. f_equal. apply IH. lia.
Qed.

Lemma features_from_300 :
  Forall (fun f => (300 <= snd f)%nat) features.
Proof. unfold features. repeat constructor; simpl; lia. Qed.

Lemma structureFeatures_from_300 :
  Forall (fun f => (300 <= snd f)%nat) structureFeatures.
Proof. unfold structureFeatures. repeat constructor; simpl; lia. Qed.

(** The keyword and punctuation features sit at the indices from 300
    on. *)
Lemma addSemanticFeatures_front (text : string) (vector : list R) :
  firstn 300 (addSemanticFeatures text vector) = firstn 300 vector.
Proof.
  unfold addSemanticFeatures. cbv zeta.
  assert (H1 : forall (fs : list (list string * nat)) (v : list R),
             Forall (fun f => (300 <= snd f)%nat) fs ->
             firstn 300
               (fold_left
                  (fun v '(keywords, index) =>
                     let count :=
                       List.length
                         (filter (fun kw => includes (toLowerCase text) kw)
                                 keywords) in
                     if (0 <? count)%nat && (index <? dimension)%nat
                     then Array_set index
                            (INR count / INR (List.length keywords)) v
                     else v) fs v)
             = firstn 300 v).
  { induction fs as [|[kws i] fs IH]; intros v Hfs; auto.
    inversion Hfs; subst. cbn [fold_left]. rewrite IH by assumption.
    cbv zeta. destruct ((0 <? _)%nat && (i <? dimension)%nat); auto.
    now apply Array_set_beyond. }
  assert (H2 : forall (ps : list (Pattern * nat)) (v : list R),
             Forall (fun f => (300 <= snd f)%nat) ps ->
             firstn 300
               (fold_left
                  (fun v '(pattern, index) =>
                     let matches := match_count pattern text in
                     if (0 <? matches)%nat && (index <? dimension)%nat
                     then Array_set index (Rmin (INR matches / 10) 1) v
                     else v) ps v)
             = firstn 300 v).
  { induction ps as [|[p i] ps IH]; intros v Hps; auto.
    inversion Hps; subst. cbn [fold_left]. rewrite IH by assumption.
    cbv zeta. destruct ((0 <? _)%nat && (i <? dimension)%nat); auto.
    now apply Array_set_beyond. }
  rewrite H2 by apply structureFeatures_from_300.
  apply H1, features_from_300.
Qed.

Lemma Forall_firstn_zero (n : nat) (v : list R) :
  Forall (fun x => x = 0) v -> Forall (fun x => x = 0) (firstn n v).
Proof.
  intros H. revert n. induction H; intros [|n]; simpl; constructor; auto.
Qed.

Lemma textToVector_front (g : t) (text : string) :
  Forall (fun x => x = 0) (Map_values (idfScores g)) ->
  Forall (fun x => x = 0) (firstn 300 (textToVector g text)).
Proof.
  intros Hidf.
  assert (Hraw : Forall (fun x => x = 0) (firstn 300 (rawVector g text))).
  { unfold rawVector. cbv zeta. rewrite addSemanticFeatures_front.
    apply Forall_firstn_zero.
    assert (H0 : Forall (fun x => x = 0) (repeat 0 dimension)).
    { apply Forall_forall. intros x Hx. now apply repeat_spec in Hx. }
    revert H0. generalize (repeat 0 dimension).
    generalize (computeTF (tokenize text)). intros tf.
    induction tf as [|e tf IH]; intros v Hv; simpl; auto.
    apply IH. now apply addToken_zero. }
  unfold textToVector. cbv zeta.
  destruct (Rgt_dec (magnitude (rawVector g text)) 0); auto.
  rewrite firstn_map. apply Forall_map.
  eapply Forall_impl; [|exact Hraw].
  intros x ->. unfold Rdiv. ring.
Qed.

End IdfFacts.

(** X13. [computeIDF] gives a score to the tokens of the vocabulary that
    occur in some document (as a substring of its lower-case text), and to
    no other token.  The score is ln (N / df) for N documents of which df
    hold the token; it is never negative, and it is 0 for a token that all
    documents hold. *)
Theorem idf_scores_are_log_ratios :
  forall (vocab : Map nat) (docs : list string) (token : string),
    let idf := EmbeddingGenerator.computeIDF vocab docs in
    let df := EmbeddingGenerator.documentCount docs token in
    Map_get token idf
    = (if Map_has token vocab && (0 <? df)
       then Some (ln (INR (List.length docs) / INR df))
       else None)
    /\ Forall (fun x => (0 <= x)%R) (Map_values idf)
    /\ (Map_has token vocab = true -> docs <> [] ->
        df = List.length docs -> Map_get token idf = Some 0%R).
Proof.
  intros vocab docs token idf df. refine (conj _ (conj _ _)).
  - apply computeIDF_get.
  - apply computeIDF_nonneg.
  - intros Hv Hne Hdf. unfold idf. rewrite computeIDF_get. fold df.
    rewrite Hv, Hdf. simpl.
    destruct docs as [|d docs]; [now elim Hne|].
    cbn [List.length Nat.ltb Nat.leb].
    rewrite Rdiv_diag by (apply not_0_INR; discriminate).
    now rewrite ln_1.
Qed.

(** X14. The first text a new generator embeds gets none of its words
    into the embedding: with one document every IDF score is ln (1 / 1),
    so the 300 components in front of the keyword and punctuation features
    are 0.  This is the case of the first query on a store that has just
    been constructed, whatever the snapshot it has loaded. *)
Theorem first_embedding_has_no_word_weights :
  forall (text : string) (onDisk : option (list MemoryVectorStore.Item)),
    Forall (fun x => x = 0%R)
      (Array_slice0 300
         (fst (EmbeddingGenerator.generate EmbeddingGenerator.new text)))
    /\ Forall (fun x => x = 0%R)
         (Array_slice0 300
            (fst (EmbeddingGenerator.generate
                    (MemoryVectorStore.embeddingGenerator
                       (MemoryVectorStore.constructor onDisk)) text))).
Proof.
  intros text onDisk.
  assert (H : Forall (fun x => x = 0%R)
                (Array_slice0 300
                   (fst (EmbeddingGenerator.generate
                           EmbeddingGenerator.new text)))).
  { unfold Array_slice0, EmbeddingGenerator.generate. cbv zeta. cbn [fst].
    apply textToVector_front.
    unfold EmbeddingGenerator.learn. cbv zeta.
    cbn [EmbeddingGenerator.idfScores EmbeddingGenerator.documents
         EmbeddingGenerator.new app].
    apply computeIDF_single. }
  split; [exact H|].
  unfold MemoryVectorStore.constructor, MemoryVectorStore.loadFromDisk.
  cbn [MemoryVectorStore.file].
  destruct onDisk; exact H.
Qed.

Section BatchFacts.

Import EmbeddingGenerator.

Lemma learn_as_absorb (texts : list string) (g : t) :
  vocabulary (fold_left learn texts g)
  = vocabulary (fold_left absorb texts g)
  /\ documents (fold_left learn texts g)
     = documents (fold_left absorb texts g).
Proof.
  assert (H : forall g1 g2 : t,
             vocabulary g1 = vocabulary g2 ->
             documents g1 = documents g2 ->
             vocabulary (fold_left learn texts g1)
             = vocabulary (fold_left absorb texts g2)
             /\ documents (fold_left learn texts g1)
                = documents (fold_left absorb texts g2)).
  { induction texts as [|text texts IH]; intros g1 g2 Hv Hd; simpl; auto.
    apply IH; unfold learn, absorb; simpl; congruence. }
  now apply H.
Qed.

Lemma learn_last (texts : list string) (text : string) (g : t) :
  fold_left learn (texts ++ [text]) g
  = mk (vocabulary (fold_left absorb (texts ++ [text]) g))
       (computeIDF (vocabulary (fold_left absorb (texts ++ [text]) g))
          (documents (fold_left absorb (texts ++ [text]) g)))
       (documents (fold_left absorb (texts ++ [text]) g)).
Proof.
  destruct (learn_as_absorb (texts ++ [text]) g) as [Hv Hd].
  rewrite <- Hv, <- Hd. rewrite fold_left_app. reflexivity.
Qed.

End BatchFacts.

(** X15. [generateBatch] on a batch that is not empty leaves the generator
    in the state in which [generate], called on the texts one after the
    other, leaves it: same documents, same vocabulary, same IDF scores.
    The embeddings are those of the final state, so the embedding of the
    last text is the one [generate] returns for it at the end of the
    sequence. *)
Theorem generateBatch_ends_where_generate_one_by_one_ends :
  forall (g : EmbeddingGenerator.t) (texts : list string),
    texts <> [] ->
    let one_by_one :=
      fold_left (fun g text => snd (EmbeddingGenerator.generate g text)) in
    snd (EmbeddingGenerator.generateBatch g texts) = one_by_one texts g
    /\ last (fst (EmbeddingGenerator.generateBatch g texts)) []
       = fst (EmbeddingGenerator.generate
                (one_by_one (removelast texts) g) (last texts EmptyString)).
Proof.
  intros g texts Hne one_by_one.
  destruct (exists_last Hne) as (init & final & ->).
  assert (Hstate : snd (EmbeddingGenerator.generateBatch g (init ++ [final]))
                   = one_by_one (init ++ [final]) g).
  { unfold one_by_one, EmbeddingGenerator.generateBatch. cbv zeta.
    cbn [snd]. symmetry. apply learn_last. }
  split; [exact Hstate|].
  rewrite removelast_last, last_last.
  assert (Hfst : fst (EmbeddingGenerator.generateBatch g (init ++ [final]))
                 = map (EmbeddingGenerator.textToVector
                          (snd (EmbeddingGenerator.generateBatch g
                                  (init ++ [final]))))
                       (init ++ [final])) by reflexivity.
  rewrite Hfst, Hstate, map_app. cbn [map]. rewrite last_last.
  unfold one_by_one. rewrite fold_left_app. reflexivity.
Qed.

Lemma generateBatch_ends_where_generate_one_by_one_ends_witness :
  let texts := ["login user"; "logout user"]%string in
  let one_by_one :=
    fold_left (fun g text => snd (EmbeddingGenerator.generate g text)) in
  snd (EmbeddingGenerator.generateBatch EmbeddingGenerator.new texts)
  = one_by_one texts EmbeddingGenerator.new
  /\ last (fst (EmbeddingGenerator.generateBatch EmbeddingGenerator.new
                  texts)) []
     = fst (EmbeddingGenerator.generate
              (one_by_one (removelast texts) EmbeddingGenerator.new)
              (last texts EmptyString)).
Proof.
  apply (generateBatch_ends_where_generate_one_by_one_ends
           EmbeddingGenerator.new ["login user"; "logout user"]%string).
  discriminate.
Defined.

(* ================================================================== *)
(** * Further properties: the ledger of the context manager           *)
(* ================================================================== *)

Section MoreLedgerFacts.

Import ContextManager.

Lemma loaded_entries (entries : list MemoryEntry.t) :
  forall es : Map MemoryEntry.t,
    let es' :=
      fold_left (fun es entry => Map_set (MemoryEntry.id entry) entry es)
        entries es in
    (forall P : MemoryEntry.t -> Prop,
        Forall P entries -> Forall P (Map_values es) ->
        Forall P (Map_values es'))
    /\ incl (Map_keys es') (Map_keys es ++ map MemoryEntry.id entries)
    /\ (entries <> [] -> es' <> []).
Proof.
  induction entries as [|e entries IH]; intros es; simpl.
  - refine (conj _ (conj _ _)).
    + auto.
    + rewrite app_nil_r. apply incl_refl.
    + intros H. now elim H.
  - destruct (IH (Map_set (MemoryEntry.id e) e es)) as (H1 & H2 & H3).
    refine (conj _ (conj _ _)).
    + intros P HP Hes. inversion HP; subst.
      apply H1; auto. now apply Map_set_values.
    + intros k Hk. apply H2 in Hk. apply in_app_or in Hk.
      destruct Hk as [Hk|Hk].
      * rewrite Map_set_keys in Hk. apply in_or_app.
        destruct (Map_has (MemoryEntry.id e) es); auto.
        apply in_app_or in Hk. destruct Hk as [Hk|[<-|[]]]; auto.
        right. now left.
      * apply in_or_app. right. now right.
    + intros _. destruct entries as [|e' entries].
      * simpl. destruct es as [|[k v] es]; simpl; [discriminate|].
        destruct (String.eqb (MemoryEntry.id e) k); discriminate.
      * apply H3. discriminate.
Qed.

Lemma Map_get_app_left {V : Type} (k : string) (v : V) (m l : Map V) :
  Map_get k m = Some v -> Map_get k (m ++ l) = Some v.
Proof.
  induction m as [|[k' v'] m IH]; simpl; [discriminate|].
  destruct (String.eqb k k'); auto.
Qed.

Lemma Map_get_app_right {V : Type} (k : string) (m l : Map V) :
  Map_get k m = None -> Map_get k (m ++ l) = Map_get k l.
Proof.
  induction m as [|[k' v'] m IH]; simpl; auto.
  destruct (String.eqb k k'); [discriminate|auto].
Qed.

Lemma forallb_has_getTime_false (values : list MemoryEntry.t)
  (e : MemoryEntry.t) :
  In e values -> has_getTime e = false ->
  forallb has_getTime values = false.
Proof.
  intros Hin He. destruct (forallb has_getTime values) eqn:E; auto.
  rewrite forallb_forall in E. rewrite (E e Hin) in He. discriminate.
Qed.

Lemma JSON_entry_is_text (e : MemoryEntry.t) :
  has_getTime (JSON_entry e) = false.
Proof.
  unfold has_getTime, JSON_entry. simpl.
  now destruct (MemoryEntry.timestamp e).
Qed.

Lemma updateMemoryFeedback_step (id : string) (fb : Feedback) (m : t)
  (e : MemoryEntry.t) :
  Spec.datesInMemory m ->
  Map_get id (memoryEntries m) = Some e ->
  let e' :=
    MemoryEntry.mk (MemoryEntry.id e) (MemoryEntry.timestamp e)
      (MemoryEntry.query e) (MemoryEntry.response e)
      (MemoryEntry.relevantChunks e) (Some fb) (MemoryEntry.context e) in
  updateMemoryFeedback id fb m
  = (Returned tt,
     mk (Map_set id e' (memoryEntries m)) (projectContext m)
        (Some (map JSON_entry
                 (Array_slice0 maxMemoryEntries
                    (Array_sort newer
                       (Map_values (Map_set id e' (memoryEntries m)))))))).
Proof.
  intros Hd Hget e'. unfold updateMemoryFeedback. rewrite Hget.
  fold e'. unfold saveMemoryEntries.
  cbn [memoryEntries projectContext memoryFile].
  assert (Hall : forallb has_getTime
                   (Map_values (Map_set id e' (memoryEntries m))) = true).
  { apply forallb_Map_set; [|exact Hd].
    unfold Spec.datesInMemory in Hd. rewrite forallb_forall in Hd.
    apply Map_get_In in Hget.
    assert (He : In e (Map_values (memoryEntries m))).
    { unfold Map_values. change e with (snd (id, e)). now apply in_map. }
    apply Hd in He. exact He. }
  rewrite Hall, andb_false_r. reflexivity.
Qed.

End MoreLedgerFacts.

(** X16. A manager constructed from a ledger file that holds an entry
    cannot record any more: the entries read back carry their timestamp
    as text, so for a new id [recordMemoryEntry] throws out of the sort in
    [saveMemoryEntries].  The entry is in the in-memory map by then; the
    file is left as it was. *)
Theorem recordMemoryEntry_throws_after_a_reload :
  forall (saved : list ContextManager.MemoryEntry.t)
         (scanned : option ContextManager.ProjectContext)
         (freshId : string) (now : Z) (query response : string)
         (relevantChunks : list string)
         (feedback : option ContextManager.Feedback),
    saved <> [] ->
    ~ In freshId (map ContextManager.MemoryEntry.id saved) ->
    let onDisk := map ContextManager.JSON_entry saved in
    let m := ContextManager.constructor (Some onDisk) scanned in
    let r := ContextManager.recordMemoryEntry freshId now query response
               relevantChunks feedback m in
    (exists e, fst r = Thrown e)
    /\ ContextManager.memoryFile (snd r) = Some onDisk
    /\ Map_get freshId (ContextManager.memoryEntries (snd r))
       = Some (ContextManager.MemoryEntry.mk freshId (DateObject now) query
                 response relevantChunks feedback scanned)
    /\ Map_size (ContextManager.memoryEntries (snd r))
       = S (Map_size (ContextManager.memoryEntries m)).
Proof.
  intros saved scanned freshId now query response relevantChunks feedback
    Hne Hfresh onDisk m r.
  destruct (loaded_entries onDisk []) as (Hall & Hkeys & Hsome).
  set (loaded :=
         fold_left
           (fun es entry =>
              Map_set (ContextManager.MemoryEntry.id entry) entry es)
           onDisk []) in *.
  assert (Hm : m = ContextManager.mk loaded scanned (Some onDisk))
    by reflexivity.
  assert (Htext : Forall (fun e => ContextManager.has_getTime e = false)
                    (Map_values loaded)).
  { apply Hall; [|constructor]. unfold onDisk. apply Forall_map.
    apply Forall_forall. intros e _. apply JSON_entry_is_text. }
  assert (Habsent : Map_get freshId loaded = None).
  { apply Map_get_None_keys. intros Hin. apply Hkeys in Hin.
    simpl in Hin. unfold onDisk in Hin. rewrite map_map in Hin.
    apply Hfresh. erewrite map_ext; [exact Hin|]. reflexivity. }
  assert (Hloaded : loaded <> []).
  { apply Hsome. unfold onDisk. destruct saved; [now elim Hne|discriminate]. }
  set (entry := ContextManager.MemoryEntry.mk freshId (DateObject now) query
                  response relevantChunks feedback scanned).
  assert (Hthrow :
            ContextManager.saveMemoryEntries
              (ContextManager.mk (Map_set freshId entry loaded) scanned
                 (Some onDisk))
            = Thrown (Error "timestamp.getTime is not a function")).
  { unfold ContextManager.saveMemoryEntries.
    cbn [ContextManager.memoryEntries].
    rewrite Map_set_absent by exact Habsent.
    destruct loaded as [|[k v] rest]; [now elim Hloaded|].
    unfold Map_values. rewrite map_app, length_app.
    replace (2 <=? _) with true
      by (symmetry; apply Nat.leb_le; simpl; lia).
    rewrite (forallb_has_getTime_false _ v).
    - reflexivity.
    - simpl. now left.
    - now inversion Htext. }
  assert (Hr : r = (Thrown (Error "timestamp.getTime is not a function"),
                    ContextManager.mk (Map_set freshId entry loaded) scanned
                      (Some onDisk))).
  { unfold r, ContextManager.recordMemoryEntry. rewrite Hm.
    cbn [ContextManager.memoryEntries ContextManager.projectContext
         ContextManager.memoryFile ContextManager.MemoryEntry.id].
    fold entry. now rewrite Hthrow. }
  rewrite Hr, Hm. cbn [fst snd ContextManager.memoryFile
                       ContextManager.memoryEntries].
  refine (conj _ (conj _ (conj _ _))).
  - eexists. reflexivity.
  - reflexivity.
  - apply Map_get_set_same.
  - rewrite Map_set_absent by exact Habsent.
    unfold Map_size. rewrite length_app. simpl. lia.
Qed.

Lemma recordMemoryEntry_throws_after_a_reload_witness :
  let onDisk :=
    map ContextManager.JSON_entry [entryOf None (sampleRecording 0)] in
  let m := ContextManager.constructor (Some onDisk) None in
  let r := ContextManager.recordMemoryEntry "n" 5 "q" "a" [] None m in
  (exists e, fst r = Thrown e)
  /\ ContextManager.memoryFile (snd r) = Some onDisk
  /\ Map_get "n" (ContextManager.memoryEntries (snd r))
     = Some (ContextManager.MemoryEntry.mk "n" (DateObject 5) "q" "a" []
               None None)
  /\ Map_size (ContextManager.memoryEntries (snd r))
     = S (Map_size (ContextManager.memoryEntries m)).
Proof.
  apply (recordMemoryEntry_throws_after_a_reload
           [entryOf None (sampleRecording 0)] None "n" 5 "q" "a" [] None).
  - discriminate.
  - simpl. intros [H|[]]. discriminate H.
Defined.

(** X17. [updateMemoryFeedback] on a manager whose entries carry dates
    returns.  For an id the ledger does not hold it changes nothing, not
    even the file; for one it holds, the entry gets the feedback and keeps
    its other fields and its place, the other entries are as they were,
    and the file is rewritten, capped and newest first. *)
Theorem updateMemoryFeedback_changes_one_field :
  forall (m : ContextManager.t) (entryId : string)
         (fb : ContextManager.Feedback),
    Spec.datesInMemory m ->
    let r := ContextManager.updateMemoryFeedback entryId fb m in
    fst r = Returned tt
    /\ Spec.datesInMemory (snd r)
    /\ Map_keys (ContextManager.memoryEntries (snd r))
       = Map_keys (ContextManager.memoryEntries m)
    /\ (forall other,
           other <> entryId ->
           Map_get other (ContextManager.memoryEntries (snd r))
           = Map_get other (ContextManager.memoryEntries m))
    /\ match Map_get entryId (ContextManager.memoryEntries m) with
       | None => snd r = m
       | Some e =>
           Map_get entryId (ContextManager.memoryEntries (snd r))
           = Some (ContextManager.MemoryEntry.mk
                     (ContextManager.MemoryEntry.id e)
                     (ContextManager.MemoryEntry.timestamp e)
                     (ContextManager.MemoryEntry.query e)
                     (ContextManager.MemoryEntry.response e)
                     (ContextManager.MemoryEntry.relevantChunks e)
                     (Some fb)
                     (ContextManager.MemoryEntry.context e))
           /\ exists l,
               ContextManager.memoryFile (snd r) = Some l
               /\ List.length l <= 1000
               /\ Spec.newestFirst l
       end.
Proof.
  intros m entryId fb Hd r.
  destruct (Map_get entryId (ContextManager.memoryEntries m)) as [e|] eqn:Hget.
  - pose proof (updateMemoryFeedback_step entryId fb m e Hd Hget) as Hstep.
    cbv zeta in Hstep. unfold r. rewrite Hstep.
    cbn [fst snd ContextManager.memoryEntries ContextManager.memoryFile].
    assert (Hhas : Map_has entryId (ContextManager.memoryEntries m) = true)
      by (unfold Map_has; now rewrite Hget).
    refine (conj eq_refl (conj _ (conj _ (conj _ (conj _ _))))).
    + unfold Spec.datesInMemory. cbn [ContextManager.memoryEntries].
      apply forallb_Map_set; [|exact Hd].
      unfold Spec.datesInMemory in Hd. rewrite forallb_forall in Hd.
      apply Map_get_In in Hget.
      assert (He : In e (Map_values (ContextManager.memoryEntries m))).
      { unfold Map_values. change e with (snd (entryId, e)).
        now apply in_map. }
      apply Hd in He. exact He.
    + now rewrite Map_set_keys, Hhas.
    + intros other Hne. now apply Map_get_set_other.
    + apply Map_get_set_same.
    + eexists. split; [reflexivity|]. split.
      * rewrite length_map. unfold Array_slice0. rewrite length_firstn.
        unfold ContextManager.maxMemoryEntries. lia.
      * apply newestFirst_JSON, newestFirst_slice, newestFirst_sort.
  - unfold r, ContextManager.updateMemoryFeedback. rewrite Hget.
    cbn [fst snd]. repeat split; auto.
Qed.

Lemma updateMemoryFeedback_changes_one_field_witness :
  let m := Spec.recordAll [sampleRecording 0; sampleRecording 1]
             (ContextManager.constructor None None) in
  let r := ContextManager.updateMemoryFeedback "1" ContextManager.helpful m in
  fst r = Returned tt
  /\ Spec.datesInMemory (snd r)
  /\ Map_keys (ContextManager.memoryEntries (snd r))
     = Map_keys (ContextManager.memoryEntries m)
  /\ (forall other,
         other <> "1"%string ->
         Map_get other (ContextManager.memoryEntries (snd r))
         = Map_get other (ContextManager.memoryEntries m))
  /\ match Map_get "1" (ContextManager.memoryEntries m) with
     | None => snd r = m
     | Some e =>
         Map_get "1" (ContextManager.memoryEntries (snd r))
         = Some (ContextManager.MemoryEntry.mk
                   (ContextManager.MemoryEntry.id e)
                   (ContextManager.MemoryEntry.timestamp e)
                   (ContextManager.MemoryEntry.query e)
                   (ContextManager.MemoryEntry.response e)
                   (ContextManager.MemoryEntry.relevantChunks e)
                   (Some ContextManager.helpful)
                   (ContextManager.MemoryEntry.context e))
         /\ exists l,
             ContextManager.memoryFile (snd r) = Some l
             /\ List.length l <= 1000
             /\ Spec.newestFirst l
     end.
Proof.
  apply (updateMemoryFeedback_changes_one_field
           (Spec.recordAll [sampleRecording 0; sampleRecording 1]
              (ContextManager.constructor None None))
           "1" ContextManager.helpful).
  reflexivity.
Defined.

(** X18. The cap of 1,000 is not a cap on the map in memory.  On a manager
    whose entries carry dates, the map gets an entry with every recording
    under a new id and never loses one: after [n] such recordings it has
    [n] entries more, each to be found under its id, and what was there
    before is still there. *)
Theorem ledger_in_memory_is_not_capped :
  forall (m : ContextManager.t) (rs : list Spec.Recording),
    Spec.datesInMemory m ->
    NoDup (map Spec.rec_id rs) ->
    (forall r, In r rs ->
               Map_get (Spec.rec_id r) (ContextManager.memoryEntries m)
               = None) ->
    let m' := Spec.recordAll rs m in
    Map_size (ContextManager.memoryEntries m')
    = Map_size (ContextManager.memoryEntries m) + List.length rs
    /\ (forall id e,
           Map_get id (ContextManager.memoryEntries m) = Some e ->
           Map_get id (ContextManager.memoryEntries m') = Some e)
    /\ (forall r, In r rs ->
           Map_get (Spec.rec_id r) (ContextManager.memoryEntries m')
           = Some (entryOf (ContextManager.projectContext m) r)).
Proof.
  intros m rs Hd Hnd Hnew m'.
  assert (He : ContextManager.memoryEntries m'
               = ContextManager.memoryEntries m
                 ++ map (fun r =>
                           (Spec.rec_id r,
                            entryOf (ContextManager.projectContext m) r)) rs)
    by now apply recordAll_entries.
  rewrite He. refine (conj _ (conj _ _)).
  - unfold Map_size. now rewrite length_app, length_map.
  - intros id e Hget. now apply Map_get_app_left.
  - intros r Hr. rewrite Map_get_app_right by now apply Hnew.
    apply Map_In_get.
    + unfold Map_keys. rewrite map_map. exact Hnd.
    + apply in_map_iff. exists r. split; auto.
Qed.

Lemma ledger_in_memory_is_not_capped_witness :
  let m := ContextManager.constructor None None in
  let rs := [sampleRecording 0; sampleRecording 1; sampleRecording 2] in
  let m' := Spec.recordAll rs m in
  Map_size (ContextManager.memoryEntries m')
  = Map_size (ContextManager.memoryEntries m) + List.length rs
  /\ (forall id e,
         Map_get id (ContextManager.memoryEntries m) = Some e ->
         Map_get id (ContextManager.memoryEntries m') = Some e)
  /\ (forall r, In r rs ->
         Map_get (Spec.rec_id r) (ContextManager.memoryEntries m')
         = Some (entryOf (ContextManager.projectContext m) r)).
Proof.
  apply (ledger_in_memory_is_not_capped
           (ContextManager.constructor None None)
           [sampleRecording 0; sampleRecording 1; sampleRecording 2]).
  - reflexivity.
  - apply distinctb_NoDup. reflexivity.
  - intros r _. reflexivity.
Defined.

(* ================================================================== *)
(** * Further properties: the ChromaDB-backed store                   *)
(* ================================================================== *)

Section CollectionNames.

Import ChromaVectorStore.

Lemma sanitized_char_ok (c : ascii) :
  Spec.collectionChar (lower_char (if is_word c then c else "_"%char))
  = true.
Proof. destruct c as [[] [] [] [] [] [] [] []]; reflexivity. Qed.

Lemma collectionChar_kept (c : ascii) :
  Spec.collectionChar c = true ->
  lower_char (if is_word c then c else "_"%char) = c.
Proof.
  destruct c as [[] [] [] [] [] [] [] []]; intros H;
    try reflexivity; discriminate H.
Qed.

Lemma sanitizeCollectionName_cons (c : ascii) (n : string) :
  sanitizeCollectionName (String c n)
  = String (lower_char (if is_word c then c else "_"%char))
           (sanitizeCollectionName n).
Proof. reflexivity. Qed.

Lemma sanitizeCollectionName_fixes (n : string) :
  forallb Spec.collectionChar (list_ascii_of_string n) = true ->
  sanitizeCollectionName n = n.
Proof.
  induction n as [|c n IH]; [reflexivity|].
  rewrite sanitizeCollectionName_cons. cbn [list_ascii_of_string forallb].
  intros H. apply andb_true_iff in H. destruct H as [Hc Hn].
  rewrite collectionChar_kept by exact Hc. now rewrite IH.
Qed.

Lemma sanitizeCollectionName_length (n : string) :
  String.length (sanitizeCollectionName n) = String.length n.
Proof.
  induction n as [|c n IH]; [reflexivity|].
  rewrite sanitizeCollectionName_cons. simpl. now rewrite IH.
Qed.

Lemma sanitizeCollectionName_ok (n : string) :
  forallb Spec.collectionChar (list_ascii_of_string (sanitizeCollectionName n))
  = true.
Proof.
  induction n as [|c n IH]; [reflexivity|].
  rewrite sanitizeCollectionName_cons. cbn [list_ascii_of_string forallb].
  now rewrite sanitized_char_ok, IH.
Qed.

End CollectionNames.

(** X19. [sanitizeCollectionName] returns a name of the same length made
    of lower-case letters, digits and underscores only; a name that is
    already so made comes back unchanged, so sanitizing twice is
    sanitizing once. *)
Theorem sanitizeCollectionName_yields_a_plain_name :
  forall name : string,
    let clean := ChromaVectorStore.sanitizeCollectionName name in
    String.length clean = String.length name
    /\ forallb Spec.collectionChar (list_ascii_of_string clean) = true
    /\ ChromaVectorStore.sanitizeCollectionName clean = clean
    /\ (forallb Spec.collectionChar (list_ascii_of_string name) = true ->
        clean = name).
Proof.
  intros name clean.
  assert (Hok : forallb Spec.collectionChar (list_ascii_of_string clean)
                = true) by apply sanitizeCollectionName_ok.
  refine (conj (sanitizeCollectionName_length name) (conj Hok (conj _ _))).
  - now apply sanitizeCollectionName_fixes.
  - apply sanitizeCollectionName_fixes.
Qed.

(** X20. Whatever the ChromaDB client answers, a list that
    [getRelatedChunks(id, k)] of the ChromaDB-backed store returns holds
    no result whose chunk id is [id] and has at most [k] elements; the
    store had a collection, and when the client finds no chunk under [id]
    the list is empty. *)
Theorem chroma_getRelatedChunks_excludes_the_chunk_itself :
  forall (Collection : Type)
         (query : string -> nat -> Collection
                  -> Outcome (list VectorSearchResult.t))
         (get : string -> Collection -> Outcome (option CodeChunk.t))
         (chunkId : string) (k : nat)
         (s : ChromaVectorStore.t Collection)
         (results : list VectorSearchResult.t),
    ChromaVectorStore.getRelatedChunks Collection query get chunkId k s
    = Returned results ->
    Forall (fun r => CodeChunk.id (VectorSearchResult.chunk r) <> chunkId)
           results
    /\ List.length results <= k
    /\ exists c,
        ChromaVectorStore.collection Collection s = Some c
        /\ (get chunkId c = Returned None -> results = []).
Proof.
  intros Collection query get chunkId k s results.
  unfold ChromaVectorStore.getRelatedChunks, ChromaVectorStore.getChunkById,
    ChromaVectorStore.search.
  destruct (ChromaVectorStore.collection Collection s) as [c|];
    [|discriminate].
  unfold ChromaVectorStore.bind.
  destruct (get chunkId c) as [[found|]|e] eqn:Hget; try discriminate.
  - destruct (query _ (k + 1) c) as [rs|e]; [|discriminate].
    intros H. injection H as <-. refine (conj _ (conj _ _)).
    + apply Forall_forall. intros r Hr.
      apply (Array_slice0_In r k) in Hr. apply filter_In in Hr.
      destruct Hr as [_ Hr]. apply negb_true_iff in Hr.
      now apply String.eqb_neq in Hr.
    + unfold Array_slice0. rewrite length_firstn. lia.
    + exists c. split; [reflexivity|congruence].
  - intros H. injection H as <-. refine (conj _ (conj _ _)).
    + constructor.
    + simpl. lia.
    + exists c. split; auto.
Qed.

Lemma chroma_getRelatedChunks_excludes_the_chunk_itself_witness :
  let query := fun (_ : string) (_ : nat) (_ : unit) =>
                 Returned [VectorSearchResult.mk loginChunk 0;
                           VectorSearchResult.mk otherChunk 1] in
  let get := fun (_ : string) (_ : unit) => Returned (Some loginChunk) in
  Forall (fun r => CodeChunk.id (VectorSearchResult.chunk r) <> "a"%string)
         [VectorSearchResult.mk otherChunk 1]
  /\ List.length [VectorSearchResult.mk otherChunk 1] <= 1
  /\ exists c,
      ChromaVectorStore.collection unit (ChromaVectorStore.mk unit (Some tt))
      = Some c
      /\ (get "a"%string c = Returned None ->
          [VectorSearchResult.mk otherChunk 1] = []).
Proof.
  apply (chroma_getRelatedChunks_excludes_the_chunk_itself unit
           (fun _ _ _ =>
              Returned [VectorSearchResult.mk loginChunk 0;
                        VectorSearchResult.mk otherChunk 1])
           (fun _ _ => Returned (Some loginChunk))
           "a" 1 (ChromaVectorStore.mk unit (Some tt))).
  reflexivity.
Defined.

Lemma chroma_stats_fold (l : list (option (string * string)))
  (st : StoreApi.Stats) :
  fold_left
    (fun stats metadata =>
       match metadata with
       | Some (type, language) =>
           StoreApi.mkStats (StoreApi.totalChunks stats)
             (MemoryVectorStore.increment type
                (StoreApi.chunksByType stats))
             (MemoryVectorStore.increment language
                (StoreApi.chunksByLanguage stats))
       | None => stats
       end) l st
  = StoreApi.mkStats (StoreApi.totalChunks st)
      (fold_left (fun h key => MemoryVectorStore.increment key h)
         (Spec.metadataTypes l) (StoreApi.chunksByType st))
      (fold_left (fun h key => MemoryVectorStore.increment key h)
         (Spec.metadataLanguages l) (StoreApi.chunksByLanguage st)).
Proof.
  revert st. induction l as [|[[ty la]|] l IH]; intros st.
  - now destruct st.
  - cbn [fold_left]. rewrite IH. reflexivity.
  - cbn [fold_left]. rewrite IH. reflexivity.
Qed.

(** X21. [getStats] of the ChromaDB-backed store reports the number of ids
    the client lists as [totalChunks].  The counts of the histogram by type
    add up to the number of ids for which the client has metadata and whose
    type is not a name every object inherits ([constructor], [__proto__],
    ...), and the counts of the histogram by language to the number of
    those whose language is no such name: either sum may be less than
    [totalChunks], and the two may differ. *)
Theorem chroma_getStats_counts_ids_and_metadata :
  forall (Collection : Type)
         (getAll : Collection
                   -> Outcome (list string
                               * list (option (string * string))))
         (c : Collection) (ids : list string)
         (metadatas : list (option (string * string))),
    getAll c = Returned (ids, metadatas) ->
    exists stats,
      ChromaVectorStore.getStats Collection getAll
        (ChromaVectorStore.mk Collection (Some c))
      = Returned stats
      /\ StoreApi.totalChunks stats = List.length ids
      /\ Spec.total (StoreApi.chunksByType stats)
         = Spec.plainNames (Spec.metadataTypes metadatas)
      /\ Spec.total (StoreApi.chunksByLanguage stats)
         = Spec.plainNames (Spec.metadataLanguages metadatas).
Proof.
  intros Collection getAll c ids metadatas Hall.
  unfold ChromaVectorStore.getStats.
  cbn [ChromaVectorStore.collection ChromaVectorStore.bind].
  rewrite Hall. cbn [ChromaVectorStore.bind fst snd].
  eexists. split; [reflexivity|].
  rewrite chroma_stats_fold.
  cbn [StoreApi.totalChunks StoreApi.chunksByType StoreApi.chunksByLanguage].
  split; [reflexivity|].
  split; now apply increment_fold, HistogramOK_nil.
Qed.

Lemma chroma_getStats_counts_ids_and_metadata_witness :
  exists stats,
    ChromaVectorStore.getStats unit
      (fun _ => Returned (["a"; "b"; "c"]%string,
                          [Some ("function", "typescript")%string; None;
                           Some ("class", "__proto__")%string]))
      (ChromaVectorStore.mk unit (Some tt))
    = Returned stats
    /\ StoreApi.totalChunks stats = List.length ["a"; "b"; "c"]%string
    /\ Spec.total (StoreApi.chunksByType stats)
       = Spec.plainNames
           (Spec.metadataTypes
              [Some ("function", "typescript")%string; None;
               Some ("class", "__proto__")%string])
    /\ Spec.total (StoreApi.chunksByLanguage stats)
       = Spec.plainNames
           (Spec.metadataLanguages
              [Some ("function", "typescript")%string; None;
               Some ("class", "__proto__")%string]).
Proof.
  apply (chroma_getStats_counts_ids_and_metadata unit
           (fun _ => Returned (["a"; "b"; "c"]%string,
                               [Some ("function", "typescript")%string;
                                None;
                                Some ("class", "__proto__")%string]))
           tt).
  reflexivity.
Defined.

(* ================================================================== *)
(** * Further properties: related memories                            *)
(* ================================================================== *)

Section DescendingFacts.

Local Open Scope R_scope.
Context {A : Type}.
Variable f : A -> R.

Lemma descendingBy_insert (x : A) (l : list A) :
  Spec.descendingBy f l ->
  Spec.descendingBy f (sort_insert (fun a b => Rltb (f b) (f a)) x l).
Proof.
  induction l as [|y l IH]; simpl; intros H.
  - split; [constructor|exact I].
  - destruct H as [Hy Hl]. unfold Rltb at 1.
    destruct (Rlt_dec (f x) (f y)) as [Hlt|Hge].
    + simpl. split; [|now apply IH].
      apply (Permutation_Forall
               (Permutation_sym
                  (sort_insert_perm (fun a b => Rltb (f b) (f a)) x l))).
      constructor; [lra|exact Hy].
    + simpl. repeat split; auto.
      constructor; [lra|].
      eapply Forall_impl; [|exact Hy]. simpl. intros; lra.
Qed.

Lemma descendingBy_sort (l : list A) :
  Spec.descendingBy f (Array_sort (fun a b => Rltb (f b) (f a)) l).
Proof.
  induction l as [|x l IH]; simpl; [exact I|]. now apply descendingBy_insert.
Qed.

Lemma descendingBy_slice (k : nat) (l : list A) :
  Spec.descendingBy f l -> Spec.descendingBy f (Array_slice0 k l).
Proof.
  unfold Array_slice0. revert k.
  induction l as [|x l IH]; intros [|k] H; simpl; auto.
  destruct H as [Hx Hl]. split; [|now apply IH].
  apply Forall_forall. intros e He.
  rewrite Forall_forall in Hx. apply Hx.
  now apply (Array_slice0_In e k l).
Qed.

Lemma descendingBy_filter (p : A -> bool) (l : list A) :
  Spec.descendingBy f l -> Spec.descendingBy f (filter p l).
Proof.
  induction l as [|x l IH]; simpl; auto.
  intros [Hx Hl]. destruct (p x); simpl; auto.
  split; auto. apply Forall_forall. intros e He.
  apply filter_In in He. rewrite Forall_forall in Hx. now apply Hx.
Qed.

End DescendingFacts.

Section SetFacts.

Lemma Set_has_In (x : string) (s : list string) :
  Set_has x s = true <-> In x s.
Proof.
  unfold Set_has. rewrite existsb_exists. split.
  - intros (y & Hy & E). apply String.eqb_eq in E. now subst.
  - intros H. exists x. split; auto. apply String.eqb_refl.
Qed.

Lemma Set_add_NoDup (x : string) (s : list string) :
  NoDup s -> NoDup (Set_add x s).
Proof.
  intros H. unfold Set_add. destruct (Set_has x s) eqn:E; auto.
  apply NoDup_app; auto.
  - constructor; [intros []|constructor].
  - intros y Hy [<-|[]]. apply Set_has_In in Hy. congruence.
Qed.

Lemma Set_add_In (x y : string) (s : list string) :
  In y (Set_add x s) <-> y = x \/ In y s.
Proof.
  unfold Set_add. destruct (Set_has x s) eqn:E.
  - apply Set_has_In in E. split; auto. intros [->|H]; auto.
  - rewrite in_app_iff. simpl. split.
    + intros [H|[H|[]]]; auto.
    + intros [->|H]; auto.
Qed.

Lemma Set_add_length (x : string) (s : list string) :
  List.length (Set_add x s) <= S (List.length s).
Proof.
  unfold Set_add. destruct (Set_has x s); [lia|].
  rewrite length_app. simpl. lia.
Qed.

Lemma Set_fold (l : list string) :
  forall s : list string,
    let s' := fold_left (fun s x => Set_add x s) l s in
    (NoDup s -> NoDup s')
    /\ (forall y, In y s' <-> In y s \/ In y l)
    /\ List.length s' <= List.length s + List.length l
    /\ (s <> [] -> s' <> [])
    /\ (l <> [] -> s' <> []).
Proof.
  induction l as [|x l IH]; intros s; simpl.
  - refine (conj _ (conj _ (conj _ (conj _ _)))).
    + auto.
    + intros y. tauto.
    + lia.
    + auto.
    + intros H. now elim H.
  - destruct (IH (Set_add x s)) as (H1 & H2 & H3 & H4 & _).
    assert (Hne : Set_add x s <> []).
    { unfold Set_add. destruct (Set_has x s) eqn:E.
      - apply Set_has_In in E. intros ->. contradiction.
      - destruct s; discriminate. }
    refine (conj _ (conj _ (conj _ (conj _ _)))).
    + intros Hs. now apply H1, Set_add_NoDup.
    + intros y. rewrite H2, Set_add_In.
      split; [intros [[->|H]|H]; auto | intros [H|[<-|H]]; auto].
    + pose proof (Set_add_length x s). lia.
    + intros _. now apply H4.
    + intros _. now apply H4.
Qed.

Lemma Set_from_NoDup (l : list string) : NoDup (Set_from l).
Proof. apply (Set_fold l []). constructor. Qed.

Lemma Set_from_In (l : list string) (y : string) :
  In y (Set_from l) <-> In y l.
Proof.
  destruct (Set_fold l []) as (_ & H & _). rewrite H. simpl. tauto.
Qed.

Lemma Set_from_length (l : list string) :
  List.length (Set_from l) <= List.length l.
Proof. destruct (Set_fold l []) as (_ & _ & H & _). exact H. Qed.

Lemma Set_from_nonempty (l : list string) : l <> [] -> Set_from l <> [].
Proof. destruct (Set_fold l []) as (_ & _ & _ & _ & H). exact H. Qed.

(** A list without repetitions is the set of its elements. *)
Lemma Set_from_fixes (l : list string) : NoDup l -> Set_from l = l.
Proof.
  unfold Set_from.
  assert (H : forall s, NoDup (s ++ l) ->
                        fold_left (fun s x => Set_add x s) l s = s ++ l).
  { induction l as [|x l IH]; intros s Hnd; simpl.
    - now rewrite app_nil_r.
    - assert (E : Set_has x s = false).
      { destruct (Set_has x s) eqn:E; auto. apply Set_has_In in E.
        apply NoDup_remove_2 in Hnd. exfalso. apply Hnd.
        apply in_or_app. now left. }
      unfold Set_add. rewrite E. rewrite IH.
      + now rewrite <- app_assoc.
      + now rewrite <- app_assoc. }
  intros Hnd. now apply (H []).
Qed.

Lemma split_ws_from_nonempty (s cur : string) (in_sep : bool) :
  split_ws_from s cur in_sep <> [].
Proof.
  revert cur in_sep. induction s as [|c s IH]; intros cur in_sep; simpl.
  - discriminate.
  - destruct (is_space c); [destruct in_sep|]; auto; discriminate.
Qed.

End SetFacts.

(* ================================================================== *)
(** * ContextManager: the ledger over two sessions                    *)
(* ================================================================== *)

Section LedgerMore.

Import ContextManager.

(** The file after the last recording of a run, on a manager whose entries
    carry dates. *)
Lemma recordAll_last_file (m : t) (rs : list Spec.Recording)
  (r : Spec.Recording) :
  Spec.datesInMemory m ->
  memoryFile (Spec.recordAll (rs ++ [r]) m)
  = Some (map JSON_entry
            (Array_slice0 maxMemoryEntries
               (Array_sort newer
                  (Map_values
                     (memoryEntries (Spec.recordAll (rs ++ [r]) m)))))).
Proof.
  intros Hd. unfold Spec.recordAll. rewrite fold_left_app. simpl.
  apply record_step. now apply recordAll_dates.
Qed.

End LedgerMore.

(** C3, at the failing input.  A first session records one entry on a new
    manager, which writes memory.json.  A second session constructs its
    manager from that file and records 1,001 entries: every call throws,
    out of the sort in [saveMemoryEntries], since the entry read back
    carries its timestamp as text; the file still holds the one entry of
    the first session, and none of the 1,001, which are in memory only.
    Within one session, when the first two of 1,001 recordings are made in
    the same millisecond, the file of 1,000 entries keeps the first of the
    two and drops the second. *)
Theorem ledger_is_not_written_after_a_reload :
  (let firstSession :=
     Spec.record (ContextManager.constructor None None) (sampleRecording 0) in
   let secondSession :=
     ContextManager.constructor (ContextManager.memoryFile firstSession)
       None in
   let ended := Spec.recordAll laterBatch secondSession in
   ContextManager.memoryFile firstSession
   = Some [ContextManager.JSON_entry (entryOf None (sampleRecording 0))]
   /\ List.length laterBatch = 1001
   /\ Spec.outcomes laterBatch secondSession
      = repeat (Thrown (Error "timestamp.getTime is not a function")) 1001
   /\ ContextManager.memoryFile ended
      = Some [ContextManager.JSON_entry (entryOf None (sampleRecording 0))]
   /\ Map_size (ContextManager.memoryEntries ended) = 1002)
  /\ (exists l,
         ContextManager.memoryFile
           (Spec.recordAll tiedBatch (ContextManager.constructor None None))
         = Some l
         /\ List.length l = 1000
         /\ In "0"%string (map ContextManager.MemoryEntry.id l)
         /\ ~ In "1"%string (map ContextManager.MemoryEntry.id l)).
Proof.
  split.
  - cbv zeta. refine (conj _ (conj _ (conj _ (conj _ _)))).
    + reflexivity.
    + reflexivity.
    + vm_compute. reflexivity.
    + vm_compute. reflexivity.
    + vm_compute. reflexivity.
  - set (m0 := ContextManager.constructor None None).
    assert (Hd0 : Spec.datesInMemory m0) by reflexivity.
    assert (Hbatch : tiedBatch
                     = map tiedRecording (seq 0 1000) ++ [tiedRecording 1000]).
    { unfold tiedBatch. change 1001 with (1000 + 1).
      now rewrite seq_app, map_app. }
    assert (Hvalues :
              Map_values (ContextManager.memoryEntries
                            (Spec.recordAll tiedBatch m0))
              = map (entryOf None) tiedBatch).
    { rewrite recordAll_entries.
      - change (ContextManager.memoryEntries m0)
          with (@nil (string * ContextManager.MemoryEntry.t)).
        change (ContextManager.projectContext m0)
          with (@None ContextManager.ProjectContext).
        unfold Map_values. cbn [app]. now rewrite map_map.
      - exact Hd0.
      - apply distinctb_NoDup. vm_compute. reflexivity.
      - reflexivity. }
    eexists. split.
    { rewrite Hbatch, recordAll_last_file by exact Hd0.
      rewrite <- Hbatch, Hvalues. reflexivity. }
    rewrite map_map.
    refine (conj _ (conj _ _)).
    + vm_compute. reflexivity.
    + apply (proj1 (Set_has_In _ _)). vm_compute. reflexivity.
    + intros H. apply (proj2 (Set_has_In _ _)) in H.
      vm_compute in H. discriminate H.
Qed.

Section MemoryFacts.

Local Open Scope R_scope.
Import ContextManager.

Lemma words_nonempty (text : string) :
  Set_from (split_ws (toLowerCase text)) <> [].
Proof. apply Set_from_nonempty, split_ws_from_nonempty. Qed.

Lemma memoryScore_range (queryWords : list string) (e : MemoryEntry.t) :
  queryWords <> [] -> 0 <= memoryScore queryWords e <= 1.
Proof.
  intros Hne. unfold memoryScore. cbv zeta.
  set (entryWords := Set_from (split_ws (toLowerCase (MemoryEntry.query e)))).
  set (inter := Set_from (filter (fun x => Set_has x entryWords) queryWords)).
  assert (Hle : (List.length inter <= List.length queryWords)%nat).
  { unfold inter. etransitivity; [apply Set_from_length|].
    apply filter_length_le. }
  assert (Hpos : (0 < Nat.max (List.length queryWords)
                              (List.length entryWords))%nat).
  { destruct queryWords; [now elim Hne|]. cbn [List.length]. lia. }
  assert (Hm : 0 < INR (Nat.max (List.length queryWords)
                                (List.length entryWords)))
    by now apply lt_0_INR.
  split.
  - apply ratio_nonneg.
  - apply (Rmult_le_reg_r
             (INR (Nat.max (List.length queryWords)
                           (List.length entryWords)))); [exact Hm|].
    unfold Rdiv. rewrite Rmult_assoc, Rinv_l by lra.
    rewrite Rmult_1_l, Rmult_1_r. apply le_INR. lia.
Qed.

(** An entry whose query has the words of the query scores 1, in whatever
    order it has them and however often. *)
Lemma memoryScore_same_set (text : string) (e : MemoryEntry.t) :
  (forall w, In w (split_ws (toLowerCase (MemoryEntry.query e)))
             <-> In w (split_ws (toLowerCase text))) ->
  memoryScore (Set_from (split_ws (toLowerCase text))) e = 1.
Proof.
  intros Hsame. unfold memoryScore. cbv zeta.
  set (queryWords := Set_from (split_ws (toLowerCase text))).
  set (entryWords := Set_from (split_ws (toLowerCase (MemoryEntry.query e)))).
  assert (Hiff : forall w, In w queryWords <-> In w entryWords).
  { intros w. unfold queryWords, entryWords.
    rewrite !Set_from_In. symmetry. apply Hsame. }
  assert (Hq : NoDup queryWords) by apply Set_from_NoDup.
  assert (He : NoDup entryWords) by apply Set_from_NoDup.
  assert (Hf : filter (fun x => Set_has x entryWords) queryWords
               = queryWords).
  { apply forallb_filter_id. apply forallb_forall.
    intros x Hx. apply Set_has_In. now apply Hiff. }
  rewrite Hf, Set_from_fixes by exact Hq.
  assert (Hlen : List.length entryWords = List.length queryWords).
  { apply Nat.le_antisymm; apply NoDup_incl_length; auto;
      intros w Hw; now apply Hiff. }
  rewrite Hlen, Nat.max_id. apply Rdiv_diag. apply not_0_INR.
  intros H. apply length_zero_iff_nil in H.
  now apply (words_nonempty text).
Qed.

End MemoryFacts.

(** X22. [findRelatedMemories(query, maxResults)] returns at most
    [maxResults] entries, all of them from the ledger, in descending order
    of their score, and each with a score above 0.2 (and at most 1).  The
    score of an entry whose query has the same set of lower-case words as
    [query], in whatever order and however often repeated, is 1.  When the
    ledger has no more than [maxResults] entries, every entry that scores
    above 0.2 is returned. *)
Theorem findRelatedMemories_returns_the_best_matches :
  forall (query : string) (maxResults : nat) (m : ContextManager.t),
    let queryWords := Set_from (split_ws (toLowerCase query)) in
    let score := ContextManager.memoryScore queryWords in
    let found := ContextManager.findRelatedMemories query maxResults m in
    List.length found <= maxResults
    /\ incl found (Map_values (ContextManager.memoryEntries m))
    /\ Forall (fun e => (0.2 < score e <= 1)%R) found
    /\ Spec.descendingBy score found
    /\ (forall e,
           (forall w,
               In w (split_ws
                       (toLowerCase (ContextManager.MemoryEntry.query e)))
               <-> In w (split_ws (toLowerCase query))) ->
           score e = 1%R)
    /\ (Map_size (ContextManager.memoryEntries m) <= maxResults ->
        forall e,
          In e (Map_values (ContextManager.memoryEntries m)) ->
          (0.2 < score e)%R -> In e found).
Proof.
  intros query maxResults m queryWords score found.
  set (values := Map_values (ContextManager.memoryEntries m)).
  set (scored := map (fun entry => (entry, score entry)) values).
  set (sorted := Array_sort
                   (fun a b : ContextManager.MemoryEntry.t * R =>
                      Rltb (snd b) (snd a)) scored).
  assert (Hfound : found
                   = map fst
                       (filter (fun item => Rltb 0.2 (snd item))
                          (Array_slice0 maxResults sorted)))
    by reflexivity.
  assert (Hitem : forall item,
             In item sorted -> In (fst item) values
                               /\ snd item = score (fst item)).
  { intros item Hi. apply Array_sort_In in Hi. unfold scored in Hi.
    apply in_map_iff in Hi. destruct Hi as (e & <- & He). auto. }
  assert (Hsnd : forall l,
             incl l sorted ->
             Spec.descendingBy snd l -> Spec.descendingBy score (map fst l)).
  { induction l as [|x l IH]; simpl; auto.
    intros Hincl [Hx Hl]. split.
    - rewrite Forall_map. rewrite Forall_forall in *.
      intros y Hy. specialize (Hx y Hy).
      destruct (Hitem x) as [_ <-]; [apply Hincl; now left|].
      destruct (Hitem y) as [_ <-]; [apply Hincl; now right|].
      exact Hx.
    - apply IH; auto. intros y Hy. apply Hincl. now right. }
  assert (Hkept : incl (filter (fun item => Rltb 0.2 (snd item))
                          (Array_slice0 maxResults sorted)) sorted).
  { intros item Hi. apply filter_In in Hi. destruct Hi as [Hi _].
    now apply (Array_slice0_In item maxResults). }
  refine (conj _ (conj _ (conj _ (conj _ (conj _ _))))).
  - rewrite Hfound, length_map.
    etransitivity; [apply filter_length_le|].
    unfold Array_slice0. rewrite length_firstn. lia.
  - rewrite Hfound. intros e He. apply in_map_iff in He.
    destruct He as (item & <- & Hi). apply Hkept in Hi.
    now apply Hitem.
  - rewrite Hfound. rewrite Forall_map. apply Forall_forall.
    intros item Hi. pose proof (Hkept item Hi) as Hs.
    apply filter_In in Hi. destruct Hi as [_ Hi].
    destruct (Hitem item Hs) as [_ Heq]. rewrite <- Heq.
    unfold Rltb in Hi. destruct (Rlt_dec 0.2 (snd item)); [|discriminate].
    split; auto. rewrite Heq.
    apply memoryScore_range, words_nonempty.
  - rewrite Hfound. apply Hsnd; [exact Hkept|].
    apply descendingBy_filter, descendingBy_slice.
    apply (descendingBy_sort snd).
  - intros e He. now apply memoryScore_same_set.
  - intros Hsize e He Hscore. rewrite Hfound.
    apply in_map_iff. exists (e, score e). split; auto.
    apply filter_In. split.
    + unfold Array_slice0. rewrite firstn_all2.
      * apply (Permutation_in (e, score e)
                 (Permutation_sym (Array_sort_perm _ scored))).
        unfold scored. apply in_map_iff. now exists e.
      * unfold sorted. rewrite Array_sort_length. unfold scored, values.
        rewrite length_map. unfold Map_values. rewrite length_map.
        exact Hsize.
    + simpl. unfold Rltb. now destruct (Rlt_dec 0.2 (score e)).
Qed.

(* ================================================================== *)
(** * Further properties: keywords of a chunk                         *)
(* ================================================================== *)

Section KeywordFacts.

Import ContextManager.

Lemma wordOnly_snoc (cur : string) (c : ascii) :
  Spec.wordOnly cur = true -> is_word c = true ->
  Spec.wordOnly (cur ++ String c EmptyString) = true.
Proof.
  unfold Spec.wordOnly. induction cur as [|d cur IH]; simpl; intros H Hc.
  - now rewrite Hc.
  - apply andb_true_iff in H. destruct H as [Hd H].
    rewrite Hd. simpl. now apply IH.
Qed.

Lemma word_runs_from_wordOnly (s : string) :
  forall cur w,
    Spec.wordOnly cur = true -> In w (word_runs_from s cur) ->
    Spec.wordOnly w = true.
Proof.
  induction s as [|c s IH]; intros cur w Hcur; simpl.
  - intros [<-|[]]. exact Hcur.
  - destruct (is_word c) eqn:Hc.
    + apply IH. now apply wordOnly_snoc.
    + intros [<-|Hin]; [exact Hcur|]. now apply (IH EmptyString).
Qed.

Lemma prefix_append (w post : string) : String.prefix w (w ++ post) = true.
Proof.
  induction w as [|c w IH]; simpl.
  - now destruct post.
  - destruct (ascii_dec c c); [exact IH|contradiction].
Qed.

Lemma includes_tail (c : ascii) (s sub : string) :
  includes s sub = true -> includes (String c s) sub = true.
Proof.
  intros H.
  change (includes (String c s) sub)
    with (if String.prefix sub (String c s) then true else includes s sub).
  rewrite H. now destruct (String.prefix sub (String c s)).
Qed.

Lemma includes_prefix (s sub : string) :
  String.prefix sub s = true -> includes s sub = true.
Proof.
  intros H. destruct s as [|c s].
  - change (includes EmptyString sub)
      with (if String.prefix sub EmptyString then true else false).
    now rewrite H.
  - change (includes (String c s) sub)
      with (if String.prefix sub (String c s) then true else includes s sub).
    now rewrite H.
Qed.

Lemma includes_middle (pre w post : string) :
  includes (pre ++ w ++ post) w = true.
Proof.
  induction pre as [|c pre IH].
  - change (EmptyString ++ w ++ post)%string with (w ++ post)%string.
    apply includes_prefix, prefix_append.
  - change (String c pre ++ w ++ post)%string
      with (String c (pre ++ w ++ post)).
    apply includes_tail, IH.
Qed.

Lemma append_assoc (a b c : string) :
  ((a ++ b) ++ c = a ++ b ++ c)%string.
Proof. induction a as [|x a IH]; simpl; congruence. Qed.

Lemma append_empty (a : string) : (a ++ EmptyString)%string = a.
Proof. induction a as [|x a IH]; simpl; congruence. Qed.

(** Every run is a piece of the text read. *)
Lemma word_runs_from_pieces (s : string) :
  forall cur w,
    In w (word_runs_from s cur) ->
    exists pre post, (cur ++ s)%string = (pre ++ w ++ post)%string.
Proof.
  induction s as [|c s IH]; intros cur w; simpl.
  - intros [<-|[]]. exists EmptyString, EmptyString. simpl.
    now rewrite !append_empty.
  - destruct (is_word c).
    + intros Hin. apply IH in Hin. destruct Hin as (pre & post & E).
      exists pre, post. rewrite <- E. now rewrite append_assoc.
    + intros [<-|Hin].
      * exists EmptyString, (String c s). reflexivity.
      * apply IH in Hin. destruct Hin as (pre & post & E).
        exists (cur ++ String c pre)%string, post.
        rewrite append_assoc. simpl. simpl in E. now rewrite E.
Qed.

Lemma match_identifiers_in_content (content w : string) :
  In w (match_identifiers content) ->
  is_identifier w = true
  /\ Spec.wordOnly w = true
  /\ includes content w = true.
Proof.
  unfold match_identifiers, word_runs. intros H.
  apply filter_In in H. destruct H as [Hin Hid].
  refine (conj Hid (conj _ _)).
  - now apply (word_runs_from_wordOnly content EmptyString).
  - apply word_runs_from_pieces in Hin.
    destruct Hin as (pre & post & E). simpl in E. rewrite E.
    apply includes_middle.
Qed.

Lemma NoDup_filter {A : Type} (p : A -> bool) (l : list A) :
  NoDup l -> NoDup (filter p l).
Proof.
  induction 1 as [|x l Hx Hl IH]; simpl; [constructor|].
  destruct (p x); auto. constructor; auto.
  intros Hin. apply filter_In in Hin. tauto.
Qed.

End KeywordFacts.

(** X23. [extractKeywords] returns the name, the type and the language of
    the chunk followed by at most ten identifiers of its content.  The
    identifiers are pairwise distinct; each is a piece of the content made
    of three or more letters, digits and underscores, does not start with
    a digit, and is not one of the twelve common words, whatever its
    case. *)
Theorem extractKeywords_lists_distinct_identifiers :
  forall c : CodeChunk.t,
    let keywords := ContextManager.extractKeywords c in
    let identifiers := skipn 3 keywords in
    firstn 3 keywords
    = [CodeChunk.name c; CodeChunk.type c; CodeChunk.language c]
    /\ List.length keywords <= 13
    /\ NoDup identifiers
    /\ Forall (fun w =>
                 ContextManager.is_identifier w = true
                 /\ Spec.wordOnly w = true
                 /\ includes (CodeChunk.content c) w = true
                 /\ ~ In (toLowerCase w) ContextManager.commonWords)
              identifiers.
Proof.
  intros c keywords identifiers.
  set (unique := Set_from
                   (ContextManager.match_identifiers (CodeChunk.content c))).
  set (kept := filter
                 (fun word =>
                    negb (Set_has (toLowerCase word)
                            ContextManager.commonWords)) unique).
  assert (Hk : keywords
               = [CodeChunk.name c; CodeChunk.type c; CodeChunk.language c]
                 ++ Array_slice0 10 kept) by reflexivity.
  assert (Hi : identifiers = Array_slice0 10 kept) by (unfold identifiers; now rewrite Hk).
  refine (conj _ (conj _ (conj _ _))).
  - now rewrite Hk.
  - rewrite Hk, length_app. unfold Array_slice0. rewrite length_firstn.
    cbn [List.length]. lia.
  - rewrite Hi. apply NoDup_slice, NoDup_filter, Set_from_NoDup.
  - rewrite Hi. apply Forall_forall. intros w Hw.
    apply (Array_slice0_In w 10) in Hw. apply filter_In in Hw.
    destruct Hw as [Hu Hc]. unfold unique in Hu.
    apply (proj1 (Set_from_In _ _)) in Hu.
    apply match_identifiers_in_content in Hu.
    destruct Hu as (H1 & H2 & H3). repeat split; auto.
    intros Hin. apply Set_has_In in Hin.
    rewrite Hin in Hc. discriminate.
Qed.

(* ================================================================== *)
(** * Further properties: the callers of the store                    *)
(* ================================================================== *)

Section CallerFacts.

Import StoreApi.

Lemma search_result_stored (q : string) (k : nat) (s : MemoryVectorStore.t)
  (r : VectorSearchResult.t) :
  In r (fst (MemoryVectorStore.search q k s)) ->
  exists key stored,
    In (key, stored) (MemoryVectorStore.chunks s)
    /\ VectorSearchResult.chunk r = MemoryVectorStore.chunk stored.
Proof.
  rewrite search_ranks_candidates. intros Hr.
  apply Array_slice0_In in Hr. apply Array_sort_In in Hr.
  unfold candidates in Hr. apply in_map_iff in Hr.
  destruct Hr as ([key stored] & <- & Hin). now exists key, stored.
Qed.

Lemma stored_chunk_lookup (s : MemoryVectorStore.t) (key : string)
  (stored : MemoryVectorStore.StoredChunk) :
  Spec.StoreKeyed s ->
  In (key, stored) (MemoryVectorStore.chunks s) ->
  CodeChunk.id (MemoryVectorStore.chunk stored) = key
  /\ MemoryVectorStore.getChunkById key s
     = Some (MemoryVectorStore.chunk stored).
Proof.
  intros [Hnd Hid] Hin. split.
  - rewrite Forall_forall in Hid. exact (Hid _ Hin).
  - unfold MemoryVectorStore.getChunkById.
    now rewrite (Map_In_get key stored _ Hnd Hin).
Qed.

Lemma deduplicate_spec (results : list VectorSearchResult.t) :
  forall seen : list string,
    let out := ContextManager.deduplicate results seen in
    NoDup (map (fun r => CodeChunk.id (VectorSearchResult.chunk r)) out)
    /\ (forall r, In r out ->
                  In r results
                  /\ ~ In (CodeChunk.id (VectorSearchResult.chunk r)) seen)
    /\ (forall r, In r results ->
                  In (CodeChunk.id (VectorSearchResult.chunk r)) seen
                  \/ In (CodeChunk.id (VectorSearchResult.chunk r))
                        (map (fun r => CodeChunk.id (VectorSearchResult.chunk r))
                             out))
    /\ List.length out <= List.length results.
Proof.
  induction results as [|x results IH]; intros seen; simpl.
  - refine (conj _ (conj _ (conj _ _))).
    + constructor.
    + intros r [].
    + intros r [].
    + lia.
  - destruct (Set_has (CodeChunk.id (VectorSearchResult.chunk x)) seen)
      eqn:E.
    + destruct (IH seen) as (H1 & H2 & H3 & H4).
      refine (conj H1 (conj _ (conj _ _))).
      * intros r Hr. destruct (H2 r Hr). auto.
      * intros r [<-|Hr]; [left; now apply Set_has_In|auto].
      * lia.
    + destruct (IH (Set_add (CodeChunk.id (VectorSearchResult.chunk x)) seen))
        as (H1 & H2 & H3 & H4).
      refine (conj _ (conj _ (conj _ _))).
      * simpl. constructor; auto. intros Hin.
        apply in_map_iff in Hin. destruct Hin as (r & Hid & Hr).
        destruct (H2 r Hr) as [_ Hn]. apply Hn.
        apply Set_add_In. now left.
      * intros r [<-|Hr].
        -- split; [now left|]. intros Hin. apply Set_has_In in Hin.
           congruence.
        -- destruct (H2 r Hr) as [Hi Hn]. split; [now right|].
           intros Hin. apply Hn, Set_add_In. now right.
      * intros r [<-|Hr]; [right; now left|].
        destruct (H3 r Hr) as [Hs|Ho].
        -- apply Set_add_In in Hs. destruct Hs as [Hs|Hs]; auto.
           right. left. now rewrite Hs.
        -- right. now right.
      * simpl. lia.
Qed.

Lemma collectIndicators_spec (indicators : list string) :
  forall (s : MemoryVectorStore.t) (acc : list VectorSearchResult.t),
    let p :=
      fold_left
        (fun '(results, st) indicator =>
           let '(searchResults, st') :=
             MemoryVectorStore.search indicator 5 st in
           (results ++ searchResults, st'))
        indicators (acc, s) in
    MemoryVectorStore.chunks (snd p) = MemoryVectorStore.chunks s
    /\ MemoryVectorStore.file (snd p) = MemoryVectorStore.file s
    /\ EmbeddingGenerator.documents
         (MemoryVectorStore.embeddingGenerator (snd p))
       = EmbeddingGenerator.documents (MemoryVectorStore.embeddingGenerator s)
         ++ indicators
    /\ exists extra,
        fst p = acc ++ extra
        /\ List.length extra <= 5 * List.length indicators
        /\ Forall (fun r =>
                     exists key stored,
                       In (key, stored) (MemoryVectorStore.chunks s)
                       /\ VectorSearchResult.chunk r
                          = MemoryVectorStore.chunk stored) extra.
Proof.
  induction indicators as [|i indicators IH]; intros s acc.
  - simpl. rewrite app_nil_r. repeat split; auto.
    exists []. rewrite app_nil_r. repeat split; auto.
  - cbn [fold_left].
    pose proof (search_results_length i 5 s) as Hlen.
    pose proof (search_keeps_chunks i 5 s) as Hch.
    pose proof (search_file i 5 s) as Hfile.
    pose proof (search_generator i 5 s) as Hgen.
    pose proof (search_result_stored i 5 s) as Hst.
    destruct (MemoryVectorStore.search i 5 s) as [found s1].
    cbn [fst snd] in *.
    destruct (IH s1 (acc ++ found)) as (H1 & H2 & H3 & extra & H4 & H5 & H6).
    refine (conj _ (conj _ (conj _ _))).
    + now rewrite H1.
    + now rewrite H2.
    + rewrite H3, Hgen, generate_documents. now rewrite <- app_assoc.
    + exists (found ++ extra). refine (conj _ (conj _ _)).
      * now rewrite H4, app_assoc.
      * rewrite length_app. cbn [List.length]. lia.
      * apply Forall_app. split.
        -- apply Forall_forall. exact Hst.
        -- rewrite Hch in H6. exact H6.
Qed.

End CallerFacts.

(** X24. [searchPatternIndicators] lists no chunk twice: the results have
    pairwise distinct chunk ids.  On a store keyed by chunk ids each result
    is a chunk of the store, so there are at most as many as the store has
    chunks, and at most five per indicator.  The searches change neither
    the chunks nor the snapshot, but every indicator is appended to the
    documents of the generator. *)
Theorem searchPatternIndicators_lists_each_chunk_once :
  forall (indicators : list string) (s : MemoryVectorStore.t),
    Spec.StoreKeyed s ->
    let r := ContextManager.searchPatternIndicators indicators s in
    NoDup (map (fun x => CodeChunk.id (VectorSearchResult.chunk x)) (fst r))
    /\ List.length (fst r) <= 5 * List.length indicators
    /\ List.length (fst r) <= Map_size (MemoryVectorStore.chunks s)
    /\ Forall (fun x =>
                 MemoryVectorStore.getChunkById
                   (CodeChunk.id (VectorSearchResult.chunk x)) s
                 = Some (VectorSearchResult.chunk x)) (fst r)
    /\ Spec.StoreUnchanged s (snd r)
    /\ EmbeddingGenerator.documents
         (MemoryVectorStore.embeddingGenerator (snd r))
       = EmbeddingGenerator.documents (MemoryVectorStore.embeddingGenerator s)
         ++ indicators.
Proof.
  intros indicators s Hk r.
  destruct (collectIndicators_spec indicators s [])
    as (H1 & H2 & H3 & extra & H4 & H5 & H6).
  unfold r, ContextManager.searchPatternIndicators,
    ContextManager.collectIndicators.
  destruct (fold_left _ indicators ([], s)) as [results s'].
  cbn [fst snd app] in *. subst results.
  destruct (deduplicate_spec extra []) as (D1 & D2 & D3 & D4).
  assert (Hstored : Forall
                      (fun x =>
                         MemoryVectorStore.getChunkById
                           (CodeChunk.id (VectorSearchResult.chunk x)) s
                         = Some (VectorSearchResult.chunk x))
                      (ContextManager.deduplicate extra [])).
  { apply Forall_forall. intros x Hx. destruct (D2 x Hx) as [Hin _].
    rewrite Forall_forall in H6.
    destruct (H6 x Hin) as (key & stored & Hs & ->).
    destruct (stored_chunk_lookup s key stored Hk Hs) as [-> Hget].
    exact Hget. }
  refine (conj D1 (conj _ (conj _ (conj Hstored (conj _ H3))))).
  - lia.
  - unfold Map_size. rewrite <- (length_map fst).
    rewrite <- (length_map
                  (fun x => CodeChunk.id (VectorSearchResult.chunk x))).
    apply NoDup_incl_length; [exact D1|].
    intros i Hi. apply in_map_iff in Hi. destruct Hi as (x & <- & Hx).
    rewrite Forall_forall in Hstored. specialize (Hstored x Hx).
    unfold MemoryVectorStore.getChunkById in Hstored.
    destruct (Map_get _ (MemoryVectorStore.chunks s)) as [sc|] eqn:Hget;
      [|discriminate].
    apply Map_get_In in Hget.
    change (CodeChunk.id (VectorSearchResult.chunk x))
      with (fst (CodeChunk.id (VectorSearchResult.chunk x), sc)).
    now apply in_map.
  - split; assumption.
Qed.

Lemma searchPatternIndicators_lists_each_chunk_once_witness :
  let r := ContextManager.searchPatternIndicators
             ["controllers/"; "Controller."]%string twoChunkStore in
  NoDup (map (fun x => CodeChunk.id (VectorSearchResult.chunk x)) (fst r))
  /\ List.length (fst r) <= 5 * List.length ["controllers/"; "Controller."]%string
  /\ List.length (fst r) <= Map_size (MemoryVectorStore.chunks twoChunkStore)
  /\ Forall (fun x =>
               MemoryVectorStore.getChunkById
                 (CodeChunk.id (VectorSearchResult.chunk x)) twoChunkStore
               = Some (VectorSearchResult.chunk x)) (fst r)
  /\ Spec.StoreUnchanged twoChunkStore (snd r)
  /\ EmbeddingGenerator.documents
       (MemoryVectorStore.embeddingGenerator (snd r))
     = EmbeddingGenerator.documents
         (MemoryVectorStore.embeddingGenerator twoChunkStore)
       ++ ["controllers/"; "Controller."]%string.
Proof.
  apply (searchPatternIndicators_lists_each_chunk_once
           ["controllers/"; "Controller."]%string twoChunkStore).
  apply addChunks_keyed. split; constructor.
Defined.

(** X25. [getAllChunks] of the architecture analyzer asks for the 10,000
    nearest chunks to ['*'].  For a store of at most 10,000 chunks that is
    every chunk, each once; for a larger store it is 10,000 of them and the
    others are left out.  The call leaves ['*'] in the documents of the
    generator. *)
Theorem getAllChunks_returns_all_chunks_up_to_10000 :
  forall s : MemoryVectorStore.t,
    let r := ArchitectureAnalyzer.getAllChunks s in
    let stored := map MemoryVectorStore.chunk
                      (Map_values (MemoryVectorStore.chunks s)) in
    List.length (fst r)
    = Nat.min 10000 (Map_size (MemoryVectorStore.chunks s))
    /\ incl (fst r) stored
    /\ (Map_size (MemoryVectorStore.chunks s) <= 10000 ->
        Permutation (fst r) stored)
    /\ Spec.StoreUnchanged s (snd r)
    /\ EmbeddingGenerator.documents
         (MemoryVectorStore.embeddingGenerator (snd r))
       = EmbeddingGenerator.documents (MemoryVectorStore.embeddingGenerator s)
         ++ ["*"%string].
Proof.
  intros s r stored.
  assert (Hr : r = (map VectorSearchResult.chunk
                      (fst (MemoryVectorStore.search "*" 10000 s)),
                    snd (MemoryVectorStore.search "*" 10000 s))).
  { unfold r, ArchitectureAnalyzer.getAllChunks.
    now destruct (MemoryVectorStore.search "*" 10000 s). }
  rewrite Hr. cbn [fst snd].
  set (q := fst (EmbeddingGenerator.generate
                   (MemoryVectorStore.embeddingGenerator s) "*")).
  assert (Hc : map VectorSearchResult.chunk
                 (candidates q (MemoryVectorStore.chunks s)) = stored).
  { unfold candidates, stored, Map_values. rewrite !map_map.
    apply map_ext. now intros [key sc]. }
  assert (Hperm : Permutation
                    (map VectorSearchResult.chunk
                       (Array_sort
                          (fun a b => Rltb (VectorSearchResult.score a)
                                           (VectorSearchResult.score b))
                          (candidates q (MemoryVectorStore.chunks s))))
                    stored).
  { rewrite <- Hc. apply Permutation_map, Array_sort_perm. }
  rewrite search_ranks_candidates. fold q.
  refine (conj _ (conj _ (conj _ (conj _ _)))).
  - rewrite length_map. unfold Array_slice0. rewrite length_firstn.
    rewrite Array_sort_length. unfold candidates. now rewrite length_map.
  - intros c Hin. apply (Permutation_in _ Hperm).
    apply in_map_iff in Hin. destruct Hin as (x & <- & Hx).
    apply in_map. now apply (Array_slice0_In x 10000).
  - intros Hsize. unfold Array_slice0. rewrite firstn_all2; [exact Hperm|].
    rewrite Array_sort_length. unfold candidates. now rewrite length_map.
  - split; [apply search_keeps_chunks|apply search_file].
  - now rewrite search_generator, generate_documents.
Qed.

Section IndexerFacts.

Import StoreApi.

(** Chunks under ids new to the map and pairwise distinct are appended. *)
Lemma store_fresh_entries (pairs : list (CodeChunk.t * list R)) :
  forall m : Map MemoryVectorStore.StoredChunk,
    NoDup (Map_keys m ++ map (fun p => CodeChunk.id (fst p)) pairs) ->
    fold_left
      (fun m '(c, e) =>
         Map_set (CodeChunk.id c) (MemoryVectorStore.mkStored c e) m)
      pairs m
    = m ++ map (fun p => (CodeChunk.id (fst p),
                          MemoryVectorStore.mkStored (fst p) (snd p))) pairs.
Proof.
  induction pairs as [|[c e] pairs IH]; intros m Hnd; simpl.
  - now rewrite app_nil_r.
  - assert (Habsent : Map_get (CodeChunk.id c) m = None).
    { apply Map_get_None_keys. intros Hin.
      apply NoDup_remove_2 in Hnd. apply Hnd, in_or_app. now left. }
    rewrite IH.
    + rewrite Map_set_absent by exact Habsent. now rewrite <- app_assoc.
    + rewrite Map_set_absent by exact Habsent.
      unfold Map_keys. rewrite map_app. simpl. rewrite <- app_assoc.
      exact Hnd.
Qed.

Lemma combine_fst {A B : Type} (l : list A) (l' : list B) :
  List.length l = List.length l' -> map fst (combine l l') = l.
Proof.
  revert l'. induction l as [|x l IH]; intros [|y l'] H; simpl in *;
    try discriminate; auto.
  f_equal. apply IH. lia.
Qed.

Lemma addChunks_fresh (cs : list CodeChunk.t) (s : MemoryVectorStore.t) :
  NoDup (Map_keys (MemoryVectorStore.chunks s) ++ map CodeChunk.id cs) ->
  exists embeddings,
    List.length embeddings = List.length cs
    /\ MemoryVectorStore.chunks (MemoryVectorStore.addChunks cs s)
       = MemoryVectorStore.chunks s
         ++ map (fun p => (CodeChunk.id (fst p),
                           MemoryVectorStore.mkStored (fst p) (snd p)))
                (combine cs embeddings).
Proof.
  intros Hnd. unfold MemoryVectorStore.addChunks.
  pose proof (generateBatch_length (MemoryVectorStore.embeddingGenerator s)
                (map MemoryVectorStore.createChunkText cs)) as Hl.
  destruct (EmbeddingGenerator.generateBatch _ _) as [embeddings g].
  cbn [MemoryVectorStore.chunks MemoryVectorStore.saveToDisk fst] in *.
  rewrite length_map in Hl. exists embeddings. split; [exact Hl|].
  apply store_fresh_entries.
  rewrite <- (map_map fst CodeChunk.id), combine_fst by now symmetry.
  exact Hnd.
Qed.

Lemma updateChunk_chunks (c : CodeChunk.t) (s : MemoryVectorStore.t) :
  exists e,
    MemoryVectorStore.chunks (MemoryVectorStore.updateChunk c s)
    = Map_set (CodeChunk.id c) (MemoryVectorStore.mkStored c e)
        (MemoryVectorStore.chunks s).
Proof.
  unfold MemoryVectorStore.updateChunk.
  destruct (EmbeddingGenerator.generate _ _) as [e g]. now exists e.
Qed.

(** One step of the loop of [updateDependencies]. *)
Lemma updateDependencies_step (imports : list CodeChunk.t)
  (chunk : CodeChunk.t) (st : MemoryVectorStore.t) :
  let st' :=
    if String.eqb (CodeChunk.type chunk) "function"
       || String.eqb (CodeChunk.type chunk) "class"
    then
      if (0 <? List.length (CodeIndexer.dependenciesOf imports chunk))
      then MemoryVectorStore.updateChunk
             (CodeIndexer.withDependencies
                (CodeIndexer.dependenciesOf imports chunk) chunk) st
      else st
    else st in
  let touched :=
    (String.eqb (CodeChunk.type chunk) "function"
     || String.eqb (CodeChunk.type chunk) "class")
    && negb (Nat.eqb (List.length (CodeIndexer.dependenciesOf imports chunk))
                     0) in
  (Spec.StoreKeyed st -> Spec.StoreKeyed st')
  /\ (Map_has (CodeChunk.id chunk) (MemoryVectorStore.chunks st) = true ->
      Map_keys (MemoryVectorStore.chunks st')
      = Map_keys (MemoryVectorStore.chunks st))
  /\ (forall k, k <> CodeChunk.id chunk ->
                Map_get k (MemoryVectorStore.chunks st')
                = Map_get k (MemoryVectorStore.chunks st))
  /\ MemoryVectorStore.getChunkById (CodeChunk.id chunk) st'
     = if touched
       then Some (CodeIndexer.withDependencies
                    (CodeIndexer.dependenciesOf imports chunk) chunk)
       else MemoryVectorStore.getChunkById (CodeChunk.id chunk) st.
Proof.
  cbv zeta.
  destruct (String.eqb (CodeChunk.type chunk) "function"
            || String.eqb (CodeChunk.type chunk) "class"); cbn [andb].
  - destruct (List.length (CodeIndexer.dependenciesOf imports chunk))
      as [|n] eqn:Hn; cbn [Nat.ltb Nat.leb Nat.eqb negb].
    + refine (conj _ (conj _ (conj _ _))); auto.
    + destruct (updateChunk_chunks
                  (CodeIndexer.withDependencies
                     (CodeIndexer.dependenciesOf imports chunk) chunk) st)
        as [e He].
      change (CodeChunk.id
                (CodeIndexer.withDependencies
                   (CodeIndexer.dependenciesOf imports chunk) chunk))
        with (CodeChunk.id chunk) in He.
      refine (conj _ (conj _ (conj _ _))).
      * apply updateChunk_keyed.
      * intros Hhas. now rewrite He, Map_set_keys, Hhas.
      * intros k Hk. rewrite He. now apply Map_get_set_other.
      * unfold MemoryVectorStore.getChunkById.
        now rewrite He, Map_get_set_same.
  - refine (conj _ (conj _ (conj _ _))); auto.
Qed.

Lemma updateDependencies_loop (imports : list CodeChunk.t)
  (l : list CodeChunk.t) :
  forall st : MemoryVectorStore.t,
    let st' :=
      fold_left
        (fun st chunk =>
           if String.eqb (CodeChunk.type chunk) "function"
              || String.eqb (CodeChunk.type chunk) "class"
           then
             if (0 <? List.length (CodeIndexer.dependenciesOf imports chunk))
             then MemoryVectorStore.updateChunk
                    (CodeIndexer.withDependencies
                       (CodeIndexer.dependenciesOf imports chunk) chunk) st
             else st
           else st) l st in
    NoDup (map CodeChunk.id l) ->
    (forall c, In c l ->
               Map_has (CodeChunk.id c) (MemoryVectorStore.chunks st) = true) ->
    (Spec.StoreKeyed st -> Spec.StoreKeyed st')
    /\ Map_keys (MemoryVectorStore.chunks st')
       = Map_keys (MemoryVectorStore.chunks st)
    /\ (forall k, ~ In k (map CodeChunk.id l) ->
                  Map_get k (MemoryVectorStore.chunks st')
                  = Map_get k (MemoryVectorStore.chunks st))
    /\ (forall c, In c l ->
          MemoryVectorStore.getChunkById (CodeChunk.id c) st'
          = if (String.eqb (CodeChunk.type c) "function"
                || String.eqb (CodeChunk.type c) "class")
               && negb (Nat.eqb
                          (List.length (CodeIndexer.dependenciesOf imports c))
                          0)
            then Some (CodeIndexer.withDependencies
                         (CodeIndexer.dependenciesOf imports c) c)
            else MemoryVectorStore.getChunkById (CodeChunk.id c) st).
Proof.
  induction l as [|x l IH]; intros st; cbv zeta; intros Hnd Hhas.
  - cbn [fold_left]. refine (conj _ (conj _ (conj _ _))); auto.
    intros c [].
  - cbn [fold_left].
    pose proof (updateDependencies_step imports x st) as Hstep.
    cbv zeta in Hstep.
    set (st1 := if String.eqb (CodeChunk.type x) "function"
                   || String.eqb (CodeChunk.type x) "class"
                then
                  if (0 <? List.length (CodeIndexer.dependenciesOf imports x))
                  then MemoryVectorStore.updateChunk
                         (CodeIndexer.withDependencies
                            (CodeIndexer.dependenciesOf imports x) x) st
                  else st
                else st) in *.
    destruct Hstep as (S1 & S2 & S3 & S4).
    inversion Hnd as [|? ? Hx Hl]; subst.
    assert (Hkeys1 : Map_keys (MemoryVectorStore.chunks st1)
                     = Map_keys (MemoryVectorStore.chunks st)).
    { apply S2, Hhas. now left. }
    assert (Hhas1 : forall c, In c l ->
                      Map_has (CodeChunk.id c) (MemoryVectorStore.chunks st1)
                      = true).
    { intros c Hc. apply Map_has_keys. rewrite Hkeys1.
      apply Map_has_keys, Hhas. now right. }
    specialize (IH st1). cbv zeta in IH.
    destruct (IH Hl Hhas1) as (I1 & I2 & I3 & I4).
    refine (conj _ (conj _ (conj _ _))).
    + auto.
    + now rewrite I2.
    + intros k Hk. rewrite I3.
      * apply S3. intros ->. apply Hk. now left.
      * intros Hin. apply Hk. now right.
    + intros c [<-|Hc].
      * unfold MemoryVectorStore.getChunkById at 1.
        rewrite I3 by exact Hx.
        exact S4.
      * rewrite I4 by exact Hc.
        destruct ((String.eqb (CodeChunk.type c) "function"
                   || String.eqb (CodeChunk.type c) "class")
                  && negb (Nat.eqb
                             (List.length
                                (CodeIndexer.dependenciesOf imports c)) 0));
          auto.
        unfold MemoryVectorStore.getChunkById. rewrite S3; auto.
        intros Heq. apply Hx. rewrite <- Heq. now apply in_map.
Qed.

End IndexerFacts.

(** X26. [indexFile] on a file that is not ignored, whose parsed chunks
    carry ids pairwise distinct and new to a store keyed by chunk ids:
    the ids of the chunks are appended to those of the store, nothing that
    was retrievable before is changed or removed, and each chunk of the
    file is retrievable under its id, a function or class that uses
    imports of the file carrying their names as dependencies.  As
    [updateFile] is [indexFile], indexing a file again under new ids leaves
    the chunks of the earlier run in the store.  An ignored file changes
    nothing. *)
Theorem indexFile_adds_the_chunks_and_removes_none :
  forall (parsed : list CodeChunk.t) (s : MemoryVectorStore.t),
    Spec.StoreKeyed s ->
    NoDup (map CodeChunk.id parsed) ->
    (forall c, In c parsed ->
               MemoryVectorStore.getChunkById (CodeChunk.id c) s = None) ->
    let s' := CodeIndexer.updateFile false parsed s in
    Spec.StoreKeyed s'
    /\ Map_keys (MemoryVectorStore.chunks s')
       = Map_keys (MemoryVectorStore.chunks s) ++ map CodeChunk.id parsed
    /\ (forall id c,
           MemoryVectorStore.getChunkById id s = Some c ->
           MemoryVectorStore.getChunkById id s' = Some c)
    /\ (forall c, In c parsed ->
           MemoryVectorStore.getChunkById (CodeChunk.id c) s'
           = Some (Spec.indexed parsed c))
    /\ CodeIndexer.updateFile true parsed s = s.
Proof.
  intros parsed s Hk Hnd Hnew s'.
  assert (Hfresh : NoDup (Map_keys (MemoryVectorStore.chunks s)
                          ++ map CodeChunk.id parsed)).
  { apply NoDup_app; [apply Hk|exact Hnd|].
    intros k Hks Hkp. apply in_map_iff in Hkp.
    destruct Hkp as (c & <- & Hc). specialize (Hnew c Hc).
    unfold MemoryVectorStore.getChunkById in Hnew.
    apply Map_has_keys in Hks. unfold Map_has in Hks.
    destruct (Map_get (CodeChunk.id c) (MemoryVectorStore.chunks s));
      discriminate. }
  destruct (addChunks_fresh parsed s Hfresh) as (embeddings & Hlen & Hadd).
  set (s1 := MemoryVectorStore.addChunks parsed s) in *.
  assert (Hk1 : Spec.StoreKeyed s1) by now apply addChunks_keyed.
  assert (Hkeys1 : Map_keys (MemoryVectorStore.chunks s1)
                   = Map_keys (MemoryVectorStore.chunks s)
                     ++ map CodeChunk.id parsed).
  { rewrite Hadd. unfold Map_keys. rewrite map_app, map_map. simpl.
    rewrite <- (map_map fst CodeChunk.id), combine_fst by now symmetry.
    reflexivity. }
  assert (Hhas1 : forall c, In c parsed ->
                    Map_has (CodeChunk.id c) (MemoryVectorStore.chunks s1)
                    = true).
  { intros c Hc. apply Map_has_keys. rewrite Hkeys1.
    apply in_or_app. right. now apply in_map. }
  assert (Hget1 : forall c, In c parsed ->
                    MemoryVectorStore.getChunkById (CodeChunk.id c) s1
                    = Some c).
  { intros c Hc. unfold MemoryVectorStore.getChunkById.
    destruct (batch_entry_has_embedding c parsed embeddings) as [e He];
      auto.
    rewrite (Map_In_get (CodeChunk.id c) (MemoryVectorStore.mkStored c e));
      [reflexivity|apply Hk1|].
    rewrite Hadd. apply in_or_app. right.
    apply in_map_iff. now exists (c, e). }
  pose proof (updateDependencies_loop
                (filter (fun chunk => String.eqb (CodeChunk.type chunk) "import")
                        parsed) parsed s1) as Hloop.
  cbv zeta in Hloop. destruct (Hloop Hnd Hhas1) as (L1 & L2 & L3 & L4).
  unfold s', CodeIndexer.updateFile, CodeIndexer.indexFile,
    CodeIndexer.updateDependencies. cbv zeta. fold s1.
  refine (conj _ (conj _ (conj _ (conj _ _)))).
  - auto.
  - now rewrite L2.
  - intros id c Hget. unfold MemoryVectorStore.getChunkById in *.
    rewrite L3.
    + rewrite Hadd.
      destruct (Map_get id (MemoryVectorStore.chunks s)) as [sc|] eqn:E;
        [|discriminate].
      now rewrite (Map_get_app_left id sc).
    + intros Hin. apply in_map_iff in Hin. destruct Hin as (x & <- & Hx).
      rewrite (Hnew x Hx) in Hget. discriminate.
  - intros c Hc. rewrite L4 by exact Hc. unfold Spec.indexed. cbv zeta.
    destruct ((String.eqb (CodeChunk.type c) "function"
               || String.eqb (CodeChunk.type c) "class")
              && negb (Nat.eqb _ 0)); auto.
  - reflexivity.
Qed.

Lemma indexFile_adds_the_chunks_and_removes_none_witness :
  let parsed := [loginChunk; otherChunk] in
  let s := MemoryVectorStore.constructor None in
  let s' := CodeIndexer.updateFile false parsed s in
  Spec.StoreKeyed s'
  /\ Map_keys (MemoryVectorStore.chunks s')
     = Map_keys (MemoryVectorStore.chunks s) ++ map CodeChunk.id parsed
  /\ (forall id c,
         MemoryVectorStore.getChunkById id s = Some c ->
         MemoryVectorStore.getChunkById id s' = Some c)
  /\ (forall c, In c parsed ->
         MemoryVectorStore.getChunkById (CodeChunk.id c) s'
         = Some (Spec.indexed parsed c))
  /\ CodeIndexer.updateFile true parsed s = s.
Proof.
  apply (indexFile_adds_the_chunks_and_removes_none
           [loginChunk; otherChunk] (MemoryVectorStore.constructor None)).
  - split; constructor.
  - apply distinctb_NoDup. reflexivity.
  - intros c _. reflexivity.
Defined.

Section BraceFacts.

Local Open Scope Z_scope.

Lemma no_brace_no_count (line : string) :
  includes line "{" = false -> count_literal "{" line = O.
Proof.
  unfold count_literal. induction line as [|c line IH]; [reflexivity|].
  change (includes (String c line) "{")
    with (if String.prefix "{" (String c line) then true
          else includes line "{").
  cbn [count_literal_from String.length Nat.sub].
  destruct (String.prefix "{" (String c line)); [discriminate|].
  exact IH.
Qed.

(** The counter of the loop after a line. *)
Lemma brace_counter (line : string) (b : Z) :
  (if includes line "{" then b + Z.of_nat (count_literal "{" line) else b)
  - Z.of_nat (count_literal "}" line)
  = b + Z.of_nat (count_literal "{" line)
    - Z.of_nat (count_literal "}" line).
Proof.
  destruct (includes line "{") eqn:E; auto.
  rewrite (no_brace_no_count line E). lia.
Qed.

Lemma bracesSeen_first (line : string) (rest : list string) (b : Z)
  (started : bool) :
  bracesSeen (line :: rest) b started 0
  = (includes line "{" || started)
    && ((if includes line "{"
         then b + Z.of_nat (count_literal "{" line) else b)
        - Z.of_nat (count_literal "}" line) =? 0).
Proof.
  unfold bracesSeen. rewrite brace_counter.
  cbn [firstn existsb Spec.bracesIn fold_right].
  rewrite orb_false_r, (orb_comm started). f_equal. f_equal. lia.
Qed.

Lemma bracesSeen_next (line : string) (rest : list string) (b : Z)
  (started : bool) (m : nat) :
  bracesSeen (line :: rest) b started (S m)
  = bracesSeen rest
      ((if includes line "{"
        then b + Z.of_nat (count_literal "{" line) else b)
       - Z.of_nat (count_literal "}" line))
      (includes line "{" || started) m.
Proof.
  unfold bracesSeen. rewrite brace_counter.
  change (firstn (S (S m)) (line :: rest)) with (line :: firstn (S m) rest).
  cbn [existsb Spec.bracesIn fold_right].
  fold (Spec.bracesIn "{" (firstn (S m) rest)).
  fold (Spec.bracesIn "}" (firstn (S m) rest)).
  rewrite orb_assoc, (orb_comm started). f_equal. f_equal. lia.
Qed.

Lemma scanBraces_spec (rest : list string) :
  forall (i : nat) (b : Z) (started : bool),
    match CodeIndexer.scanBraces rest i b started with
    | Some e =>
        exists n, e = (i + n)%nat
                  /\ (n < List.length rest)%nat
                  /\ bracesSeen rest b started n = true
                  /\ forall m, (m < n)%nat ->
                               bracesSeen rest b started m = false
    | None =>
        forall m, (m < List.length rest)%nat ->
                  bracesSeen rest b started m = false
    end.
Proof.
  induction rest as [|line rest IH]; intros i b started.
  - simpl. intros m Hm. lia.
  - cbn [CodeIndexer.scanBraces]. cbv zeta.
    rewrite <- bracesSeen_first with (rest := rest).
    destruct (bracesSeen (line :: rest) b started 0) eqn:E0.
    + exists O. repeat split.
      * lia.
      * simpl. lia.
      * exact E0.
      * intros m Hm. lia.
    + specialize (IH (S i)
                     ((if includes line "{"
                       then b + Z.of_nat (count_literal "{" line) else b)
                      - Z.of_nat (count_literal "}" line))
                     (includes line "{" || started)).
      destruct (CodeIndexer.scanBraces rest (S i) _ _) as [e|].
      * destruct IH as (n & He & Hn & Hs & Hm).
        exists (S n). repeat split.
        -- lia.
        -- simpl. lia.
        -- now rewrite bracesSeen_next.
        -- intros [|m] Hlt; [exact E0|].
           rewrite bracesSeen_next. apply Hm. lia.
      * intros [|m] Hlt; [exact E0|].
        rewrite bracesSeen_next. apply IH. simpl in Hlt. lia.
Qed.

Lemma bracesSeen_closed (lines : list string) (startLine n : nat) :
  bracesSeen (skipn startLine lines) 0 false n
  = Spec.bracesClosed lines startLine n.
Proof.
  unfold bracesSeen, Spec.bracesClosed. cbv zeta. simpl orb.
  f_equal.
  destruct (Z.eqb_spec (Spec.bracesIn "{" (firstn (S n) (skipn startLine lines)))
                       (Spec.bracesIn "}" (firstn (S n) (skipn startLine lines))));
    [apply Z.eqb_eq|apply Z.eqb_neq]; lia.
Qed.

End BraceFacts.

(** X27. [findFunctionEnd(lines, startLine)] of the TypeScript parser, for
    a start line inside the file, returns a line from [startLine] to the
    last one.  It is the first line at which the lines from [startLine] on
    hold an opening brace and as many closing braces as opening ones; when
    there is no such line, it is the last line of the file. *)
Theorem findFunctionEnd_stops_where_the_braces_balance :
  forall (lines : list string) (startLine : nat),
    startLine < List.length lines ->
    let e := CodeIndexer.findFunctionEnd lines startLine in
    (Z.of_nat startLine <= e <= Z.of_nat (List.length lines) - 1)%Z
    /\ (forall n,
           (Z.of_nat (startLine + n) < e)%Z ->
           Spec.bracesClosed lines startLine n = false)
    /\ ((exists n,
            e = Z.of_nat (startLine + n)
            /\ Spec.bracesClosed lines startLine n = true)
        \/ (e = Z.of_nat (List.length lines) - 1)%Z
           /\ forall n,
               startLine + n < List.length lines ->
               Spec.bracesClosed lines startLine n = false).
Proof.
  intros lines startLine Hstart e.
  pose proof (scanBraces_spec (skipn startLine lines) startLine 0%Z false)
    as Hscan.
  assert (Hlen : List.length (skipn startLine lines)
                 = List.length lines - startLine)
    by apply length_skipn.
  unfold e, CodeIndexer.findFunctionEnd.
  destruct (CodeIndexer.scanBraces (skipn startLine lines) startLine 0 false)
    as [i|].
  - destruct Hscan as (n & -> & Hn & Hs & Hm).
    rewrite bracesSeen_closed in Hs.
    refine (conj _ (conj _ _)).
    + lia.
    + intros m Hlt. rewrite <- bracesSeen_closed. apply Hm. lia.
    + left. now exists n.
  - refine (conj _ (conj _ _)).
    + lia.
    + intros m Hlt. rewrite <- bracesSeen_closed. apply Hscan. lia.
    + right. split; [reflexivity|].
      intros n Hn. rewrite <- bracesSeen_closed. apply Hscan. lia.
Qed.

Lemma findFunctionEnd_stops_where_the_braces_balance_witness :
  let lines := ["function f() {"; "  if (x) {"; "  }"; "}"; "f();"]%string in
  let e := CodeIndexer.findFunctionEnd lines 0 in
  (Z.of_nat 0 <= e <= Z.of_nat (List.length lines) - 1)%Z
  /\ (forall n,
         (Z.of_nat (0 + n) < e)%Z ->
         Spec.bracesClosed lines 0 n = false)
  /\ ((exists n,
          e = Z.of_nat (0 + n)
          /\ Spec.bracesClosed lines 0 n = true)
      \/ (e = Z.of_nat (List.length lines) - 1)%Z
         /\ forall n,
             0 + n < List.length lines ->
             Spec.bracesClosed lines 0 n = false).
Proof.
  apply (findFunctionEnd_stops_where_the_braces_balance
           ["function f() {"; "  if (x) {"; "  }"; "}"; "f();"]%string 0).
  simpl. lia.
Defined.

(* ================================================================== *)
(** * Further properties: related chunks                              *)
(* ================================================================== *)

Section RelatedFacts.

Import StoreApi.

Lemma ascending_filter (p : VectorSearchResult.t -> bool)
  (l : list VectorSearchResult.t) :
  Spec.ascending l -> Spec.ascending (filter p l).
Proof.
  induction l as [|x l IH]; simpl; auto.
  intros [Hx Hl]. destruct (p x); simpl; auto.
  split; auto. apply Forall_forall. intros e He.
  apply filter_In in He. rewrite Forall_forall in Hx. now apply Hx.
Qed.

(** Leaving out the results of one id takes one result away, when the ids
    are pairwise distinct and the id is among them. *)
Lemma filter_out_one (chunkId : string) (l : list VectorSearchResult.t) :
  NoDup (map (fun r => CodeChunk.id (VectorSearchResult.chunk r)) l) ->
  List.length
    (filter (fun r =>
               negb (String.eqb (CodeChunk.id (VectorSearchResult.chunk r))
                       chunkId)) l)
  = if in_dec string_dec chunkId
         (map (fun r => CodeChunk.id (VectorSearchResult.chunk r)) l)
    then List.length l - 1
    else List.length l.
Proof.
  induction l as [|x l IH]; intros Hnd; [reflexivity|].
  inversion Hnd as [|? ? Hx Hl]; subst. specialize (IH Hl).
  cbn [filter map].
  destruct (String.eqb_spec (CodeChunk.id (VectorSearchResult.chunk x))
                            chunkId) as [E|E]; cbn [negb].
  - rewrite E in Hx.
    destruct (in_dec string_dec chunkId _) as [Hin|Hout] in IH;
      [contradiction|].
    rewrite IH.
    destruct (in_dec string_dec chunkId _) as [_|Hout'].
    + simpl. lia.
    + exfalso. apply Hout'. left. exact E.
  - cbn [List.length]. rewrite IH.
    destruct (in_dec string_dec chunkId
                (map (fun r => CodeChunk.id (VectorSearchResult.chunk r)) l))
      as [Hin|Hout].
    + destruct (in_dec string_dec chunkId _) as [_|Hout'].
      * destruct l; [contradiction|]. simpl. lia.
      * exfalso. apply Hout'. now right.
    + destruct (in_dec string_dec chunkId _) as [[Heq|Hin']|_]; auto.
      * contradiction.
      * contradiction.
Qed.

Lemma search_length (q : string) (k : nat) (s : MemoryVectorStore.t) :
  List.length (fst (MemoryVectorStore.search q k s))
  = Nat.min k (Map_size (MemoryVectorStore.chunks s)).
Proof.
  rewrite search_ranks_candidates. unfold Array_slice0.
  now rewrite length_firstn, Array_sort_length, candidates_length.
Qed.

Lemma search_ascending (q : string) (k : nat) (s : MemoryVectorStore.t) :
  Spec.ascending (fst (MemoryVectorStore.search q k s)).
Proof.
  rewrite search_ranks_by_score. apply ascending_slice, ascending_sort.
Qed.

(** A search that asks for as many results as there are chunks returns
    every id of a store keyed by chunk ids. *)
Lemma search_reaches_all (q : string) (k : nat) (s : MemoryVectorStore.t)
  (chunkId : string) :
  Spec.StoreKeyed s ->
  Map_size (MemoryVectorStore.chunks s) <= k ->
  In chunkId (Map_keys (MemoryVectorStore.chunks s)) ->
  In chunkId
     (map (fun r => CodeChunk.id (VectorSearchResult.chunk r))
          (fst (MemoryVectorStore.search q k s))).
Proof.
  intros [Hnd Hid] Hsize Hin. rewrite search_ranks_candidates.
  unfold Array_slice0. rewrite firstn_all2
    by now rewrite Array_sort_length, candidates_length.
  set (qe := fst (EmbeddingGenerator.generate _ q)).
  rewrite <- (candidates_ids qe) in Hin by exact Hid.
  apply in_map_iff in Hin. destruct Hin as (r & <- & Hr).
  apply in_map_iff. exists r. split; [reflexivity|].
  apply (Permutation_in r (Permutation_sym (Array_sort_perm _ _))).
  exact Hr.
Qed.

(** In a list in ascending order, no element of a prefix scores more than
    an element of the rest. *)
Lemma ascending_firstn_skipn (k : nat) (l : list VectorSearchResult.t)
  (x y : VectorSearchResult.t) :
  Spec.ascending l ->
  In x (firstn k l) -> In y (skipn k l) ->
  (VectorSearchResult.score x <= VectorSearchResult.score y)%R.
Proof.
  revert k. induction l as [|z l IH]; intros [|k] Hasc Hx Hy;
    try contradiction.
  cbn [firstn skipn] in Hx, Hy. destruct Hasc as [Hz Hl].
  destruct Hx as [->|Hx]; [|now apply (IH k)].
  rewrite Forall_forall in Hz. apply Hz.
  rewrite <- (firstn_skipn k l). apply in_or_app. now right.
Qed.

End RelatedFacts.

(** X28. On a store keyed by chunk ids that holds a chunk under [id],
    [getRelatedChunks(id, k)] returns exactly min(k, n - 1) results for a
    store of [n] chunks, in ascending order of their score.  Each result is
    a chunk of the store other than the one under [id], paired with its
    distance to the embedding made for the text of the chunk under [id],
    and the results are the nearest: a chunk other than [id] that is left
    out scores no less than any result.  The call changes neither the chunks
    nor the snapshot, and leaves the text of the chunk in the documents of
    the generator. *)
Theorem getRelatedChunks_returns_the_nearest_others :
  forall (s : MemoryVectorStore.t) (chunkId : string) (k : nat)
         (c : CodeChunk.t),
    Spec.StoreKeyed s ->
    MemoryVectorStore.getChunkById chunkId s = Some c ->
    let r := MemoryVectorStore.getRelatedChunks chunkId k s in
    let q :=
      fst (EmbeddingGenerator.generate
             (MemoryVectorStore.embeddingGenerator s)
             (MemoryVectorStore.createChunkText c)) in
    List.length (fst r)
    = Nat.min k (Map_size (MemoryVectorStore.chunks s) - 1)
    /\ Spec.ascending (fst r)
    /\ Forall (fun x =>
                 MemoryVectorStore.getChunkById
                   (CodeChunk.id (VectorSearchResult.chunk x)) s
                 = Some (VectorSearchResult.chunk x)) (fst r)
    /\ Forall (fun x => CodeChunk.id (VectorSearchResult.chunk x) <> chunkId)
              (fst r)
    /\ incl (fst r) (candidates q (MemoryVectorStore.chunks s))
    /\ (forall x y,
          In x (fst r) ->
          In y (candidates q (MemoryVectorStore.chunks s)) ->
          CodeChunk.id (VectorSearchResult.chunk y) <> chunkId ->
          ~ In y (fst r) ->
          (VectorSearchResult.score x <= VectorSearchResult.score y)%R)
    /\ Spec.StoreUnchanged s (snd r)
    /\ EmbeddingGenerator.documents
         (MemoryVectorStore.embeddingGenerator (snd r))
       = EmbeddingGenerator.documents (MemoryVectorStore.embeddingGenerator s)
         ++ [MemoryVectorStore.createChunkText c].
Proof.
  intros s chunkId k c Hk Hget r q.
  set (text := MemoryVectorStore.createChunkText c) in *.
  set (found := fst (MemoryVectorStore.search text (k + 1) s)).
  set (others :=
         filter (fun x =>
                   negb (String.eqb
                           (CodeChunk.id (VectorSearchResult.chunk x))
                           chunkId)) found).
  assert (Hr : r = (Array_slice0 k others,
                    snd (MemoryVectorStore.search text (k + 1) s))).
  { unfold r, MemoryVectorStore.getRelatedChunks. rewrite Hget.
    fold text. unfold others, found.
    now destruct (MemoryVectorStore.search text (k + 1) s). }
  rewrite Hr. cbn [fst snd].
  assert (Hkey : In chunkId (Map_keys (MemoryVectorStore.chunks s))).
  { apply Map_has_keys. unfold Map_has.
    unfold MemoryVectorStore.getChunkById in Hget.
    now destruct (Map_get chunkId (MemoryVectorStore.chunks s)). }
  assert (Hsize : 1 <= Map_size (MemoryVectorStore.chunks s)).
  { unfold Map_size. rewrite <- (length_map fst).
    fold (Map_keys (MemoryVectorStore.chunks s)).
    destruct (Map_keys (MemoryVectorStore.chunks s));
      [contradiction|simpl; lia]. }
  destruct (search_result_ids text (k + 1) s Hk) as [Hnd Hincl].
  fold found in Hnd, Hincl.
  pose proof (search_length text (k + 1) s) as Hlen. fold found in Hlen.
  pose proof (filter_out_one chunkId found Hnd) as Hout.
  fold others in Hout.
  set (sorted := Array_sort Spec.byScore
                   (candidates q (MemoryVectorStore.chunks s))).
  assert (Hfound : found = Array_slice0 (k + 1) sorted)
    by apply search_ranks_by_score.
  assert (Hsorted : Spec.ascending sorted) by apply ascending_sort.
  assert (Hothers : Spec.ascending others).
  { apply ascending_filter. apply search_ascending. }
  refine (conj _ (conj _ (conj _ (conj _ (conj _ (conj _ (conj _ _))))))).
  - unfold Array_slice0. rewrite length_firstn, Hout.
    destruct (in_dec string_dec chunkId _) as [Hin|Hnot]; [lia|].
    destruct (Nat.le_gt_cases (Map_size (MemoryVectorStore.chunks s))
                              (k + 1)) as [Hle|Hgt]; [|lia].
    exfalso. apply Hnot. unfold found.
    now apply search_reaches_all.
  - now apply ascending_slice.
  - apply Forall_forall. intros x Hx.
    apply (Array_slice0_In x k) in Hx. apply filter_In in Hx.
    destruct Hx as [Hx _].
    destruct (search_result_stored text (k + 1) s x Hx)
      as (key & stored & Hs & ->).
    destruct (stored_chunk_lookup s key stored Hk Hs) as [-> Hg].
    exact Hg.
  - apply Forall_forall. intros x Hx.
    apply (Array_slice0_In x k) in Hx. apply filter_In in Hx.
    destruct Hx as [_ Hx]. apply negb_true_iff in Hx.
    now apply String.eqb_neq in Hx.
  - intros x Hx. apply (Array_slice0_In x k) in Hx.
    apply filter_In in Hx. destruct Hx as [Hx _].
    rewrite Hfound in Hx. apply Array_slice0_In in Hx.
    now apply Array_sort_In in Hx.
  - intros x y Hx Hy Hid Hleft.
    assert (Hxo : In x others) by now apply (Array_slice0_In x k).
    assert (Hxf : In x found).
    { unfold others in Hxo. apply filter_In in Hxo. tauto. }
    assert (Hys : In y sorted) by now apply Array_sort_In.
    rewrite <- (firstn_skipn (k + 1) sorted) in Hys.
    apply in_app_or in Hys. destruct Hys as [Hys|Hys].
    + assert (Hyo : In y others).
      { unfold others. apply filter_In. split.
        - rewrite Hfound. exact Hys.
        - apply negb_true_iff. now apply String.eqb_neq. }
      rewrite <- (firstn_skipn k others) in Hyo.
      apply in_app_or in Hyo. destruct Hyo as [Hyo|Hyo]; [contradiction|].
      now apply (ascending_firstn_skipn k others).
    + rewrite Hfound in Hxf.
      now apply (ascending_firstn_skipn (k + 1) sorted).
  - split; [apply search_keeps_chunks|apply search_file].
  - now rewrite search_generator, generate_documents.
Qed.

Lemma getRelatedChunks_returns_the_nearest_others_witness :
  let r := MemoryVectorStore.getRelatedChunks "d" 3 twoChunkStore in
  let q :=
    fst (EmbeddingGenerator.generate
           (MemoryVectorStore.embeddingGenerator twoChunkStore)
           (MemoryVectorStore.createChunkText otherChunk)) in
  List.length (fst r)
  = Nat.min 3 (Map_size (MemoryVectorStore.chunks twoChunkStore) - 1)
  /\ Spec.ascending (fst r)
  /\ Forall (fun x =>
               MemoryVectorStore.getChunkById
                 (CodeChunk.id (VectorSearchResult.chunk x)) twoChunkStore
               = Some (VectorSearchResult.chunk x)) (fst r)
  /\ Forall (fun x => CodeChunk.id (VectorSearchResult.chunk x) <> "d"%string)
            (fst r)
  /\ incl (fst r) (candidates q (MemoryVectorStore.chunks twoChunkStore))
  /\ (forall x y,
        In x (fst r) ->
        In y (candidates q (MemoryVectorStore.chunks twoChunkStore)) ->
        CodeChunk.id (VectorSearchResult.chunk y) <> "d"%string ->
        ~ In y (fst r) ->
        (VectorSearchResult.score x <= VectorSearchResult.score y)%R)
  /\ Spec.StoreUnchanged twoChunkStore (snd r)
  /\ EmbeddingGenerator.documents
       (MemoryVectorStore.embeddingGenerator (snd r))
     = EmbeddingGenerator.documents
         (MemoryVectorStore.embeddingGenerator twoChunkStore)
       ++ [MemoryVectorStore.createChunkText otherChunk].
Proof.
  apply (getRelatedChunks_returns_the_nearest_others twoChunkStore "d" 3
           otherChunk).
  - apply addChunks_keyed. split; constructor.
  - reflexivity.
Defined.

(* ================================================================== *)
(** * Further properties: tokens                                      *)
(* ================================================================== *)

Section TokenFacts.

Import EmbeddingGenerator.

Lemma lower_char_idempotent (c : ascii) :
  lower_char (lower_char c) = lower_char c.
Proof. destruct c as [[] [] [] [] [] [] [] []]; reflexivity. Qed.

Lemma toLowerCase_idempotent (s : string) :
  toLowerCase (toLowerCase s) = toLowerCase s.
Proof.
  induction s as [|c s IH]; simpl; auto.
  now rewrite lower_char_idempotent, IH.
Qed.

Lemma chars_snoc (p : ascii -> bool) (cur : string) (c : ascii) :
  forallb p (list_ascii_of_string cur) = true -> p c = true ->
  forallb p (list_ascii_of_string (cur ++ String c EmptyString)) = true.
Proof.
  induction cur as [|d cur IH]; simpl; intros H Hc.
  - now rewrite Hc.
  - apply andb_true_iff in H. destruct H as [Hd H].
    rewrite Hd. simpl. now apply IH.
Qed.

(** The pieces of a split are made of the code units of the text that
    are not white space. *)
Lemma split_ws_from_chars (p : ascii -> bool) (s : string) :
  forall (cur : string) (in_sep : bool),
    forallb (fun c => is_space c || p c) (list_ascii_of_string s) = true ->
    forallb p (list_ascii_of_string cur) = true ->
    Forall (fun piece => forallb p (list_ascii_of_string piece) = true)
           (split_ws_from s cur in_sep).
Proof.
  induction s as [|c s IH]; intros cur in_sep Hs Hcur; simpl.
  - constructor; auto.
  - simpl in Hs. apply andb_true_iff in Hs. destruct Hs as [Hc Hs].
    destruct (is_space c) eqn:E.
    + destruct in_sep; [now apply IH|].
      constructor; auto.
    + simpl in Hc. apply IH; auto. now apply chars_snoc.
Qed.

Lemma replaced_chars (text : string) :
  forallb (fun c => is_space c || Spec.lowerWord c)
          (list_ascii_of_string
             (replace_non_word_non_space (toLowerCase text)))
  = true.
Proof.
  induction text as [|c text IH]; [reflexivity|].
  cbn [toLowerCase replace_non_word_non_space list_ascii_of_string forallb].
  rewrite IH, andb_true_r. unfold Spec.lowerWord.
  destruct c as [[] [] [] [] [] [] [] []]; reflexivity.
Qed.

Lemma lowerWord_chars (w : string) :
  forallb Spec.lowerWord (list_ascii_of_string w) = true ->
  Spec.wordOnly w = true /\ toLowerCase w = w.
Proof.
  unfold Spec.wordOnly. induction w as [|c w IH]; simpl; auto.
  intros H. apply andb_true_iff in H. destruct H as [Hc Hw].
  unfold Spec.lowerWord in Hc. apply andb_true_iff in Hc.
  destruct Hc as [H1 H2]. apply Ascii.eqb_eq in H2.
  destruct (IH Hw) as [I1 I2]. rewrite H1, I1, H2, I2. auto.
Qed.

Lemma bigrams_length (words : list string) :
  List.length (bigrams words) = List.length words - 1.
Proof.
  induction words as [|w1 [|w2 rest] IH]; simpl in *; auto.
  rewrite IH. lia.
Qed.

Lemma bigrams_nonempty (words : list string) :
  Forall (fun t => t <> EmptyString) (bigrams words).
Proof.
  induction words as [|w1 [|w2 rest] IH]; simpl; constructor; auto.
  destruct w1; discriminate.
Qed.

Lemma words_nonempty_tokens (l : list string) :
  Forall (fun t => t <> EmptyString)
         (filter (fun token => (0 <? String.length token)%nat) l).
Proof.
  apply Forall_forall. intros t Ht. apply filter_In in Ht.
  destruct Ht as [_ Ht]. intros ->. discriminate.
Qed.

End TokenFacts.

(** X29. [tokenize] returns the words of the text, in lower case, followed
    by the bigrams of neighbouring words.  No token is empty; a word is
    made of letters, digits and underscores; for [n] words there are
    [n - 1] bigrams; and the case of the text makes no difference. *)
Theorem tokenize_yields_lower_case_words_and_bigrams :
  forall text : string,
    let tokens := EmbeddingGenerator.tokenize text in
    exists words,
      tokens = words ++ EmbeddingGenerator.bigrams words
      /\ Forall (fun w => Spec.wordOnly w = true /\ toLowerCase w = w) words
      /\ Forall (fun t => t <> EmptyString) tokens
      /\ List.length tokens = 2 * List.length words - 1
      /\ EmbeddingGenerator.tokenize (toLowerCase text) = tokens.
Proof.
  intros text tokens.
  set (pieces := split_ws (replace_non_word_non_space (toLowerCase text))).
  set (words := filter (fun token => (0 <? String.length token)%nat) pieces).
  exists words. refine (conj eq_refl (conj _ (conj _ (conj _ _)))).
  - assert (Hp : Forall
                   (fun piece =>
                      forallb Spec.lowerWord (list_ascii_of_string piece)
                      = true) pieces).
    { apply split_ws_from_chars; [apply replaced_chars|reflexivity]. }
    apply Forall_forall. intros w Hw. apply filter_In in Hw.
    destruct Hw as [Hw _]. rewrite Forall_forall in Hp.
    now apply lowerWord_chars, Hp.
  - apply Forall_app. split.
    + apply words_nonempty_tokens.
    + apply bigrams_nonempty.
  - unfold tokens, EmbeddingGenerator.tokenize. cbv zeta. fold pieces words.
    rewrite length_app, bigrams_length. lia.
  - unfold tokens, EmbeddingGenerator.tokenize.
    now rewrite toLowerCase_idempotent.
Qed.

(* ================================================================== *)
(** * MemoryVectorStore: a search with the text of a stored chunk      *)
(* ================================================================== *)

Section ExactMatchFacts.

Local Open Scope R_scope.
Import EmbeddingGenerator.

(** A token [computeTF] has an entry for is one of the tokens. *)
Lemma computeTF_tokens (tokens : list string) (token : string) (x : R) :
  In (token, x) (computeTF tokens) -> In token tokens.
Proof.
  intros Hin.
  assert (Hkey : In token (Map_keys (computeTF tokens))).
  { unfold Map_keys. change token with (fst (token, x)). now apply in_map. }
  destruct (Map_get token (computeTF tokens)) as [y|] eqn:Hget.
  - rewrite computeTF_get in Hget.
    apply (count_occ_In string_dec).
    destruct (count_occ string_dec tokens token); [discriminate|lia].
  - apply Map_get_None_keys in Hget. contradiction.
Qed.

(** The vector [textToVector] builds reads the generator at the tokens of
    the text only: their index in the vocabulary and their IDF score. *)
Lemma rawVector_same_lookups (g1 g2 : t) (text : string) :
  Forall (fun token =>
            Map_get token (vocabulary g1) = Map_get token (vocabulary g2)
            /\ Map_get token (idfScores g1) = Map_get token (idfScores g2))
         (tokenize text) ->
  rawVector g1 text = rawVector g2 text.
Proof.
  intros Hsame. unfold rawVector. cbv zeta. f_equal.
  assert (Htf : forall entry,
             In entry (computeTF (tokenize text)) ->
             forall v, addToken g1 v entry = addToken g2 v entry).
  { intros [token x] Hin v. apply computeTF_tokens in Hin.
    rewrite Forall_forall in Hsame. destruct (Hsame token Hin) as [Hv Hi].
    unfold addToken. now rewrite Hv, Hi. }
  revert Htf. generalize (repeat 0 dimension).
  induction (computeTF (tokenize text)) as [|entry tf IH]; intros v Htf;
    simpl; auto.
  rewrite (Htf entry) by now left.
  apply IH. intros e He. apply Htf. now right.
Qed.

(** Results that all have the same score keep their order. *)
Lemma Array_sort_same_score (v : R) (l : list VectorSearchResult.t) :
  Forall (fun r => VectorSearchResult.score r = v) l ->
  Array_sort Spec.byScore l = l.
Proof.
  intros Hl.
  assert (Hid : forall l' : list VectorSearchResult.t,
             Forall (fun r => VectorSearchResult.score r = v) l' ->
             filter (Spec.hasScore v) l' = l').
  { intros l' Hl'. apply forallb_filter_id. apply forallb_forall.
    rewrite Forall_forall in Hl'. intros r Hr. unfold Spec.hasScore.
    destruct (Req_dec_T (VectorSearchResult.score r) v) as [|Hne];
      [reflexivity|].
    exfalso. now apply Hne, Hl'. }
  rewrite <- (Hid (Array_sort Spec.byScore l)).
  - rewrite stable_sort. now apply Hid.
  - apply Forall_forall. intros r Hr. apply Array_sort_In in Hr.
    rewrite Forall_forall in Hl. now apply Hl.
Qed.

End ExactMatchFacts.

Section DriftFacts.
Local Open Scope R_scope.
Import EmbeddingGenerator.

Lemma cosineSimilarity_zero_stored (a b : list R) :
  Forall (fun x => x = 0) b -> MemoryVectorStore.cosineSimilarity a b = 0.
Proof.
  intros Hb. rewrite cosineSimilarity_sums. cbv zeta.
  assert (Hr : rightOf (combine a b) = 0).
  { revert a. induction Hb as [|y b -> Hb IH]; intros [|x a]; simpl; auto.
    rewrite IH. ring. }
  rewrite Hr, sqrt_0.
  destruct (Req_dec_T (sqrt (leftOf (combine a b))) 0); auto.
  destruct (Req_dec_T 0 0) as [|Hne]; [reflexivity|now elim Hne].
Qed.

(** Dividing every component of a vector by a positive number changes
    neither of its cosines. *)
Lemma sums_scaled_left (m : R) (a b : list R) :
  m <> 0 ->
  dotOf (combine (map (fun val => val / m) a) b) = dotOf (combine a b) / m
  /\ leftOf (combine (map (fun val => val / m) a) b)
     = leftOf (combine a b) / (m * m)
  /\ rightOf (combine (map (fun val => val / m) a) b)
     = rightOf (combine a b).
Proof.
  intros Hm. revert b.
  induction a as [|x a IH]; intros [|y b]; simpl;
    try (repeat split; field; exact Hm).
  destruct (IH b) as (-> & -> & ->). repeat split; field; exact Hm.
Qed.

Lemma cosineSimilarity_scaled_left (m : R) (a b : list R) :
  0 < m ->
  MemoryVectorStore.cosineSimilarity (map (fun val => val / m) a) b
  = MemoryVectorStore.cosineSimilarity a b.
Proof.
  intros Hm. rewrite !cosineSimilarity_sums. cbv zeta.
  destruct (sums_scaled_left m a b) as (-> & -> & ->); [lra|].
  pose proof (leftOf_nonneg (combine a b)) as Hl.
  assert (Hs : sqrt (leftOf (combine a b) / (m * m))
               = sqrt (leftOf (combine a b)) / m).
  { rewrite sqrt_div_alt by nra. now rewrite sqrt_square by lra. }
  rewrite Hs.
  destruct (Req_dec_T (sqrt (leftOf (combine a b)) / m) 0) as [H0|H0];
    destruct (Req_dec_T (sqrt (leftOf (combine a b))) 0) as [H1|H1].
  - reflexivity.
  - exfalso. apply H1. unfold Rdiv in H0.
    apply Rmult_integral in H0. destruct H0 as [H0|H0]; auto.
    exfalso. apply Rinv_neq_0_compat in H0; auto. lra.
  - exfalso. apply H0. rewrite H1. unfold Rdiv. ring.
  - destruct (Req_dec_T (sqrt (rightOf (combine a b))) 0); [reflexivity|].
    field. repeat split; auto. lra.
Qed.

Lemma cosineSimilarity_scaled_right (m : R) (a b : list R) :
  0 < m ->
  MemoryVectorStore.cosineSimilarity a (map (fun val => val / m) b)
  = MemoryVectorStore.cosineSimilarity a b.
Proof.
  intros Hm.
  assert (Hswap : forall u v,
             MemoryVectorStore.cosineSimilarity u v
             = let ps := combine v u in
               if Req_dec_T (sqrt (rightOf ps)) 0 then 0
               else if Req_dec_T (sqrt (leftOf ps)) 0 then 0
               else dotOf ps / (sqrt (rightOf ps) * sqrt (leftOf ps))).
  { intros u v. rewrite cosineSimilarity_sums. cbv zeta.
    now destruct (combine_swap_sums v u) as (<- & <- & <-). }
  rewrite !Hswap. cbv zeta.
  destruct (sums_scaled_left m b a) as (-> & -> & ->); [lra|].
  pose proof (leftOf_nonneg (combine b a)) as Hl.
  assert (Hs : sqrt (leftOf (combine b a) / (m * m))
               = sqrt (leftOf (combine b a)) / m).
  { rewrite sqrt_div_alt by nra. now rewrite sqrt_square by lra. }
  rewrite Hs.
  destruct (Req_dec_T (sqrt (rightOf (combine b a))) 0); [reflexivity|].
  destruct (Req_dec_T (sqrt (leftOf (combine b a)) / m) 0) as [H0|H0];
    destruct (Req_dec_T (sqrt (leftOf (combine b a))) 0) as [H1|H1].
  - reflexivity.
  - exfalso. apply H1. unfold Rdiv in H0.
    apply Rmult_integral in H0. destruct H0 as [H0|H0]; auto.
    exfalso. apply Rinv_neq_0_compat in H0; auto. lra.
  - exfalso. apply H0. rewrite H1. unfold Rdiv. ring.
  - field. repeat split; auto. lra.
Qed.

(** The cosine [search] computes for an embedding is the cosine of the
    vector before the normalisation. *)
Lemma cosineSimilarity_textToVector (g1 g2 : t) (text1 text2 : string) :
  MemoryVectorStore.cosineSimilarity (textToVector g1 text1)
    (textToVector g2 text2)
  = MemoryVectorStore.cosineSimilarity (rawVector g1 text1)
      (rawVector g2 text2).
Proof.
  unfold textToVector. cbv zeta.
  destruct (Rgt_dec (magnitude (rawVector g1 text1)) 0) as [H1|H1];
    destruct (Rgt_dec (magnitude (rawVector g2 text2)) 0) as [H2|H2];
    rewrite ?cosineSimilarity_scaled_left, ?cosineSimilarity_scaled_right
      by lra; reflexivity.
Qed.

(** The sums over two vectors that have all their components at 0 but two
    neighbours. *)
Lemma sums_of_two (n m : nat) (x1 x2 y1 y2 : R) :
  let ps := combine (repeat 0 n ++ [x1; x2] ++ repeat 0 m)
                    (repeat 0 n ++ [y1; y2] ++ repeat 0 m) in
  dotOf ps = x1 * y1 + x2 * y2
  /\ leftOf ps = x1 * x1 + x2 * x2
  /\ rightOf ps = y1 * y1 + y2 * y2.
Proof.
  assert (Hz : forall k, dotOf (combine (repeat 0 k) (repeat 0 k)) = 0
                         /\ leftOf (combine (repeat 0 k) (repeat 0 k)) = 0
                         /\ rightOf (combine (repeat 0 k) (repeat 0 k)) = 0).
  { induction k as [|k (H1 & H2 & H3)]; simpl; [auto|].
    rewrite H1, H2, H3. repeat split; ring. }
  cbv zeta. induction n as [|n (H1 & H2 & H3)].
  - cbn [repeat app combine dotOf leftOf rightOf].
    destruct (Hz m) as (-> & -> & ->). repeat split; ring.
  - cbn [repeat app combine dotOf leftOf rightOf] in *.
    rewrite H1, H2, H3. repeat split; ring.
Qed.

End DriftFacts.

Section DriftStore.
Local Open Scope R_scope.
Import EmbeddingGenerator.

Lemma cosine_of_two (n m : nat) (x1 x2 y1 y2 : R) :
  0 < x1 * x1 + x2 * x2 -> 0 < y1 * y1 + y2 * y2 ->
  MemoryVectorStore.cosineSimilarity
    (repeat 0 n ++ [x1; x2] ++ repeat 0 m)
    (repeat 0 n ++ [y1; y2] ++ repeat 0 m)
  = (x1 * y1 + x2 * y2)
    / (sqrt (x1 * x1 + x2 * x2) * sqrt (y1 * y1 + y2 * y2)).
Proof.
  intros Hx Hy. rewrite cosineSimilarity_sums. cbv zeta.
  destruct (sums_of_two n m x1 x2 y1 y2) as (-> & -> & ->).
  pose proof (sqrt_lt_R0 _ Hx). pose proof (sqrt_lt_R0 _ Hy).
  destruct (Req_dec_T (sqrt (x1 * x1 + x2 * x2)) 0); [lra|].
  destruct (Req_dec_T (sqrt (y1 * y1 + y2 * y2)) 0); [lra|].
  reflexivity.
Qed.

(** The cosine with a vector along the first, and along the second, of the
    two components. *)
Lemma cosine_along_first (n m : nat) (x1 x2 y : R) :
  0 < x1 * x1 + x2 * x2 -> 0 < y ->
  MemoryVectorStore.cosineSimilarity
    (repeat 0 n ++ [x1; x2] ++ repeat 0 m)
    (repeat 0 n ++ [y; 0] ++ repeat 0 m)
  = x1 / sqrt (x1 * x1 + x2 * x2).
Proof.
  intros Hx Hy. rewrite cosine_of_two by nra.
  replace (y * y + 0 * 0) with (y * y) by ring.
  rewrite sqrt_square by lra.
  pose proof (sqrt_lt_R0 _ Hx). field. split; lra.
Qed.

Lemma cosine_along_second (n m : nat) (x1 x2 y : R) :
  0 < x1 * x1 + x2 * x2 -> 0 < y ->
  MemoryVectorStore.cosineSimilarity
    (repeat 0 n ++ [x1; x2] ++ repeat 0 m)
    (repeat 0 n ++ [0; y] ++ repeat 0 m)
  = x2 / sqrt (x1 * x1 + x2 * x2).
Proof.
  intros Hx Hy. rewrite cosine_of_two by nra.
  replace (0 * 0 + y * y) with (y * y) by ring.
  rewrite sqrt_square by lra.
  pose proof (sqrt_lt_R0 _ Hx). field. split; lra.
Qed.

Lemma ln_ratio_positive (a b : nat) :
  (0 < b < a)%nat -> 0 < ln (INR a / INR b).
Proof.
  intros [Hb Ha]. rewrite <- ln_1. apply ln_increasing; [lra|].
  assert (0 < INR b) by now apply lt_0_INR.
  apply (Rmult_lt_reg_r (INR b)); [assumption|].
  unfold Rdiv. rewrite Rmult_assoc, Rinv_l by lra.
  rewrite Rmult_1_l, Rmult_1_r. now apply lt_INR.
Qed.

Lemma driftStore_chunks :
  exists ex ey1 ey2 ey3,
  MemoryVectorStore.chunks driftStore
  = [("c1"%string,
      MemoryVectorStore.mkStored (wordsChunk "c1" "aa bb")
        (textToVector
           (snd (generateBatch new
                   [MemoryVectorStore.createChunkText (wordsChunk "c1" "aa bb");
                    MemoryVectorStore.createChunkText (wordsChunk "x" "bb")]))
           (MemoryVectorStore.createChunkText (wordsChunk "c1" "aa bb"))));
     ("x"%string, MemoryVectorStore.mkStored (wordsChunk "x" "bb") ex);
     ("c2"%string,
      MemoryVectorStore.mkStored (wordsChunk "c2" "bb")
        (textToVector
           (MemoryVectorStore.embeddingGenerator driftStore)
           (MemoryVectorStore.createChunkText (wordsChunk "c2" "bb"))));
     ("y1"%string, MemoryVectorStore.mkStored (wordsChunk "y1" "aa") ey1);
     ("y2"%string, MemoryVectorStore.mkStored (wordsChunk "y2" "aa") ey2);
     ("y3"%string, MemoryVectorStore.mkStored (wordsChunk "y3" "aa") ey3)].
Proof. do 4 eexists. reflexivity. Qed.

(** When [c1] is embedded, one document of two has [aa] and both have
    [bb]: the vector lies along the component of [aa]. *)
Lemma driftStore_first_raw :
  rawVector
    (snd (generateBatch new
            [MemoryVectorStore.createChunkText (wordsChunk "c1" "aa bb");
             MemoryVectorStore.createChunkText (wordsChunk "x" "bb")]))
    (MemoryVectorStore.createChunkText (wordsChunk "c1" "aa bb"))
  = repeat 0 8 ++ [INR 1 / INR 21 * ln (INR 2 / INR 1); 0] ++ repeat 0 374.
Proof.
  cbv -[ln INR Rdiv Rmult Rplus Rmin IZR].
  repeat (apply f_equal2; [settle_zero_component|]). reflexivity.
Qed.

(** When [c2] is embedded, three documents of six have [bb]. *)
Lemma driftStore_second_raw :
  rawVector (MemoryVectorStore.embeddingGenerator driftStore)
    (MemoryVectorStore.createChunkText (wordsChunk "c2" "bb"))
  = repeat 0 8 ++ [0; INR 1 / INR 19 * ln (INR 6 / INR 3)] ++ repeat 0 374.
Proof.
  cbv -[ln INR Rdiv Rmult Rplus Rmin IZR].
  repeat (apply f_equal2; [settle_zero_component|]). reflexivity.
Qed.

(** With the query, five documents of seven have [aa] and four have
    [bb]. *)
Lemma driftStore_query_raw :
  rawVector
    (learn (MemoryVectorStore.embeddingGenerator driftStore)
       (MemoryVectorStore.createChunkText (wordsChunk "c1" "aa bb")))
    (MemoryVectorStore.createChunkText (wordsChunk "c1" "aa bb"))
  = repeat 0 8
    ++ [INR 1 / INR 21 * ln (INR 7 / INR 5);
        INR 1 / INR 21 * ln (INR 7 / INR 4)]
    ++ repeat 0 374.
Proof.
  cbv -[ln INR Rdiv Rmult Rplus Rmin IZR].
  repeat (apply f_equal2; [settle_zero_component|]). reflexivity.
Qed.


(** In [driftStore] the chunk [c2] is nearer to the text of [c1] than [c1]
    itself. *)
Lemma driftStore_scores :
  let q :=
    fst (generate (MemoryVectorStore.embeddingGenerator driftStore)
           (MemoryVectorStore.createChunkText (wordsChunk "c1" "aa bb"))) in
  MemoryVectorStore.cosineSimilarity q
    (textToVector
       (snd (generateBatch new
               [MemoryVectorStore.createChunkText (wordsChunk "c1" "aa bb");
                MemoryVectorStore.createChunkText (wordsChunk "x" "bb")]))
       (MemoryVectorStore.createChunkText (wordsChunk "c1" "aa bb")))
  < MemoryVectorStore.cosineSimilarity q
      (textToVector (MemoryVectorStore.embeddingGenerator driftStore)
         (MemoryVectorStore.createChunkText (wordsChunk "c2" "bb"))).
Proof.
  unfold generate. cbv zeta. cbn [fst].
  rewrite !cosineSimilarity_textToVector.
  rewrite driftStore_first_raw, driftStore_second_raw, driftStore_query_raw.
  assert (H21 : 0 < INR 1 / INR 21).
  { apply Rdiv_lt_0_compat; apply lt_0_INR; lia. }
  assert (H19 : 0 < INR 1 / INR 19).
  { apply Rdiv_lt_0_compat; apply lt_0_INR; lia. }
  pose proof (ln_ratio_positive 7 5 ltac:(lia)) as Ha.
  pose proof (ln_ratio_positive 2 1 ltac:(lia)) as H1.
  pose proof (ln_ratio_positive 6 3 ltac:(lia)) as H2.
  assert (Hab : ln (INR 7 / INR 5) < ln (INR 7 / INR 4)).
  { apply ln_increasing; simpl INR; lra. }
  set (ta := INR 1 / INR 21 * ln (INR 7 / INR 5)) in *.
  set (tb := INR 1 / INR 21 * ln (INR 7 / INR 4)) in *.
  assert (Hta : 0 < ta) by (unfold ta; nra).
  assert (Htb : ta < tb) by (unfold ta, tb; nra).
  assert (Hq : 0 < ta * ta + tb * tb) by nra.
  rewrite cosine_along_first, cosine_along_second by nra.
  pose proof (sqrt_lt_R0 _ Hq) as Hs.
  unfold Rdiv. apply Rmult_lt_compat_r; [|exact Htb].
  now apply Rinv_0_lt_compat.
Qed.

End DriftStore.

Lemma driftStore_ranks_another_chunk_first :
  MemoryVectorStore.getChunkById "c1" driftStore
  = Some (wordsChunk "c1" "aa bb")
  /\ (exists e,
         Map_get "c1" (MemoryVectorStore.chunks driftStore)
         = Some (MemoryVectorStore.mkStored (wordsChunk "c1" "aa bb") e)
         /\ ~ Forall (fun x => x = 0%R) e)
  /\ ~ Forall (fun x => x = 0%R)
        (fst (EmbeddingGenerator.generate
                (MemoryVectorStore.embeddingGenerator driftStore)
                (MemoryVectorStore.createChunkText
                   (wordsChunk "c1" "aa bb"))))
  /\ exists r,
       fst (MemoryVectorStore.search
              (MemoryVectorStore.createChunkText (wordsChunk "c1" "aa bb"))
              1 driftStore)
       = [r]
       /\ CodeChunk.id (VectorSearchResult.chunk r) <> "c1"%string.
Proof.
  split; [reflexivity|].
  split.
  { destruct driftStore_chunks as (ex & ey1 & ey2 & ey3 & ->).
    eexists. split; [reflexivity|].
    apply (textToVector_nonzero _ _ 8). rewrite driftStore_first_raw.
    cbn [repeat app nth].
    pose proof (ln_ratio_positive 2 1 ltac:(lia)) as Hln.
    assert (H21 : (0 < INR 1 / INR 21)%R).
    { apply Rdiv_lt_0_compat; apply lt_0_INR; lia. }
    nra. }
  split.
  { unfold EmbeddingGenerator.generate. cbv zeta. cbn [fst].
    apply (textToVector_nonzero _ _ 8). rewrite driftStore_query_raw.
    cbn [repeat app nth].
    pose proof (ln_ratio_positive 7 5 ltac:(lia)) as Hln.
    assert (H21 : (0 < INR 1 / INR 21)%R).
    { apply Rdiv_lt_0_compat; apply lt_0_INR; lia. }
    nra. }
  rewrite search_ranks_by_score.
  pose proof driftStore_scores as Hlt. cbv zeta in Hlt.
  set (q := fst (EmbeddingGenerator.generate _ _)) in *.
  destruct driftStore_chunks as (ex & ey1 & ey2 & ey3 & ->).
  unfold candidates.
  cbn [map MemoryVectorStore.chunk MemoryVectorStore.embedding].
  set (e1 := EmbeddingGenerator.textToVector _ _) in *.
  set (e2 := EmbeddingGenerator.textToVector
               (MemoryVectorStore.embeddingGenerator driftStore) _) in *.
  set (cands := [_; _; _; _; _; _]).
  pose proof (ascending_sort cands) as Hasc.
  pose proof (Array_sort_length Spec.byScore cands) as Hlen.
  assert (Hin : forall r, In r (Array_sort Spec.byScore cands) -> In r cands)
    by (intros r; apply Array_sort_In).
  assert (Hc2 : In (VectorSearchResult.mk (wordsChunk "c2" "bb")
                      (1 - MemoryVectorStore.cosineSimilarity q e2))
                   (Array_sort Spec.byScore cands)).
  { apply Array_sort_In. unfold cands. simpl. tauto. }
  destruct (Array_sort Spec.byScore cands) as [|r rest];
    [discriminate Hlen|].
  exists r. split; [reflexivity|].
  destruct Hasc as [Hr _]. rewrite Forall_forall in Hr.
  assert (Hle : (VectorSearchResult.score r
                 <= 1 - MemoryVectorStore.cosineSimilarity q e2)%R).
  { destruct Hc2 as [Heq|Hc2]; [rewrite Heq; simpl; lra|].
    exact (Hr _ Hc2). }
  destruct (Hin r (or_introl eq_refl)) as [<-|[<-|[<-|[<-|[<-|[<-|[]]]]]]];
    simpl; try discriminate.
  simpl in Hle. lra.
Qed.

Section SteadyStore.
Local Open Scope R_scope.
Import EmbeddingGenerator.

Lemma steadyStore_chunks :
  MemoryVectorStore.chunks steadyStore
  = [("d"%string,
      MemoryVectorStore.mkStored (wordsChunk "d" "")
        (textToVector
           (snd (generateBatch new
                   [MemoryVectorStore.createChunkText (wordsChunk "d" "");
                    MemoryVectorStore.createChunkText (wordsChunk "c" "zz")]))
           (MemoryVectorStore.createChunkText (wordsChunk "d" ""))))]
    ++ ("c"%string,
        MemoryVectorStore.mkStored (wordsChunk "c" "zz")
          (textToVector
             (snd (generateBatch new
                     [MemoryVectorStore.createChunkText (wordsChunk "d" "");
                      MemoryVectorStore.createChunkText (wordsChunk "c" "zz")]))
             (MemoryVectorStore.createChunkText (wordsChunk "c" "zz"))))
    :: [].
Proof. reflexivity. Qed.

(** When the chunks of [steadyStore] are embedded, one document of two has
    the word [zz]; with the query, two of four.  Every other word of the
    text is in every document, and no document has a bigram. *)
Lemma steadyStore_lookups :
  Forall (fun token =>
            Map_get token
              (vocabulary
                 (snd (generateBatch new
                   [MemoryVectorStore.createChunkText (wordsChunk "d" "");
                    MemoryVectorStore.createChunkText (wordsChunk "c" "zz")])))
            = Map_get token
                (vocabulary
                   (learn (MemoryVectorStore.embeddingGenerator steadyStore)
                      (MemoryVectorStore.createChunkText (wordsChunk "c" "zz"))))
            /\ Map_get token
                 (idfScores
                 (snd (generateBatch new
                   [MemoryVectorStore.createChunkText (wordsChunk "d" "");
                    MemoryVectorStore.createChunkText (wordsChunk "c" "zz")])))
               = Map_get token
                   (idfScores
                      (learn (MemoryVectorStore.embeddingGenerator steadyStore)
                         (MemoryVectorStore.createChunkText
                            (wordsChunk "c" "zz")))))
         (tokenize (MemoryVectorStore.createChunkText (wordsChunk "c" "zz"))).
Proof.
  remember (vocabulary (snd (generateBatch _ _))) as v0 eqn:Hv0.
  remember (vocabulary (learn _ _)) as v1 eqn:Hv1.
  remember (idfScores (snd (generateBatch _ _))) as i0 eqn:Hi0.
  remember (idfScores (learn _ _)) as i1 eqn:Hi1.
  remember (tokenize _) as tokens eqn:Ht.
  cbv in Hv0, Hv1, Ht.
  cbv -[ln INR Rdiv Rmult Rplus Rmin IZR] in Hi0, Hi1.
  subst v0 v1 i0 i1 tokens.
  repeat (apply Forall_cons; [split; [reflexivity|]|]);
    try apply Forall_nil;
    cbv -[ln INR Rdiv Rmult Rplus Rmin IZR];
    try reflexivity; do 2 f_equal; simpl INR; field.
Qed.

(** The word [zz] gives the query a component that is not 0. *)
Lemma steadyStore_query_is_not_zero :
  nth 16
    (rawVector
       (learn (MemoryVectorStore.embeddingGenerator steadyStore)
          (MemoryVectorStore.createChunkText (wordsChunk "c" "zz")))
       (MemoryVectorStore.createChunkText (wordsChunk "c" "zz"))) 0
  <> 0.
Proof.
  cbv -[ln INR Rdiv Rmult Rplus Rmin IZR].
  pose proof (ln_ratio_positive 4 2 ltac:(lia)) as Hln.
  assert (H19 : 0 < INR 1 / INR 19).
  { apply Rdiv_lt_0_compat; apply lt_0_INR; lia. }
  nra.
Qed.

(** The other chunk of [steadyStore] has no word of its own: its embedding
    is the zero vector. *)
Lemma steadyStore_other_is_zero :
  Forall (fun x => x = 0)
    (textToVector
       (snd (generateBatch new
               [MemoryVectorStore.createChunkText (wordsChunk "d" "");
                MemoryVectorStore.createChunkText (wordsChunk "c" "zz")]))
       (MemoryVectorStore.createChunkText (wordsChunk "d" ""))).
Proof.
  apply textToVector_zero.
  cbv -[ln INR Rdiv Rmult Rplus Rmin IZR].
  repeat constructor; settle_zero_component.
Qed.

End SteadyStore.

(** C4, as stated, fails, in two ways.  In [twoChunkStore] a search with
    the text of [bareChunk] returns [otherChunk] first, with score 1: every
    word of the query is in every document, the query embedding is the
    zero vector, every distance is 1 and the order is that of insertion.
    In [driftStore] neither the embedding stored for [c1] nor the one made
    for the query is the zero vector, and a search with the text of [c1]
    returns another chunk first: [c1] was embedded when [bb] was in every
    document and weighed nothing, the query is embedded when [bb] weighs
    more than [aa], and [c2], whose embedding lies along [bb], is
    nearer. *)
Lemma exact_match_is_not_always_first :
  (MemoryVectorStore.getChunkById "c" twoChunkStore = Some bareChunk
   /\ fst (MemoryVectorStore.search
             (MemoryVectorStore.createChunkText bareChunk) 1 twoChunkStore)
      = [VectorSearchResult.mk otherChunk 1])
  /\ (MemoryVectorStore.getChunkById "c1" driftStore
      = Some (wordsChunk "c1" "aa bb")
      /\ (exists e,
             Map_get "c1" (MemoryVectorStore.chunks driftStore)
             = Some (MemoryVectorStore.mkStored (wordsChunk "c1" "aa bb") e)
             /\ ~ Forall (fun x => x = 0%R) e)
      /\ ~ Forall (fun x => x = 0%R)
            (fst (EmbeddingGenerator.generate
                    (MemoryVectorStore.embeddingGenerator driftStore)
                    (MemoryVectorStore.createChunkText
                       (wordsChunk "c1" "aa bb"))))
      /\ exists r,
           fst (MemoryVectorStore.search
                  (MemoryVectorStore.createChunkText
                     (wordsChunk "c1" "aa bb"))
                  1 driftStore)
           = [r]
           /\ CodeChunk.id (VectorSearchResult.chunk r) <> "c1"%string).
Proof.
  split.
  - exact twoChunkStore_ranks_by_insertion.
  - exact driftStore_ranks_another_chunk_first.
Qed.

(** C4, amended.  A store holds a chunk C with the embedding some state
    [embedder] of the generator makes of the canonical text of C, and [k]
    is at least 1.  If every token of the text has the same vocabulary
    index and the same IDF score in [embedder] as in the generator once
    the search has appended the query and recomputed IDF, if the query
    embedding is not the zero vector, and if no chunk stored before C is
    at distance 0 from the query, then the search with the text of C
    returns C first with score 0 (the arithmetic is exact here; the code's
    doubles give 0 up to rounding).  If the query embedding is the zero
    vector, the search returns the first [k] chunks in their order of
    insertion, each with score 1. *)
Theorem exact_match_is_first_without_drift :
  forall (s : MemoryVectorStore.t) (c : CodeChunk.t)
         (embedder : EmbeddingGenerator.t)
         (before after : Map MemoryVectorStore.StoredChunk) (k : nat),
    let text := MemoryVectorStore.createChunkText c in
    let current :=
      EmbeddingGenerator.learn (MemoryVectorStore.embeddingGenerator s) text in
    let q :=
      fst (EmbeddingGenerator.generate
             (MemoryVectorStore.embeddingGenerator s) text) in
    (1 <= k ->
     MemoryVectorStore.chunks s
     = before
       ++ (CodeChunk.id c,
           MemoryVectorStore.mkStored c
             (EmbeddingGenerator.textToVector embedder text))
       :: after ->
     Forall (fun token =>
               Map_get token (EmbeddingGenerator.vocabulary embedder)
               = Map_get token (EmbeddingGenerator.vocabulary current)
               /\ Map_get token (EmbeddingGenerator.idfScores embedder)
                  = Map_get token (EmbeddingGenerator.idfScores current))
            (EmbeddingGenerator.tokenize text) ->
     ~ Forall (fun x => x = 0%R) q ->
     Forall (fun entry =>
               MemoryVectorStore.cosineSimilarity q
                 (MemoryVectorStore.embedding (snd entry)) <> 1%R)
            before ->
     exists rest,
       fst (MemoryVectorStore.search text k s)
       = VectorSearchResult.mk c 0 :: rest)
    /\ (Forall (fun x => x = 0%R) q ->
        fst (MemoryVectorStore.search text k s)
        = Array_slice0 k
            (map (fun entry =>
                    VectorSearchResult.mk
                      (MemoryVectorStore.chunk (snd entry)) 1)
                 (MemoryVectorStore.chunks s))).
Proof.
  intros s c embedder before after k text current q. split.
  - intros Hk Hchunks Hsame Hq Hbefore.
    assert (He : EmbeddingGenerator.textToVector embedder text = q).
    { unfold q, EmbeddingGenerator.generate. cbv zeta. cbn [fst].
      apply textToVector_same_raw. now apply rawVector_same_lookups. }
    rewrite search_ranks_candidates. fold q.
    rewrite Hchunks, candidates_app. simpl candidates at 2.
    cbn [MemoryVectorStore.chunk MemoryVectorStore.embedding].
    rewrite He, cosineSimilarity_self by exact Hq.
    replace (1 - 1)%R with 0%R by ring.
    destruct (Array_sort_first
                (fun a b => Rltb (VectorSearchResult.score a)
                                 (VectorSearchResult.score b))
                (candidates q before) (VectorSearchResult.mk c 0)
                (candidates q after)) as [rest Hrest].
    + intros x Hx. unfold candidates in Hx. apply in_map_iff in Hx.
      destruct Hx as ([i sc] & <- & Hin). simpl.
      rewrite Forall_forall in Hbefore. specialize (Hbefore _ Hin).
      simpl in Hbefore.
      pose proof (cosineSimilarity_le_1 q (MemoryVectorStore.embedding sc)).
      unfold Rltb. destruct (Rlt_dec _ _) as [|Hn]; [reflexivity|].
      exfalso. apply Hn. lra.
    + intros y Hy. unfold candidates in Hy. apply in_map_iff in Hy.
      destruct Hy as ([i sc] & <- & Hin). simpl.
      pose proof (cosineSimilarity_le_1 q (MemoryVectorStore.embedding sc)).
      unfold Rltb. destruct (Rlt_dec _ _) as [Hlt|]; [|reflexivity].
      exfalso. lra.
    + rewrite Hrest. destruct k as [|k']; [lia|].
      exists (Array_slice0 k' rest). reflexivity.
  - intros Hq. rewrite search_ranks_by_score. fold q.
    assert (Hc : candidates q (MemoryVectorStore.chunks s)
                 = map (fun entry =>
                          VectorSearchResult.mk
                            (MemoryVectorStore.chunk (snd entry)) 1)
                       (MemoryVectorStore.chunks s)).
    { unfold candidates. apply map_ext. intros [key stored].
      rewrite cosineSimilarity_zero_query by exact Hq.
      cbn [snd]. f_equal. ring. }
    rewrite Hc. f_equal. apply (Array_sort_same_score 1).
    apply Forall_map. apply Forall_forall. now intros entry _.
Qed.


Lemma exact_match_is_first_without_drift_witness :
  (exists rest,
      fst (MemoryVectorStore.search
             (MemoryVectorStore.createChunkText (wordsChunk "c" "zz"))
             1 steadyStore)
      = VectorSearchResult.mk (wordsChunk "c" "zz") 0 :: rest)
  /\ fst (MemoryVectorStore.search
            (MemoryVectorStore.createChunkText bareChunk) 2 twoChunkStore)
     = Array_slice0 2
         (map (fun entry =>
                 VectorSearchResult.mk
                   (MemoryVectorStore.chunk (snd entry)) 1)
              (MemoryVectorStore.chunks twoChunkStore)).
Proof.
  split.
  - apply (proj1 (exact_match_is_first_without_drift steadyStore
                    (wordsChunk "c" "zz")
                    (snd (EmbeddingGenerator.generateBatch
                            EmbeddingGenerator.new
                            [MemoryVectorStore.createChunkText
                               (wordsChunk "d" "");
                             MemoryVectorStore.createChunkText
                               (wordsChunk "c" "zz")]))
                    [("d"%string,
                      MemoryVectorStore.mkStored (wordsChunk "d" "")
                        (EmbeddingGenerator.textToVector
                           (snd (EmbeddingGenerator.generateBatch
                                   EmbeddingGenerator.new
                                   [MemoryVectorStore.createChunkText
                                      (wordsChunk "d" "");
                                    MemoryVectorStore.createChunkText
                                      (wordsChunk "c" "zz")]))
                           (MemoryVectorStore.createChunkText
                              (wordsChunk "d" ""))))]
                    [] 1)).
    + lia.
    + exact steadyStore_chunks.
    + exact steadyStore_lookups.
    + apply (textToVector_nonzero _ _ 16), steadyStore_query_is_not_zero.
    + constructor; [|constructor]. cbn [snd MemoryVectorStore.embedding].
      rewrite cosineSimilarity_zero_stored
        by exact steadyStore_other_is_zero.
      lra.
  - apply (proj2 (exact_match_is_first_without_drift twoChunkStore bareChunk
                    EmbeddingGenerator.new [] [] 2)).
    exact bareChunk_query_is_zero.
Defined.
